(** * sqlitepie: managed attributes, keyed collections, schema graph, engine

    A shallow embedding of the Python package [sqlitepie]
    ([descriptors.py], [collections.py], [schema.py], [constraints.py],
    [mixins.py], [engines.py], [utils.py]) and the properties of it that
    the specification states.

    Python objects live in a heap indexed by locations; every instance
    carries its class, its [__dict__] (an insertion-ordered association
    list, as Python dicts are) and, for collections, the [_fields] slot.
    Methods that mutate objects are functions in a state-and-exception
    monad over the heap: a raised exception keeps the mutations done
    before it, as in Python. *)

From Stdlib Require Import ZArith String Ascii List Bool Lia.
From stdpp Require Import base option list.
Import ListNotations.

#[local] Set Warnings "-register-all".
Local Open Scope string_scope.
Local Open Scope list_scope.

(** ** Values *)

(** Locations are indices into the heap. *)
Abbreviation loc := nat.

(** [list] and [tuple] values ([set] is left out of the value universe). *)
Inductive seq_kind := KList | KTuple.

Inductive val :=
| VNone
| VBool (b : bool)
| VInt (z : Z)
| VStr (s : string)
| VObj (l : loc)
| VSeq (k : seq_kind) (items : list val)
| VDict (entries : list (val * val)).

Definition seq_kind_eqb (a b : seq_kind) : bool :=
  match a, b with
  | KList, KList | KTuple, KTuple => true
  | _, _ => false
  end.

(** Python's [==] between two values that are no collection instances and
    hold none ([Collection] is the one class of the model that defines
    [__eq__]; [Collection.equal] below is [==] in general, and is what
    the code of the collections is modelled with). Instances compare by
    identity; [True == 1]; a list never equals a tuple; dicts compare
    entry-wise whatever the order; what a container holds is compared by
    this function again. *)
Fixpoint py_eq (a b : val) {struct a} : bool :=
  match a, b with
  | VNone, VNone => true
  | VBool x, VBool y => Bool.eqb x y
  | VBool x, VInt y => (Z.b2z x =? y)%Z
  | VInt x, VBool y => (x =? Z.b2z y)%Z
  | VInt x, VInt y => (x =? y)%Z
  | VStr x, VStr y => String.eqb x y
  | VObj x, VObj y => Nat.eqb x y
  | VSeq k xs, VSeq k' ys =>
      seq_kind_eqb k k' &&
      (fix all2 (xs ys : list val) : bool :=
         match xs, ys with
         | [], [] => true
         | x :: xs', y :: ys' => py_eq x y && all2 xs' ys'
         | _, _ => false
         end) xs ys
  | VDict d, VDict d' =>
      Nat.eqb (length d) (length d') &&
      (fix each (d : list (val * val)) : bool :=
         match d with
         | [] => true
         | (k, v) :: r =>
             match
               (fix find (d' : list (val * val)) : option val :=
                  match d' with
                  | [] => None
                  | (k', v') :: r' => if py_eq k k' then Some v' else find r'
                  end) d'
             with
             | Some v' => py_eq v v'
             | None => false
             end && each r
         end) d
  | _, _ => false
  end.

(** Python's [is]: identity of instances and of the singletons [None],
    [True], [False]. Other immutable scalars carry no identity in this
    model; they are told apart by their contents. A list, tuple or dict
    of the model is an object of its own wherever it occurs: the model
    has no two references to one list. *)
Definition py_is (a b : val) : bool :=
  match a, b with
  | VNone, VNone => true
  | VBool x, VBool y => Bool.eqb x y
  | VInt x, VInt y => (x =? y)%Z
  | VStr x, VStr y => String.eqb x y
  | VObj x, VObj y => Nat.eqb x y
  | _, _ => false
  end.

(** [x in xs] for a list or a dict's values view, when no collection
    instance is compared ([Collection.contains] is [in] in general). *)
Definition py_in (x : val) (xs : list val) : bool :=
  existsb (fun e => py_is x e || py_eq x e) xs.

(** [None], booleans, integers and strings. *)
Definition scalar (v : val) : bool :=
  match v with
  | VNone | VBool _ | VInt _ | VStr _ => true
  | _ => false
  end.

(** ** Exceptions *)

Inductive illegal :=
| AttributeUpdate (attribute : string)
| AttributeDeletion (attribute : string)
| UnsupportedMethod (method : string).

Inductive index_error :=
| CollectionIndexOutOfRange (key : Z)   (* raised by Collection._get_by_index *)
| ListIndexOutOfRange.                  (* raised by list.__getitem__ *)

Inductive exn :=
| IllegalOperation (what : illegal)
| SchemaNameError (given : string)
| SQLiteEngineError
| MissingKeyError (key : val)
| DuplicateKeyError (key : val)
| DuplicateItemError (item : val)
| ArgumentError (params : list val)
| ConstraintError (allowed : list string) (given : string)
| ValueError (attribute : string)     (* raised by a _check_value *)
| ValueErrorNotInList                 (* raised by list.index *)
| IndexError (why : index_error)
| KeyError (key : string)
| TypeError
| AttributeError.

Inductive result (A : Type) :=
| Ok (a : A)
| Raise (e : exn).
Arguments Ok {A} a.
Arguments Raise {A} e.

(** ** Insertion-ordered dictionaries *)

Section Dict.
Context {K V : Type} (eqb : K -> K -> bool).

Fixpoint dict_get (d : list (K * V)) (k : K) : option V :=
  match d with
  | [] => None
  | (k', v) :: r => if eqb k k' then Some v else dict_get r k
  end.

Definition dict_mem (d : list (K * V)) (k : K) : bool :=
  match dict_get d k with Some _ => true | None => false end.

(** [d.update({k: v})]: a bound key keeps its position, a new one is
    appended. *)
Fixpoint dict_set (d : list (K * V)) (k : K) (v : V) : list (K * V) :=
  match d with
  | [] => [(k, v)]
  | (k', v') :: r =>
      if eqb k k' then (k', v) :: r else (k', v') :: dict_set r k v
  end.

Fixpoint dict_pop (d : list (K * V)) (k : K) : list (K * V) :=
  match d with
  | [] => []
  | (k', v') :: r => if eqb k k' then r else (k', v') :: dict_pop r k
  end.
End Dict.

(** Attribute dictionaries are keyed by attribute names. *)
Definition attrs := list (string * val).
Definition attr_get (d : attrs) (a : string) : option val := dict_get String.eqb d a.
Definition attr_mem (d : attrs) (a : string) : bool := dict_mem String.eqb d a.
Definition attr_set (d : attrs) (a : string) (v : val) : attrs := dict_set String.eqb d a v.
Definition attr_pop (d : attrs) (a : string) : attrs := dict_pop String.eqb d a.

(** [d.get(a)]: [None] when [a] is unbound. *)
Definition attr_get_default (d : attrs) (a : string) : val :=
  match attr_get d a with Some v => v | None => VNone end.

(** Dictionaries with arbitrary keys, as [Collection._fields]: the search
    for a key, once the key has been hashed ([py_hash] below). Hashable
    values hold no collection instance, so [py_eq] compares them as
    Python does. *)
Definition pydict := list (val * val).
Definition pydict_get (d : pydict) (k : val) : option val := dict_get py_eq d k.
Definition pydict_mem (d : pydict) (k : val) : bool := dict_mem py_eq d k.
Definition pydict_set (d : pydict) (k v : val) : pydict := dict_set py_eq d k v.

(** ** Classes and the heap *)

Inductive cls :=
| CSchema | CTable | CView | CIndex | CTrigger | CColumn
| CPrimaryKey
| CCollection | CMixinCollection
| CTables | CIndexes | CViews | CTriggers | CColumns
| CSQLite.

Record object := mkObject {
  class_of : cls;
  dict : attrs;       (* __dict__ *)
  fields : pydict     (* the _fields slot of a Collection; empty elsewhere *)
}.

Abbreviation heap := (list object).

(** ** The state-and-exception monad *)

Definition M (A : Type) : Type := heap -> heap * result A.

Definition ret {A} (a : A) : M A := fun h => (h, Ok a).
Definition raise {A} (e : exn) : M A := fun h => (h, Raise e).
Definition bind {A B} (m : M A) (f : A -> M B) : M B :=
  fun h => match m h with
           | (h', Ok a) => f a h'
           | (h', Raise e) => (h', Raise e)
           end.
Definition lift {A} (r : result A) : M A := fun h => (h, r).

Notation "'do' x <- m ; k" := (bind m (fun x => k))
  (at level 10, x name, m at level 100, k at level 200, only parsing).
Notation "'do' ' p <- m ; k" := (bind m (fun x => match x with p => k end))
  (at level 10, p pattern, m at level 100, k at level 200, only parsing).

Definition get_heap : M heap := fun h => (h, Ok h).

(** [object.__new__]: a fresh instance with an empty [__dict__]. *)
Definition new (c : cls) : M loc :=
  fun h => (h ++ [mkObject c [] []], Ok (length h)).

(** Dereferencing: only instances have a [__dict__]. *)
Definition deref (v : val) : M (loc * object) :=
  fun h => match v with
           | VObj l => match h !! l with
                       | Some o => (h, Ok (l, o))
                       | None => (h, Raise AttributeError)
                       end
           | _ => (h, Raise AttributeError)
           end.

Definition read (l : loc) : M object := do x <- deref (VObj l); ret (snd x).

Definition write_dict (l : loc) (d : attrs) : M unit :=
  fun h => match h !! l with
           | Some o => (<[l := mkObject (class_of o) d (fields o)]> h, Ok tt)
           | None => (h, Raise AttributeError)
           end.

Definition write_fields (l : loc) (f : pydict) : M unit :=
  fun h => match h !! l with
           | Some o => (<[l := mkObject (class_of o) (dict o) f]> h, Ok tt)
           | None => (h, Raise AttributeError)
           end.

(** ** Classes of collections, hashing *)

Definition is_Collection (c : cls) : bool :=
  match c with
  | CCollection | CMixinCollection
  | CTables | CIndexes | CViews | CTriggers | CColumns => true
  | _ => false
  end.

(** [MixinCollection] and its subclasses: the collections that reopen
    [insert]. *)
Definition is_MixinCollection (c : cls) : bool :=
  match c with
  | CMixinCollection | CTables | CIndexes | CViews | CTriggers | CColumns => true
  | _ => false
  end.

(** [hash(v)] succeeds: a list and a dict have no hash, [Collection]
    sets [__hash__ = None] for itself and its subclasses, a tuple hashes
    its items, and everything else has the hash of [object] or its own. *)
Fixpoint hashable (h : heap) (v : val) {struct v} : bool :=
  match v with
  | VObj l =>
      match h !! l with
      | Some o => negb (is_Collection (class_of o))
      | None => true
      end
  | VSeq KTuple items => forallb (hashable h) items
  | VSeq KList _ => false
  | VDict _ => false
  | _ => true
  end.

(** [key in d], [d.get(key)], [{key: value}]: the key is hashed first. *)
Definition py_hash (key : val) : M unit :=
  fun h => (h, if hashable h key then Ok tt else Raise TypeError).

(** [itertools.zip_longest], padding with [None]. *)
Fixpoint zip_longest (xs ys : list val) {struct xs} : list (val * val) :=
  match xs with
  | [] => map (fun y => (VNone, y)) ys
  | x :: xs' =>
      match ys with
      | [] => (x, VNone) :: zip_longest xs' []
      | y :: ys' => (x, y) :: zip_longest xs' ys'
      end
  end.

(** ** Strings: [str.lower] and [str.upper] on ASCII text *)

Definition lower_ascii (c : ascii) : ascii :=
  let n := nat_of_ascii c in
  if (Nat.leb 65 n && Nat.leb n 90)%bool then ascii_of_nat (n + 32) else c.

Definition upper_ascii (c : ascii) : ascii :=
  let n := nat_of_ascii c in
  if (Nat.leb 97 n && Nat.leb n 122)%bool then ascii_of_nat (n - 32) else c.

Fixpoint lower (s : string) : string :=
  match s with
  | EmptyString => EmptyString
  | String c r => String (lower_ascii c) (lower r)
  end.

Fixpoint upper (s : string) : string :=
  match s with
  | EmptyString => EmptyString
  | String c r => String (upper_ascii c) (upper r)
  end.

Definition str_in (s : string) (l : list string) : bool := existsb (String.eqb s) l.

(** ** constants.py *)

Definition SCHEMA_NAME_LIST : list string := ["main"; "temp"].
Definition ON_CONFLICT : list string := ["ROLLBACK"; "ABORT"; "FAIL"; "IGNORE"; "REPLACE"].
Definition ORDER : list string := ["ASC"; "DESC"].

(** ** descriptors.py: managed attribute slots *)

(** [instance.__dict__]: the base [Collection] declares [__slots__] and
    has none; scalars and containers have none either. *)
Definition has_dict (c : cls) : bool :=
  match c with CCollection => false | _ => true end.

Definition __dict__ (instance : val) : M (loc * attrs) :=
  do x <- deref instance;
  if has_dict (class_of (snd x)) then ret (fst x, dict (snd x))
  else raise AttributeError.

(** [isinstance(value, SQLite)] *)
Definition isinstance_SQLite (h : heap) (value : val) : bool :=
  match value with
  | VObj l => match h !! l with
              | Some o => match class_of o with CSQLite => true | _ => false end
              | None => false
              end
  | _ => false
  end.

Module Descriptor.

(** The descriptor classes of the module. *)
Inductive kind :=
| Descriptor | Immutable | Toggle
| AnyVar | StringVar | BoolVar
| ImmutableVar | ImmutableStringVar | ImmutableBoolVar
| ToggleVar | ToggleStringVar
| SchemaName | SQLiteEngine.

(** A slot: its class, the attribute name bound by [__set_name__], and
    the fallback name given to [Toggle.__init__]. *)
Record slot := mkSlot {
  kind_of : kind;
  _attribute : string;
  _fallback : option string
}.

(** [Immutable] is among the bases. *)
Definition immutable (k : kind) : bool :=
  match k with
  | Immutable | ImmutableVar | ImmutableStringVar | ImmutableBoolVar
  | ToggleVar | ToggleStringVar | SchemaName | SQLiteEngine => true
  | _ => false
  end.

(** [AnyVar._check_value] *)
Definition AnyVar_check_value (d : slot) (value : val) : result val :=
  match value with
  | VNone => Raise (ValueError (_attribute d))
  | _ => Ok value
  end.

(** [StringVar._check_value] *)
Definition StringVar_check_value (d : slot) (value : val) : result val :=
  match value with
  | VStr s => if Nat.ltb 0 (String.length s) then Ok value
              else Raise (ValueError (_attribute d))
  | _ => Raise (ValueError (_attribute d))
  end.

(** [BoolVar._check_value] *)
Definition BoolVar_check_value (d : slot) (value : val) : result val :=
  match value with
  | VBool _ => Ok value
  | _ => Raise (ValueError (_attribute d))
  end.

(** [SchemaName._check_name] *)
Definition _check_name (value : string) : result val :=
  let name := lower value in
  if str_in name SCHEMA_NAME_LIST then Ok (VStr name)
  else Raise (SchemaNameError value).

(** [SchemaName._check_value] *)
Definition SchemaName_check_value (d : slot) (value : val) : result val :=
  match StringVar_check_value d value with
  | Ok (VStr s) => _check_name s
  | Ok _ => Raise AttributeError
  | Raise e => Raise e
  end.

(** [SQLiteEngine._check_value] *)
Definition SQLiteEngine_check_value (h : heap) (value : val) : result val :=
  if isinstance_SQLite h value then Ok value else Raise SQLiteEngineError.

(** [self._check_value(instance, value)] as the class of the slot
    resolves it. *)
Definition _check_value (d : slot) (value : val) : M val :=
  fun h =>
    (h, match kind_of d with
        | StringVar | ImmutableStringVar | ToggleStringVar => StringVar_check_value d value
        | BoolVar | ImmutableBoolVar => BoolVar_check_value d value
        | SchemaName => SchemaName_check_value d value
        | SQLiteEngine => SQLiteEngine_check_value h value
        | _ => AnyVar_check_value d value
        end).

(** [Descriptor.__set__] *)
Definition Descriptor__set__ (d : slot) (instance value : val) : M unit :=
  do x <- __dict__ instance;
  write_dict (fst x) (attr_set (snd x) (_attribute d) value).

(** [Immutable.__set__] *)
Definition Immutable__set__ (d : slot) (instance value : val) : M unit :=
  do x <- __dict__ instance;
  if attr_mem (snd x) (_attribute d)
  then raise (IllegalOperation (AttributeUpdate (_attribute d)))
  else Descriptor__set__ d instance value.

(** [AnyVar.__set__]: the value is checked, then handed to the next
    [__set__] of the resolution order ([Immutable.__set__] for the
    immutable classes, [Descriptor.__set__] for the others). *)
Definition AnyVar__set__ (d : slot) (instance value : val) : M unit :=
  do v <- _check_value d value;
  if immutable (kind_of d) then Immutable__set__ d instance v
  else Descriptor__set__ d instance v.

(** [SQLiteEngine.__set__] *)
Definition SQLiteEngine__set__ (d : slot) (instance value : val) : M unit :=
  do target <-
    match _fallback d with
    | Some fallback =>
        do x <- __dict__ instance; ret (attr_get_default (snd x) fallback)
    | None => ret instance
    end;
  AnyVar__set__ d target value.

(** [__set__] as the class of the slot resolves it. *)
Definition __set__ (d : slot) (instance value : val) : M unit :=
  match kind_of d with
  | Descriptor | Toggle => Descriptor__set__ d instance value
  | Immutable => Immutable__set__ d instance value
  | SQLiteEngine => SQLiteEngine__set__ d instance value
  | _ => AnyVar__set__ d instance value
  end.

(** [Descriptor.__get__] on an instance. *)
Definition Descriptor__get__ (d : slot) (instance : val) : M val :=
  do x <- __dict__ instance;
  ret (attr_get_default (snd x) (_attribute d)).

(** [Toggle._get_value] *)
Definition Toggle_get_value (instance : val) (attribute : string)
    (fallback : option string) : M val :=
  do x <- __dict__ instance;
  match fallback with
  | None => ret (attr_get_default (snd x) attribute)
  | Some fallback =>
      if negb (attr_mem (snd x) attribute)
      then ret (attr_get_default (snd x) fallback)
      else ret (attr_get_default (snd x) attribute)
  end.

(** [SQLiteEngine._get_value] *)
Definition SQLiteEngine_get_value (instance : val) (attribute : string)
    (fallback : option string) : M val :=
  do x <- __dict__ instance;
  match fallback with
  | None => ret (attr_get_default (snd x) attribute)
  | Some fallback =>
      do instance' <-
        (if negb (attr_mem (snd x) attribute)
         then ret (attr_get_default (snd x) fallback)
         else ret instance);
      do x' <- __dict__ instance';
      ret (attr_get_default (snd x') attribute)
  end.

(** [__get__] on an instance, as the class of the slot resolves it
    ([Toggle.__get__] calls [self._get_value]). *)
Definition __get__ (d : slot) (instance : val) : M val :=
  match kind_of d with
  | Toggle | ToggleVar | ToggleStringVar =>
      Toggle_get_value instance (_attribute d) (_fallback d)
  | SQLiteEngine =>
      SQLiteEngine_get_value instance (_attribute d) (_fallback d)
  | _ => Descriptor__get__ d instance
  end.

(** [Descriptor.__delete__] *)
Definition Descriptor__delete__ (d : slot) (instance : val) : M unit :=
  do x <- __dict__ instance;
  if attr_mem (snd x) (_attribute d)
  then write_dict (fst x) (attr_pop (snd x) (_attribute d))
  else ret tt.

(** [Immutable.__delete__] *)
Definition Immutable__delete__ (d : slot) (instance : val) : M unit :=
  raise (IllegalOperation (AttributeDeletion (_attribute d))).

(** [__delete__] as the class of the slot resolves it. *)
Definition __delete__ (d : slot) (instance : val) : M unit :=
  if immutable (kind_of d) then Immutable__delete__ d instance
  else Descriptor__delete__ d instance.

End Descriptor.

(** ** schema.py, constraints.py: the classes and their slots *)

Import Descriptor.

Definition class_name (c : cls) : string :=
  match c with
  | CSchema => "Schema" | CTable => "Table" | CView => "View"
  | CIndex => "Index" | CTrigger => "Trigger" | CColumn => "Column"
  | CPrimaryKey => "PrimaryKey"
  | CCollection => "Collection" | CMixinCollection => "MixinCollection"
  | CTables => "Tables" | CIndexes => "Indexes" | CViews => "Views"
  | CTriggers => "Triggers" | CColumns => "Columns"
  | CSQLite => "SQLite"
  end.

(** Subclasses of [BaseItem], of [SchemaItem], of [DictMixin]. *)
Definition is_SchemaItem (c : cls) : bool :=
  match c with CTable | CView | CIndex | CTrigger => true | _ => false end.
Definition is_BaseItem (c : cls) : bool :=
  match c with CColumn => true | _ => is_SchemaItem c end.
Definition is_DictMixin (c : cls) : bool :=
  match c with CSQLite | CCollection => false | _ => true end.

(** The slots each class declares or inherits, under the attribute names
    that reach them. [Table] binds one [ImmutableVar] to [c] and to
    [columns]; [__set_name__] ran last for [columns]. *)
Definition BaseItem_slots : list (string * slot) :=
  [ ("name", mkSlot ImmutableStringVar "name" None);
    ("key", mkSlot ToggleStringVar "key" (Some "name"));
    ("parent", mkSlot ImmutableVar "parent" None) ].

Definition SchemaItem_slots : list (string * slot) :=
  BaseItem_slots ++
  [ ("schema", mkSlot ToggleVar "schema" (Some "parent"));
    ("engine", mkSlot SQLiteEngine "engine" (Some "schema")) ].

Definition class_slots (c : cls) : list (string * slot) :=
  match c with
  | CSchema =>
      [ ("name", mkSlot SchemaName "name" None);
        ("engine", mkSlot SQLiteEngine "engine" None);
        ("tables", mkSlot ImmutableVar "tables" None);
        ("indexes", mkSlot ImmutableVar "indexes" None);
        ("views", mkSlot ImmutableVar "views" None);
        ("triggers", mkSlot ImmutableVar "triggers" None) ]
  | CTable =>
      SchemaItem_slots ++
      [ ("row_id", mkSlot ImmutableBoolVar "row_id" None);
        ("c", mkSlot ImmutableVar "columns" None);
        ("columns", mkSlot ImmutableVar "columns" None) ]
  | CView | CIndex | CTrigger => SchemaItem_slots
  | CColumn =>
      BaseItem_slots ++
      [ ("type", mkSlot ImmutableStringVar "type" None);
        ("null", mkSlot ImmutableBoolVar "null" None);
        ("primary", mkSlot ImmutableVar "primary" None);
        ("unique", mkSlot ImmutableBoolVar "unique" None);
        ("index", mkSlot ImmutableBoolVar "index" None);
        ("table", mkSlot ImmutableVar "table" None) ]
  | CPrimaryKey =>
      [ ("name", mkSlot ImmutableStringVar "name" None);
        ("__type_name__", mkSlot ImmutableStringVar "__type_name__" None);
        ("on_conflict", mkSlot ImmutableStringVar "on_conflict" None);
        ("order", mkSlot ImmutableStringVar "order" None);
        ("autoincrement", mkSlot ImmutableBoolVar "autoincrement" None) ]
  | _ => []
  end.

Definition slot_of (c : cls) (name : string) : option slot :=
  dict_get String.eqb (class_slots c) name.

(** [instance.name = value] for a data attribute [name]: through the slot
    of the class when there is one; [Collection.__setattr__] refuses;
    any other instance takes the entry in its [__dict__]. *)
Definition setattr (instance : val) (name : string) (value : val) : M unit :=
  do x <- deref instance;
  match slot_of (class_of (snd x)) name with
  | Some d => __set__ d instance value
  | None =>
      if is_Collection (class_of (snd x))
      then raise (IllegalOperation (UnsupportedMethod "__setattr__"))
      else write_dict (fst x) (attr_set (dict (snd x)) name value)
  end.

(** ** collections.py: keyed collections *)

(** Attribute access ([getattr], [hasattr]) is defined inside the module:
    [Collection.__getattr__] makes it depend on [_get_by_key], and
    [_item_name] depends on it. *)

Module Collection.

Definition keys (f : pydict) : list val := map fst f.
Definition values (f : pydict) : list val := map snd f.

(** A method of [Collection] called on [self]: any other instance has no
    such attribute. *)
Definition self_collection (self : loc) : M object :=
  do o <- read self;
  if is_Collection (class_of o) then ret o else raise AttributeError.

(** [Collection._get_by_key]. The error carries the key; the text of its
    message is not built. (The text holds [str(key)], which for an
    instance of a class with [Mixin.__str__] is its JSON export: the
    statements about this error are for keys that are no instances.) *)
Definition _get_by_key (self : loc) (key : val) : M val :=
  do o <- self_collection self;
  do _ <- py_hash key;                      (* key not in self._fields *)
  match pydict_get (fields o) key with
  | None => raise (MissingKeyError key)
  | Some v => ret v
  end.

(** [xs[i]] on a Python list: a negative index counts from the end. *)
Definition list_getitem (xs : list val) (i : Z) : result val :=
  let n := Z.of_nat (length xs) in
  let j := if (i <? 0)%Z then (i + n)%Z else i in
  if ((j <? 0) || (n <=? j))%Z then Raise (IndexError ListIndexOutOfRange)
  else match xs !! Z.to_nat j with
       | Some v => Ok v
       | None => Raise (IndexError ListIndexOutOfRange)
       end.

(** [Collection._get_by_index] *)
Definition _get_by_index (self : loc) (key : Z) : M val :=
  do o <- self_collection self;
  if (key >=? Z.of_nat (length (fields o)))%Z
  then raise (IndexError (CollectionIndexOutOfRange key))
  else lift (list_getitem (values (fields o)) key).

(** [Collection._get_item]: [bool] is a subclass of [int]. *)
Definition _get_item (self : loc) (key : val) : M val :=
  match key with
  | VStr _ => _get_by_key self key
  | VInt z => _get_by_index self z
  | VBool b => _get_by_index self (Z.b2z b)
  | _ => do _ <- self_collection self; raise TypeError
  end.

(** [Collection.get] *)
Definition get (self : loc) (key default : val) : M val :=
  fun h => match _get_by_key self key h with
           | (h', Raise (MissingKeyError _)) => (h', Ok default)
           | r => r
           end.

(** [Collection.__len__], [__bool__] *)
Definition __len__ (self : loc) : M nat :=
  do o <- self_collection self; ret (length (fields o)).
Definition __bool__ (self : loc) : M bool :=
  do o <- self_collection self; ret (Nat.ltb 0 (length (fields o))).

(** [instance.name] for a data attribute [name] (one that names no method
    or property of the class): through the slot when there is one;
    [Collection.__getattr__] looks the name up as a key. *)
Definition getattr (instance : val) (name : string) : M val :=
  do x <- deref instance;
  match slot_of (class_of (snd x)) name with
  | Some d => __get__ d instance
  | None =>
      if is_Collection (class_of (snd x))
      then _get_by_key (fst x) (VStr name)
      else match attr_get (dict (snd x)) name with
           | Some v => ret v
           | None => raise AttributeError
           end
  end.

(** [hasattr(instance, name)]: only [AttributeError] means no, any
    other exception of the access comes out. *)
Definition hasattr (instance : val) (name : string) : M bool :=
  fun h => match getattr instance name h with
           | (h', Ok _) => (h', Ok true)
           | (h', Raise AttributeError) => (h', Ok false)
           | (h', Raise e) => (h', Raise e)
           end.

(** [Collection._item_name] *)
Definition _item_name (value : val) : M val :=
  do has_key <- hasattr value "key";
  if has_key then getattr value "key"
  else
    do has_name <- hasattr value "name";
    if has_name then getattr value "name" else ret value.

(** [other.values()]: a collection's or a dict's values. No other class
    has the method: reading the attribute raises, or gives an entry of
    the instance, which cannot be called. *)
Definition values_of (other : val) : M (list val) :=
  match other with
  | VDict d => ret (map snd d)
  | _ =>
      do x <- deref other;
      if is_Collection (class_of (snd x))
      then ret (values (fields (snd x)))
      else do _ <- getattr other "values"; raise TypeError
  end.

(** [Collection.__eq__] *)
Definition __eq__ (self : loc) (other : val) : M bool :=
  do o <- self_collection self;
  do right <- values_of other;
  ret (forallb (fun p => py_is (fst p) (snd p))
         (zip_longest (values (fields o)) right)).

(** The collection instance a value is, if it is one. *)
Definition collection_at (h : heap) (v : val) : option loc :=
  match v with
  | VObj l =>
      match h !! l with
      | Some o => if is_Collection (class_of o) then Some l else None
      | None => None
      end
  | _ => None
  end.

(** [a == b] where [a] and [b] are not two lists, two tuples or two
    dicts. With a collection on the left, its [__eq__] runs on [b]. With
    a collection on the right only, the comparison of the left operand
    answers [NotImplemented] and the reflected [__eq__] of the collection
    runs on [a]. (Between two collections of different classes the one
    that runs may be the right one's: it walks the same pairs.) Without a
    collection the comparison is [py_eq]. *)
Definition equal_flat (h : heap) (a b : val) : result bool :=
  match collection_at h a, collection_at h b with
  | Some self, _ => snd (__eq__ self b h)
  | None, Some self => snd (__eq__ self a h)
  | None, None => Ok (py_eq a b)
  end.

(** [a == b] in the heap [h]. Two lists of different lengths are unequal
    before any item is compared; two tuples are compared item by item as
    far as both go. Items, and the values of two dicts of the same
    length, are compared by [x is y or x == y], from the left, up to the
    first pair that differs or whose comparison raises. *)
Fixpoint equal_in (h : heap) (a b : val) {struct a} : result bool :=
  match a, b with
  | VSeq k xs, VSeq k' ys =>
      if seq_kind_eqb k k' &&
         (match k with
          | KList => Nat.eqb (length xs) (length ys)
          | KTuple => true
          end)
      then
        (fix all2 (xs ys : list val) : result bool :=
           match xs, ys with
           | [], [] => Ok true
           | x :: xs', y :: ys' =>
               if py_is x y then all2 xs' ys'
               else
                 match equal_in h x y with
                 | Ok true => all2 xs' ys'
                 | r => r
                 end
           | _, _ => Ok false
           end) xs ys
      else Ok false
  | VDict d, VDict d' =>
      if Nat.eqb (length d) (length d')
      then
        (fix each (d : list (val * val)) : result bool :=
           match d with
           | [] => Ok true
           | (k, v) :: r =>
               match pydict_get d' k with
               | None => Ok false
               | Some v' =>
                   if py_is v v' then each r
                   else
                     match equal_in h v v' with
                     | Ok true => each r
                     | r' => r'
                     end
               end
           end) d
      else Ok false
  | _, _ => equal_flat h a b
  end.

(** [a == b] *)
Definition equal (a b : val) : M bool := fun h => (h, equal_in h a b).

(** [x in xs] for a list or a dict's values view:
    [any(x is e or x == e for e in xs)]. *)
Fixpoint contains (x : val) (xs : list val) : M bool :=
  match xs with
  | [] => ret false
  | e :: rest =>
      if py_is x e then ret true
      else
        do same <- equal x e;
        if same then ret true else contains x rest
  end.


(** [Collection._check_key]: [f] is [self._fields]. The error carries the
    key; the text of its message, which holds [str(value)], is not
    built. *)
Definition _check_key (f : pydict) (value : val) : M val :=
  do _ <- py_hash value;                    (* value in self._fields *)
  if pydict_mem f value then raise (DuplicateKeyError value) else ret value.

(** [Collection._check_value]. The error carries the rejected item; its
    message names the item through [_item_name], which runs first, so
    that an error of [_item_name] is the one that comes out. The text
    of the message, which holds [str] of that name, is not built. *)
Definition _check_value (f : pydict) (value : val) : M val :=
  do found <- contains value (values f);
  if found then
    do _ <- _item_name value;
    raise (DuplicateItemError value)
  else ret value.

(** [Collection._check_item]: the one-entry dict [{key: value}], the key
    checked before the value. *)
Definition _check_item (f : pydict) (key value : val) : M (val * val) :=
  do k <- _check_key f key;
  do v <- _check_value f value;
  ret (k, v).

(** [self._fields.update(self._check_item(key, value))] *)
Definition _update_field (self : loc) (key value : val) : M unit :=
  do o <- self_collection self;
  do item <- _check_item (fields o) key value;
  write_fields self (pydict_set (fields o) (fst item) (snd item)).

(** [MixinCollection.insert] *)
Definition MixinCollection_insert (self : loc) (key value : val) : M unit :=
  _update_field self key value.

(** [insert] as dispatched on the class of [self]: closed on the base
    type, reopened by [MixinCollection] ([Tables.insert] and
    [Columns.insert] only call it). *)
Definition insert (self : loc) (key value : val) : M unit :=
  do o <- self_collection self;
  if is_MixinCollection (class_of o)
  then MixinCollection_insert self key value
  else raise (IllegalOperation (UnsupportedMethod "insert")).

Definition update (self : loc) : M unit :=
  do _ <- self_collection self; raise (IllegalOperation (UnsupportedMethod "update")).
Definition clear (self : loc) : M unit :=
  do _ <- self_collection self; raise (IllegalOperation (UnsupportedMethod "clear")).
Definition remove (self : loc) : M unit :=
  do _ <- self_collection self; raise (IllegalOperation (UnsupportedMethod "remove")).

(** [Collection._update_fields] *)
Fixpoint _update_fields (self : loc) (mapping : list (val * val)) : M unit :=
  match mapping with
  | [] => ret tt
  | (key, value) :: rest =>
      do _ <- _update_field self key value;
      _update_fields self rest
  end.

(** [Collection._update_collection]: [mapping] is the list of pairs (or
    the items of the dict) passed first, [kwargs] the keyword pairs. *)
Definition _update_collection (self : loc) (mapping : list (val * val))
    (kwargs : attrs) : M unit :=
  do _ <- _update_fields self mapping;
  match kwargs with
  | [] => ret tt
  | _ => _update_fields self (map (fun kv => (VStr (fst kv), snd kv)) kwargs)
  end.

(** [Collection.__init__], after the allocation of the instance. *)
Definition Collection_new (c : cls) (mapping : list (val * val))
    (kwargs : attrs) : M loc :=
  do self <- new c;
  do _ <- _update_collection self mapping kwargs;
  ret self.

End Collection.

Abbreviation getattr := Collection.getattr.
Abbreviation values_of := Collection.values_of.
Abbreviation Collection__eq__ := Collection.__eq__.

(** ** schema.py, constraints.py: building the graph *)

(** [hasattr(arg, "__type_name__")] and its value: the property of
    [Model] and of [Collection] gives the lowered class name; a
    constraint reads its own slot; nothing else has the attribute. *)
Definition __type_name__ (h : heap) (arg : val) : option val :=
  match arg with
  | VObj l =>
      match h !! l with
      | Some o =>
          match class_of o with
          | CSQLite => None
          | CPrimaryKey => Some (attr_get_default (dict o) "__type_name__")
          | c => Some (VStr (lower (class_name c)))
          end
      | None => None
      end
  | _ => None
  end.

(** [str.islower]: some cased character, and none of them upper case. *)
Definition islower (s : string) : bool :=
  String.eqb (lower s) s && negb (String.eqb (upper s) s).

(** [xs.index(x)]: the first position whose item is [x] or equals it;
    the items before it are compared with [x] on the way. *)
Fixpoint list_index (xs : list val) (x : val) : M nat :=
  match xs with
  | [] => raise ValueErrorNotInList
  | e :: r =>
      if py_is e x then ret 0
      else
        do same <- Collection.equal e x;
        if same then ret 0
        else do i <- list_index r x; ret (S i)
  end.

(** [xs.pop(idx)] for [idx] in range: the list left. *)
Fixpoint list_pop (xs : list val) (idx : nat) : list val :=
  match xs, idx with
  | [], _ => []
  | _ :: r, 0 => r
  | e :: r, S i => e :: list_pop r i
  end.

(** [Model._filter_items] is a generator: the caller's loop body
    [consume] runs on each item as it is yielded, between two steps of
    the scan. The lists left in [args] and [kwargs] are returned with
    what the loop collected. *)
Section FilterItems.
Context {A : Type} (consume : val -> M A).

Definition matches (h : heap) (target : string) (arg : val) : bool :=
  match __type_name__ h arg with
  | Some t => py_eq t (VStr target)
  | None => false
  end.

(** [for arg in args.copy(): ...] *)
Fixpoint filter_args (target : string) (copy args : list val)
    : M (list A * list val) :=
  match copy with
  | [] => ret ([], args)
  | arg :: rest =>
      do h <- get_heap;
      if matches h target arg then
        do idx <- list_index args arg;
        match args !! idx with
        | None => raise (IndexError ListIndexOutOfRange)
        | Some item =>
            do y <- consume item;
            do r <- filter_args target rest (list_pop args idx);
            ret (y :: fst r, snd r)
        end
      else filter_args target rest args
  end.

(** [for key, value in kwargs.copy().items(): ...] *)
Fixpoint filter_kwargs (target : string) (copy kwargs : attrs)
    : M (list A * attrs) :=
  match copy with
  | [] => ret ([], kwargs)
  | (key, value) :: rest =>
      do h <- get_heap;
      if matches h target value then
        match attr_get kwargs key with
        | None => raise (KeyError key)
        | Some item =>
            do _ <- setattr item "key" (VStr key);
            do y <- consume item;
            do r <- filter_kwargs target rest (attr_pop kwargs key);
            ret (y :: fst r, snd r)
        end
      else filter_kwargs target rest kwargs
  end.

Definition _filter_items (target : string) (args : list val) (kwargs : attrs)
    : M (list A * list val * attrs) :=
  let target := if negb (islower target) then lower target else target in
  do a <- filter_args target args args;
  do k <- filter_kwargs target kwargs kwargs;
  ret (fst a ++ fst k, snd a, snd k).
End FilterItems.

(** [Model._set_child] *)
Definition Model_set_child (self : loc) (model : val) : M unit :=
  setattr model "parent" (VObj self).

Definition is_str (v : val) : bool :=
  match v with VStr _ => true | _ => false end.

(** [Model._check_params]: the message joins the leftover parameters,
    and [str.join] takes strings only. The error carries the parameters
    it names. *)
Definition _check_params (self : loc) (args : list val) (kwargs : attrs) : M unit :=
  let params := args ++ map (fun kv => VStr (fst kv)) kwargs in
  if Nat.ltb 0 (length params) then
    if forallb is_str params then raise (ArgumentError params)
    else raise TypeError
  else ret tt.

(** [BaseSchema._set_child] *)
Definition BaseSchema_set_child (self : loc) (model : val) : M unit :=
  do _ <- setattr model "schema" (VObj self);
  Model_set_child self model.

(** A method of [BaseSchema] called on [schema]. *)
Definition self_schema (schema : val) : M loc :=
  do x <- deref schema;
  match class_of (snd x) with
  | CSchema => ret (fst x)
  | _ => raise AttributeError
  end.

(** [self.<collection>.insert(model.key, model)] *)
Definition register (self : loc) (collection : string) (model : val) : M unit :=
  do c <- getattr (VObj self) collection;
  do x <- deref c;
  do _ <- Collection.self_collection (fst x);
  do key <- getattr model "key";
  Collection.insert (fst x) key model.

(** [BaseSchema.add_table], [add_index], [add_view], [add_trigger] *)
Definition add_to (collection : string) (schema model : val) : M unit :=
  do self <- self_schema schema;
  do _ <- BaseSchema_set_child self model;
  register self collection model.

Definition add_table := add_to "tables".
Definition add_index := add_to "indexes".
Definition add_view := add_to "views".
Definition add_trigger := add_to "triggers".

(** [kwargs.pop(name, default)] *)
Definition kwargs_pop (kwargs : attrs) (name : string) (default : val) : val * attrs :=
  match attr_get kwargs name with
  | Some v => (v, attr_pop kwargs name)
  | None => (default, kwargs)
  end.

(** [if "engine" in kwargs: self.engine = kwargs.pop("engine")] *)
Definition set_engine (self : loc) (kwargs : attrs) : M attrs :=
  if attr_mem kwargs "engine" then
    let p := kwargs_pop kwargs "engine" VNone in
    do _ <- setattr (VObj self) "engine" (fst p);
    ret (snd p)
  else ret kwargs.

(** [Schema.__init__] *)
Definition Schema__init__ (self : loc) (name : val) (args : list val)
    (kwargs : attrs) : M unit :=
  do _ <- setattr (VObj self) "name" name;
  do tables <- Collection.Collection_new CTables [] [];
  do _ <- setattr (VObj self) "tables" (VObj tables);
  do indexes <- Collection.Collection_new CIndexes [] [];
  do _ <- setattr (VObj self) "indexes" (VObj indexes);
  do views <- Collection.Collection_new CViews [] [];
  do _ <- setattr (VObj self) "views" (VObj views);
  do triggers <- Collection.Collection_new CTriggers [] [];
  do _ <- setattr (VObj self) "triggers" (VObj triggers);
  do kwargs <- set_engine self kwargs;
  _check_params self args kwargs.

(** [Schema(name, *args, **kwargs)] *)
Definition Schema (name : val) (args : list val) (kwargs : attrs) : M loc :=
  do self <- new CSchema;
  do _ <- Schema__init__ self name args kwargs;
  ret self.

(** [Table._set_child] *)
Definition Table_set_child (self : loc) (model : val) : M unit :=
  do _ <- setattr model "table" (VObj self);
  Model_set_child self model.

(** [Table._filter_columns] *)
Definition _filter_columns (self : loc) (args : list val) (kwargs : attrs)
    : M (list (val * val) * list val * attrs) :=
  _filter_items
    (fun column =>
       do _ <- Table_set_child self column;
       do key <- getattr column "key";
       ret (key, column))
    "column" args kwargs.

(** [Table._rezolve_columns] *)
Definition _rezolve_columns (self : loc) (args : list val) (kwargs : attrs)
    : M (loc * list val * attrs) :=
  do r <- _filter_columns self args kwargs;
  do columns <- Collection.Collection_new CColumns (fst (fst r)) [];
  ret (columns, snd (fst r), snd r).

(** [Table.__init__] *)
Definition Table__init__ (self : loc) (name schema : val) (args : list val)
    (kwargs : attrs) : M unit :=
  do _ <- setattr (VObj self) "name" name;
  do _ <- add_table schema (VObj self);
  do r <- _rezolve_columns self args kwargs;
  do _ <- setattr (VObj self) "columns" (VObj (fst (fst r)));
  let args := snd (fst r) in
  let p := kwargs_pop (snd r) "row_id" (VBool true) in
  do _ <- setattr (VObj self) "row_id" (fst p);
  do kwargs <- set_engine self (snd p);
  _check_params self args kwargs.

(** [Table(name, schema, *args, **kwargs)] *)
Definition Table (name schema : val) (args : list val) (kwargs : attrs) : M loc :=
  do self <- new CTable;
  do _ <- Table__init__ self name schema args kwargs;
  ret self.

(** [Table.add_column] *)
Definition add_column (table model : val) : M unit :=
  do x <- deref table;
  match class_of (snd x) with
  | CTable =>
      do _ <- Table_set_child (fst x) model;
      register (fst x) "columns" model
  | _ => raise AttributeError
  end.

(** [View()], [Index()], [Trigger()]: no [__init__] of their own. *)
Definition View : M loc := new CView.
Definition Index : M loc := new CIndex.
Definition Trigger : M loc := new CTrigger.

(** [Column.__init__] *)
Definition Column__init__ (self : loc) (name type : val) (args : list val)
    (kwargs : attrs) : M unit :=
  do _ <- setattr (VObj self) "name" name;
  do _ <- setattr (VObj self) "type" type;
  let p := kwargs_pop kwargs "null" (VBool true) in
  do _ <- setattr (VObj self) "null" (fst p);
  let p := kwargs_pop (snd p) "primary" (VBool false) in
  do _ <- setattr (VObj self) "primary" (fst p);
  let p := kwargs_pop (snd p) "unique" (VBool false) in
  do _ <- setattr (VObj self) "unique" (fst p);
  let p := kwargs_pop (snd p) "index" (VBool false) in
  do _ <- setattr (VObj self) "index" (fst p);
  _check_params self args (snd p).

(** [Column(name, type, *args, **kwargs)]; [type] defaults to ["TEXT"]. *)
Definition Column (name type : val) (args : list val) (kwargs : attrs) : M loc :=
  do self <- new CColumn;
  do _ <- Column__init__ self name type args kwargs;
  ret self.

(** [OnConflict._check_resolution] *)
Definition _check_resolution (value : val) : result val :=
  match value with
  | VStr s =>
      let algorithm := upper s in
      if str_in algorithm ON_CONFLICT then Ok (VStr algorithm)
      else Raise (ConstraintError ON_CONFLICT s)
  | _ => Raise AttributeError
  end.

(** [PrimaryKey.__init__] *)
Definition PrimaryKey__init__ (self : loc) (name : val) (kwargs : attrs) : M unit :=
  do _ <- setattr (VObj self) "name" name;
  let p := kwargs_pop kwargs "order" (VStr "ASC") in
  do _ <- setattr (VObj self) "order" (fst p);
  let p := kwargs_pop (snd p) "on_conflict" (VStr "ABORT") in
  do algorithm <- lift (_check_resolution (fst p));
  do _ <- setattr (VObj self) "on_conflict" algorithm;
  let p := kwargs_pop (snd p) "autoincrement" (VBool false) in
  setattr (VObj self) "autoincrement" (fst p).

(** [PrimaryKey(name, **kwargs)] *)
Definition PrimaryKey (name : val) (kwargs : attrs) : M loc :=
  do self <- new CPrimaryKey;
  do _ <- PrimaryKey__init__ self name kwargs;
  ret self.

(** ** mixins.py: export to a generic mapping *)

(** The recursion of [as_dict], [_traverse_dict] and [_traverse] follows
    references through the heap, so it is bounded by [fuel]: [None] when
    the bound is hit, the outcome of the call otherwise. Each call of
    [_traverse] takes one unit. *)

Fixpoint traverse_entries (f : val -> val -> option (result val)) (d : pydict)
    : option (result pydict) :=
  match d with
  | [] => Some (Ok [])
  | (k, v) :: r =>
      match f k v with
      | None => None
      | Some (Raise e) => Some (Raise e)
      | Some (Ok v') =>
          match traverse_entries f r with
          | None => None
          | Some (Raise e) => Some (Raise e)
          | Some (Ok r') => Some (Ok ((k, v') :: r'))
          end
      end
  end.

Fixpoint traverse_items (f : val -> option (result val)) (items : list val)
    : option (result (list val)) :=
  match items with
  | [] => Some (Ok [])
  | v :: r =>
      match f v with
      | None => None
      | Some (Raise e) => Some (Raise e)
      | Some (Ok v') =>
          match traverse_items f r with
          | None => None
          | Some (Raise e) => Some (Raise e)
          | Some (Ok r') => Some (Ok (v' :: r'))
          end
      end
  end.

Definition as_VDict (r : option (result pydict)) : option (result val) :=
  match r with
  | None => None
  | Some (Raise e) => Some (Raise e)
  | Some (Ok d) => Some (Ok (VDict d))
  end.

(** The mapping [as_dict] walks: [self._fields] for a [MixinCollection],
    [self.__dict__] for the other classes. *)
Definition exported (o : object) : pydict :=
  if is_MixinCollection (class_of o) then fields o
  else map (fun kv => (VStr (fst kv), snd kv)) (dict o).

Fixpoint _traverse (fuel : nat) (h : heap) (self : loc) (key value : val)
    {struct fuel} : option (result val) :=
  match fuel with
  | 0 => None
  | S fuel =>
      (* self'._traverse_dict(attributes) *)
      let _traverse_dict (self' : loc) (attributes : pydict) :=
        as_VDict (traverse_entries (_traverse fuel h self') attributes) in
      (* DictMixin._traverse(self, key, value) *)
      let DictMixin_traverse (value : val) :=
        match value with
        | VObj l =>
            match h !! l with
            | Some o =>
                if is_DictMixin (class_of o)
                then _traverse_dict l (exported o)      (* value.as_dict() *)
                else Some (Ok value)
            | None => Some (Ok value)
            end
        | VDict d => _traverse_dict self d
        | VSeq k items =>
            match traverse_items (_traverse fuel h self key) items with
            | None => None
            | Some (Raise e) => Some (Raise e)
            | Some (Ok items') => Some (Ok (VSeq k items'))
            end
        | _ => Some (Ok value)
        end in
      match h !! self with
      | None => Some (Raise AttributeError)
      | Some o =>
          if is_BaseItem (class_of o) then
            (* BaseItem._traverse *)
            match snd (getattr (VObj self) "parent" h) with
            | Raise e => Some (Raise e)
            | Ok parent =>
                if py_is value parent then
                  match snd (getattr value "name" h) with
                  | Raise e => Some (Raise e)
                  | Ok name => DictMixin_traverse name
                  end
                else DictMixin_traverse value
            end
          else DictMixin_traverse value
      end
  end.

(** [self._traverse_dict(attributes)] *)
Definition _traverse_dict (fuel : nat) (h : heap) (self : loc)
    (attributes : pydict) : option (result val) :=
  as_VDict (traverse_entries (_traverse fuel h self) attributes).

(** [self.as_dict()] for an instance of a [DictMixin] class. *)
Definition as_dict (fuel : nat) (h : heap) (self : loc) : option (result val) :=
  match h !! self with
  | Some o =>
      if is_DictMixin (class_of o) then _traverse_dict fuel h self (exported o)
      else Some (Raise AttributeError)
  | None => Some (Raise AttributeError)
  end.

(** [result[key]] on an exported mapping. *)
Definition item (result : val) (key : string) : option val :=
  match result with
  | VDict d => pydict_get d (VStr key)
  | _ => None
  end.

(** ** The export, as the specification words it *)

(** [value is self.parent], the test of [BaseItem._traverse]: [self] is
    an item and [v] is what its [parent] slot reads. *)
Definition own_parent (h : heap) (self : loc) (v : val) : bool :=
  match h !! self with
  | Some o => is_BaseItem (class_of o) && py_is v (attr_get_default (dict o) "parent")
  | None => false
  end.

(** What a value held by the entity [self] is exported as: a reference
    to the parent of [self] as the name of the parent, and it is not
    entered; any other instance of an exporting class as the mapping of
    its own entries, each seen from that instance; a list, a tuple or a
    dict item by item; anything else as it is. *)
Inductive exports (h : heap) : loc -> val -> val -> Prop :=
| exports_parent self v n :
    own_parent h self v = true ->
    getattr v "name" h = (h, Ok (VStr n)) ->
    exports h self v (VStr n)
| exports_scalar self v :
    own_parent h self v = false ->
    scalar v = true ->
    exports h self v v
| exports_opaque self l :
    own_parent h self (VObj l) = false ->
    match h !! l with
    | Some o => is_DictMixin (class_of o) = false
    | None => True
    end ->
    exports h self (VObj l) (VObj l)
| exports_instance self l o d :
    own_parent h self (VObj l) = false ->
    h !! l = Some o ->
    is_DictMixin (class_of o) = true ->
    exports_entries h l (exported o) d ->
    exports h self (VObj l) (VDict d)
| exports_seq self k items items' :
    exports_items h self items items' ->
    exports h self (VSeq k items) (VSeq k items')
| exports_dict self d d' :
    exports_entries h self d d' ->
    exports h self (VDict d) (VDict d')
with exports_items (h : heap) : loc -> list val -> list val -> Prop :=
| exports_items_nil self : exports_items h self [] []
| exports_items_cons self v v' r r' :
    exports h self v v' ->
    exports_items h self r r' ->
    exports_items h self (v :: r) (v' :: r')
with exports_entries (h : heap) : loc -> pydict -> pydict -> Prop :=
| exports_entries_nil self : exports_entries h self [] []
| exports_entries_cons self k v v' r r' :
    exports h self v v' ->
    exports_entries h self r r' ->
    exports_entries h self ((k, v) :: r) ((k, v') :: r').

(** [v.name] is a string. *)
Definition named (h : heap) (v : val) : bool :=
  match snd (getattr v "name" h) with
  | Ok (VStr _) => true
  | _ => false
  end.

(** A rank on the instances tells how deep the export goes below each:
    [fits h rank self v n] says that the value [v], held by [self], is
    exported within [n] nested calls. A reference to the parent of
    [self] takes one, if the parent has a name; an instance of an
    exporting class must have a positive rank below [n]; a container
    takes one call more than its items. *)
Fixpoint fits (h : heap) (rank : loc -> nat) (self : loc) (v : val) (n : nat)
    {struct v} : bool :=
  if own_parent h self v then Nat.ltb 0 n && named h v
  else
    match v with
    | VObj l =>
        match h !! l with
        | Some o =>
            if is_DictMixin (class_of o)
            then Nat.ltb 0 (rank l) && Nat.ltb (rank l) n
            else Nat.ltb 0 n
        | None => Nat.ltb 0 n
        end
    | VSeq _ items =>
        Nat.ltb 0 n && forallb (fun x => fits h rank self x (n - 1)) items
    | VDict d =>
        Nat.ltb 0 n && forallb (fun kv => fits h rank self (snd kv) (n - 1)) d
    | _ => Nat.ltb 0 n
    end.

(** Every ranked instance of an exporting class exports its entries
    within its rank: below a ranked instance the references lead to
    instances of lower rank, but for those from an item to its parent.
    Instances of rank 0 are not looked at. *)
Definition tidy (h : heap) (rank : loc -> nat) : bool :=
  forallb
    (fun l =>
       match h !! l with
       | Some o =>
           Nat.eqb (rank l) 0 || negb (is_DictMixin (class_of o))
           || forallb (fun kv => fits h rank l (snd kv) (rank l)) (exported o)
       | None => true
       end)
    (seq 0 (length h)).

(** [walked h n self v]: the specification gives the value [v], held by
    [self], an export, and every run of [_traverse] allowed [n] nested
    calls or more returns it. *)
Definition walked (h : heap) (n : nat) (self : loc) (v : val) : Prop :=
  exists v',
    exports h self v v' /\
    forall fuel key, n <= fuel -> _traverse fuel h self key v = Some (Ok v').

(** ** engines.py, utils.py: the connection manager *)

Module Engine.

(** What the connection manager needs from the operating system and from
    [sqlite3], and does not define itself. *)
Inductive made :=
| Made              (* os.makedirs returns *)
| FileExists        (* it raises FileExistsError *)
| Refused.          (* it raises another OSError *)

Record os := mkOs {
  realpath : string -> string;           (* os.path.realpath *)
  dirname : string -> string;            (* os.path.dirname *)
  path_exists : string -> bool;          (* os.path.exists *)
  makedirs : string -> made;             (* os.makedirs *)
  make_dataclass : list string -> bool;  (* the field names are accepted *)
  connect : string -> bool               (* sqlite3.connect succeeds *)
}.

(** The calls that leave the process, in the order they are made. *)
Inductive event :=
| LockAcquire
| LockRelease
| LogDebug (text : string)
| LogError (text : string)
| Exists (path : string)
| MakeDirs (path : string)
| Connect (database : string).

Inductive error := ValueError | TypeError | SqliteError | OSError.

Definition cat (parts : list string) : string := String.concat "" parts.

(** [str.split(sep)] for a one-character separator. *)
Fixpoint split (sep : ascii) (s : string) : list string :=
  match s with
  | EmptyString => [EmptyString]
  | String c r =>
      if Ascii.eqb c sep then EmptyString :: split sep r
      else match split sep r with
           | p :: ps => String c p :: ps
           | [] => [String c EmptyString]
           end
  end.

(** [str.startswith] *)
Definition startswith (prefix s : string) : bool := String.prefix prefix s.

(** [del_prefix] *)
Definition del_prefix (target prefix : string) : string :=
  if Nat.ltb 0 (String.length prefix) && startswith prefix target
  then String.substring (String.length prefix)
         (String.length target - String.length prefix) target
  else target.

(** [dict(tuple(param.split("=")) for param in params.split("&"))]: the
    keys, when every parameter splits in two. *)
Fixpoint param_keys (params : list string) : option (list string) :=
  match params with
  | [] => Some []
  | param :: rest =>
      match split "=" param with
      | [k; _] => option_map (cons k) (param_keys rest)
      | _ => None
      end
  end.

(** [parse_uri(value).file] *)
Definition parse_uri_file (env : os) (value : string) : error + string :=
  match split "?" value with
  | [file; params] =>
      match param_keys (split "&" params) with
      | None => inl ValueError
      | Some ks =>
          if make_dataclass env ("file" :: ks)
          then inr (del_prefix file "file:")
          else inl TypeError
      end
  | _ => inl ValueError
  end.

(** [Engine._get_file_path] *)
Definition _get_file_path (env : os) (database : string) (uri : bool)
    : error + string :=
  if uri && startswith "file:" database then
    match parse_uri_file env database with
    | inr file => inr (realpath env file)
    | inl e => inl e
    end
  else inr (realpath env database).

(** The attributes of an [SQLite] instance that the path handling reads
    (the timeout, isolation level and the other [sqlite3.connect]
    options are passed through unchanged). *)
Record SQLite := mkSQLite {
  _database : string;
  _uri : bool;
  _ensure_folder : bool;
  _file_path : string
}.

(** [make_dirs]: [FileExistsError] is swallowed, any other error of
    [os.makedirs] is not. *)
Definition make_dirs (env : os) (path : string) : list event * (error + unit) :=
  ([MakeDirs path],
   match makedirs env path with
   | Made | FileExists => inr tt
   | Refused => inl OSError
   end).

(** [ensure_folder] *)
Definition ensure_folder (env : os) (path : string) : list event * (error + unit) :=
  let path := dirname env (realpath env path) in
  if negb (path_exists env path)
  then (Exists path :: fst (make_dirs env path), snd (make_dirs env path))
  else ([Exists path], inr tt).

(** [SQLite._check_path] *)
Definition _check_path (env : os) (self : SQLite) (file_path : string)
    : list event * (error + unit) :=
  if _ensure_folder self && negb (String.eqb file_path ":memory:")
  then ensure_folder env file_path
  else ([], inr tt).

(** [SQLite.acquire]: the events, and whether a connection is returned.
    [_check_path] runs after the lock is taken and before the [try]
    whose [finally] releases it: an error there leaves with the lock
    held. [sqlite3.Error] is logged and raised again. *)
Definition acquire (env : os) (self : SQLite) : list event * (error + unit) :=
  let start :=
    [LockAcquire;
     LogDebug (cat ["Connecting with the SQLite database '"; _file_path self; "'..."])]
    ++ fst (_check_path env self (_file_path self)) in
  match snd (_check_path env self (_file_path self)) with
  | inl e => (start, inl e)
  | inr _ =>
      let before := start ++ [Connect (_database self)] in
      if connect env (_database self) then
        (before ++
         [LogDebug (cat ["Successfully connected with the SQLite database '";
                         _file_path self; "'."]);
          LockRelease], inr tt)
      else
        (before ++
         [LogError (cat ["Failed to connect with the SQLite database '";
                         _file_path self; "'!"]);
          LockRelease], inl SqliteError)
  end.

(** [SQLite.__init__] with [Engine.__init__]: the attributes are set, the
    file path resolved, and a first connection acquired. *)
Definition __init__ (env : os) (database : string) (uri ensure_folder : bool)
    : list event * (error + SQLite) :=
  match _get_file_path env database uri with
  | inl e => ([], inl e)
  | inr file_path =>
      let self := mkSQLite database uri ensure_folder file_path in
      match acquire env self with
      | (evs, inr _) => (evs, inr self)
      | (evs, inl e) => (evs, inl e)
      end
  end.

(** A POSIX [realpath] in a working directory [cwd] without symbolic
    links, for paths already in normal form. *)
Definition posix_realpath (cwd path : string) : string :=
  if startswith "/" path then path else cat [cwd; "/"; path].

(** [os.path.dirname] on POSIX: the text before the last slash. *)
Fixpoint posix_dirname_aux (path : string) : option string :=
  match path with
  | EmptyString => None
  | String c r =>
      match posix_dirname_aux r with
      | Some d => Some (String c d)
      | None => if Ascii.eqb c "/" then Some EmptyString else None
      end
  end.

Definition posix_dirname (path : string) : string :=
  match posix_dirname_aux path with
  | Some EmptyString => if startswith "/" path then "/" else EmptyString
  | Some d => d
  | None => EmptyString
  end.

End Engine.

(** ** Helpers for the statements *)

(** The classes whose [__get__] is [Toggle.__get__] with
    [Toggle._get_value]. *)
Definition toggle_kind (k : kind) : bool :=
  match k with Toggle | ToggleVar | ToggleStringVar => true | _ => false end.

(** The fallback name a slot resolves through, if any. *)
Definition fallback_of (d : slot) : option string :=
  match kind_of d with
  | Toggle | ToggleVar | ToggleStringVar | SQLiteEngine => _fallback d
  | _ => None
  end.

(** An engine slot given a fallback name: [SQLiteEngine.__set__] then
    writes into another object. *)
Definition engine_redirect (d : slot) : bool :=
  match kind_of d, _fallback d with
  | SQLiteEngine, Some _ => true
  | _, _ => false
  end.

(** The value [__set__] goes on with: [AnyVar.__set__] checks it, the
    classes below [AnyVar] take it as it is. *)
Definition validate (d : slot) (h : heap) (value : val) : result val :=
  match kind_of d with
  | Descriptor | Immutable | Toggle => Ok value
  | _ => snd (_check_value d value h)
  end.

(** The resolution as the specification words it: "reading the same
    attribute name from the object referenced by fallback-name". *)
Definition read_from_fallback (instance : val) (attribute fallback : string)
    : M val :=
  do x <- __dict__ instance;
  getattr (attr_get_default (snd x) fallback) attribute.

(** [reads m]: running [m] leaves the heap as it found it. *)
Definition reads {A} (m : M A) : Prop :=
  forall h h' r, m h = (h', r) -> h' = h.

(** A scalar, or an instance in [h] of a class that is no collection. *)
Definition plain (h : heap) (v : val) : bool :=
  match v with
  | VObj l =>
      match h !! l with
      | Some o => negb (is_Collection (class_of o))
      | None => false
      end
  | _ => scalar v
  end.

(** Pairs of a scalar key and a plain value. *)
Definition plain_items (h : heap) (items : list (val * val)) : bool :=
  forallb (fun kv => scalar (fst kv) && plain h (snd kv)) items.

(** Neither a list, tuple or dict, nor a collection instance of [h]. *)
Definition flat (h : heap) (v : val) : bool :=
  match v with
  | VSeq _ _ | VDict _ => false
  | _ => match Collection.collection_at h v with Some _ => false | None => true end
  end.

(** Keys that can be hashed, under flat values: there the checks of
    [_check_item] come down to [pydict_mem] and [py_in]. *)
Definition comparable (h : heap) (items : list (val * val)) : Prop :=
  Forall (fun kv => hashable h (fst kv) = true /\
                    flat h (snd kv) = true) items.

(** [keeps P m]: running [m] from a heap satisfying [P] ends, normally or
    not, in a heap satisfying [P]. *)
Definition keeps {A} (P : heap -> Prop) (m : M A) : Prop :=
  forall h h' r, P h -> m h = (h', r) -> P h'.

(** [raises m]: [m] never returns normally. *)
Definition raises {A} (m : M A) : Prop :=
  forall h, exists h' e, m h = (h', Raise e).

(** The heap while [Schema.__init__] runs on a schema allocated at the
    end of [h0]: [h0] itself, then the schema, then what the constructor
    allocated, none of it holding a field. *)
Definition constructing (h0 : heap) (h : heap) : Prop :=
  exists o rest,
    h = h0 ++ o :: rest /\ class_of o = CSchema /\ fields o = [] /\
    Forall (fun o => fields o = []) rest.

(** ** Sample object graphs *)

(** [s = Schema("main")], then
    [t = Table(name, s, Column("a"), b=Column("bee"))]. *)
Definition scenario (name : string) : M (loc * loc) :=
  do s <- Schema (VStr "main") [] [];
  do a <- Column (VStr "a") (VStr "TEXT") [] [];
  do b <- Column (VStr "bee") (VStr "TEXT") [] [];
  do t <- Table (VStr name) (VObj s) [VObj a] [("b", VObj b)];
  ret (s, t).

(** The heap [scenario "table_1"] builds from nothing: the schema is 0,
    its [Tables] 1, the columns 5 and 6, the table 7, its [Columns] 8. *)
Definition built : heap := Eval vm_compute in fst (scenario "table_1" []).

(** A rank for [built]: the columns, their collection, the table, the
    [Tables] collection, the schema. *)
Definition built_rank (l : loc) : nat := nth l [5; 4; 1; 1; 1; 1; 1; 3; 2] 0.

(** A schema (0) with its four collections (1-4), two tables (5, 6)
    registered in it, and two [SQLite] engines (7, 8); no engine is set. *)
Definition sample_schema : heap :=
  [ mkObject CSchema
      [("name", VStr "main"); ("tables", VObj 1); ("indexes", VObj 2);
       ("views", VObj 3); ("triggers", VObj 4)] [];
    mkObject CTables [] [(VStr "t", VObj 5); (VStr "u", VObj 6)];
    mkObject CIndexes [] [];
    mkObject CViews [] [];
    mkObject CTriggers [] [];
    mkObject CTable
      [("name", VStr "t"); ("schema", VObj 0); ("parent", VObj 0)] [];
    mkObject CTable
      [("name", VStr "u"); ("schema", VObj 0); ("parent", VObj 0)] [];
    mkObject CSQLite [] [];
    mkObject CSQLite [] [] ].

(** A [Tables] collection holding one table under the key ["a"], next to
    a second table that is not registered. *)
Definition sample_tables : heap :=
  [ mkObject CTables [] [(VStr "a", VObj 1)];
    mkObject CTable [("name", VStr "a")] [];
    mkObject CTable [("name", VStr "b")] [] ].


(** A POSIX system whose working directory is [/srv/app], with the
    directories [/], [/srv] and [/srv/app] in place, where every
    connection succeeds. *)
Definition sample_os : Engine.os :=
  Engine.mkOs (Engine.posix_realpath "/srv/app") Engine.posix_dirname
    (fun p => str_in p ["/"; "/srv"; "/srv/app"])
    (fun _ => Engine.Made) (fun _ => true) (fun _ => true).

(** The same system with nothing below [/srv] in place, where no
    directory can be created. *)
Definition sealed_os : Engine.os :=
  Engine.mkOs (Engine.posix_realpath "/srv/app") Engine.posix_dirname
    (fun p => str_in p ["/"; "/srv"])
    (fun _ => Engine.Refused) (fun _ => true) (fun _ => true).

(** ** Helpers for further statements *)

(** No entry of [f] repeats the key or the value of an entry before it,
    in the sense of the two checks of [_check_item]. *)
Definition unique_entries (f : list (val * val)) : Prop :=
  forall i k v,
    f !! i = Some (k, v) ->
    pydict_mem (take i f) k = false /\
    py_in v (Collection.values (take i f)) = false.

(** The keyword pairs as [_update_collection] hands them to
    [_update_fields]. *)
Definition kwargs_items (kwargs : attrs) : list (val * val) :=
  map (fun kv => (VStr (fst kv), snd kv)) kwargs.

Definition is_instance (v : val) : bool :=
  match v with VObj _ => true | _ => false end.

(** The mutating entry points of a collection. *)
Inductive mutation :=
| Insert (key value : val)
| Update
| Clear
| Remove.

Definition mutate (c : loc) (m : mutation) : M unit :=
  match m with
  | Insert key value => Collection.insert c key value
  | Update => Collection.update c
  | Clear => Collection.clear c
  | Remove => Collection.remove c
  end.

(** Two collections holding the same two tables under different keys,
    and a third holding one of them. *)
Definition sample_collections : heap :=
  [ mkObject CTables [] [(VStr "a", VObj 3); (VStr "b", VObj 4)];
    mkObject CTables [] [(VStr "x", VObj 3); (VStr "y", VObj 4)];
    mkObject CTables [] [(VStr "a", VObj 3)];
    mkObject CTable [("name", VStr "a")] [];
    mkObject CTable [("name", VStr "b")] [] ].

(** The classes whose [__set__] overwrites and whose [__get__] reads the
    instance only: [Descriptor], [AnyVar], [StringVar], [BoolVar]. *)
Definition plain_mutable (k : kind) : bool :=
  match k with
  | Descriptor | AnyVar | StringVar | BoolVar => true
  | _ => false
  end.

(** An index (0) and a view (1) attached to no schema, and an engine
    (2). *)
Definition sample_detached : heap :=
  [ mkObject CIndex [("name", VStr "i")] [];
    mkObject CView [] [];
    mkObject CSQLite [] [] ].

(** The type names of the collection classes. *)
Definition collection_names : list string :=
  ["collection"; "mixincollection"; "tables"; "indexes"; "views"; "triggers";
   "columns"].

(** [no_collection h a]: the value [a] does not answer to the type name
    of a collection: it is no collection instance. *)
Definition no_collection (h : heap) (a : val) : bool :=
  match __type_name__ h a with
  | Some (VStr n) => negb (str_in n collection_names)
  | _ => true
  end.

(** [keeps_type_names m]: running [m] changes the [__type_name__] of no
    value. *)
Definition keeps_type_names {A} (m : M A) : Prop :=
  forall h h' r, m h = (h', r) -> forall a, __type_name__ h' a = __type_name__ h a.

(** The loop body of [Table._filter_columns]. *)
Definition column_consumer (self : loc) (column : val) : M (val * val) :=
  do _ <- Table_set_child self column;
  do key <- getattr column "key";
  ret (key, column).

(** An assignment through a slot either leaves the heap alone or
    replaces, in one instance, the entry named by the slot. *)
Definition touches (d : slot) (h h' : heap) : Prop :=
  h' = h \/
  exists l o x,
    h !! l = Some o /\
    h' = <[l := mkObject (class_of o) (attr_set (dict o) (_attribute d) x) (fields o)]> h.

(** A table (0) with two columns (1, 2) not yet attached to it. *)
Definition sample_columns : heap :=
  [ mkObject CTable [("name", VStr "t")] [];
    mkObject CColumn [("name", VStr "a"); ("type", VStr "TEXT")] [];
    mkObject CColumn [("name", VStr "bee"); ("type", VStr "TEXT")] [] ].

(** Two empty collections of different classes: a [Tables] (0) and an
    [Indexes] (1). *)
Definition sample_empties : heap :=
  [ mkObject CTables [] []; mkObject CIndexes [] [] ].

(** ** engines.py: the lock, the connection and the statements *)

Module Manager.

(** What the methods of [SQLite] do outside the process, beyond the
    events of the path handling: the calls on the connection and on the
    cursor, and the warnings. *)
Inductive event :=
| Sys (e : Engine.event)
| LogWarning (text : string)
| ConnectionClose                 (* connection.close() *)
| NewCursor                       (* self._connection.cursor(SQLiteCursor) *)
| CursorExecute (sql : string)    (* cursor.execute(sql, args) *)
| CursorClose                     (* cursor.close() *)
| Transaction (sql : string).     (* with self._connection: <one call> *)

Inductive exc :=
| SqliteError       (* sqlite3.Error and its subclasses *)
| AttributeError    (* self._connection after [del self._connection] *)
| OSError.          (* os.makedirs, through [_check_path] *)

Definition acquire_lock : event := Sys Engine.LockAcquire.
Definition release_lock : event := Sys Engine.LockRelease.
Definition debug (text : string) : event := Sys (Engine.LogDebug text).
Definition error (text : string) : event := Sys (Engine.LogError text).

(** The depth at which the reentrant lock is held after [evs], starting
    from [depth]; [None] if it is released while not held. *)
Fixpoint held (depth : nat) (evs : list event) : option nat :=
  match evs with
  | [] => Some depth
  | Sys Engine.LockAcquire :: r => held (S depth) r
  | Sys Engine.LockRelease :: r =>
      match depth with
      | 0 => None
      | S d => held d r
      end
  | _ :: r => held depth r
  end.

(** [SQLite.acquire], as the path handling defines it: it returns a
    connection, or ends with the error of [sqlite3.connect], or with the
    error of [os.makedirs]. *)
Definition acquire (env : Engine.os) (self : Engine.SQLite)
    : list event * (exc + unit) :=
  (map Sys (fst (Engine.acquire env self)),
   match snd (Engine.acquire env self) with
   | inr _ => inr tt
   | inl Engine.OSError => inl OSError
   | inl _ => inl SqliteError
   end).

(** [SQLite.release]: [close_ok] tells whether [connection.close()]
    returns. Nothing is raised either way. *)
Definition release (self : Engine.SQLite) (close_ok : bool) : list event :=
  [acquire_lock;
   debug (Engine.cat ["Closing the connection with the SQLite database '";
                      Engine._file_path self; "'..."]);
   ConnectionClose]
  ++ (if close_ok
      then [debug (Engine.cat ["Terminated connection with the SQLite database '";
                               Engine._file_path self; "'."])]
      else [LogWarning (Engine.cat
              ["Failed to close connection with the SQLite database '";
               Engine._file_path self; "'!"])])
  ++ [release_lock].

(** [SQLite.execute], [execute_many], [execute_script]: one call inside
    [with self._connection], which commits or rolls back. [attached]
    tells whether the instance has its [_connection]; [ok] whether the
    call returns. *)
Definition execute (attached ok : bool) (sql : string)
    : list event * (exc + unit) :=
  if attached then
    if ok then ([acquire_lock; debug sql; Transaction sql; release_lock], inr tt)
    else ([acquire_lock; debug sql; Transaction sql;
           error "Last sqlite transaction(s) failed!"; release_lock],
          inl SqliteError)
  else ([acquire_lock; debug sql; release_lock], inl AttributeError).

(** [SQLite._get_cursor] *)
Definition _get_cursor (attached cursor_ok : bool) : list event * (exc + unit) :=
  if attached then
    if cursor_ok then
      ([acquire_lock; debug "Acquiring a new SQLite cursor..."; NewCursor;
        debug "Successfully acquired SQLite cursor."; release_lock], inr tt)
    else
      ([acquire_lock; debug "Acquiring a new SQLite cursor..."; NewCursor;
        error "Failed to acquire a SQLite cursor!"; release_lock],
       inl SqliteError)
  else
    ([acquire_lock; debug "Acquiring a new SQLite cursor..."; release_lock],
     inl AttributeError).

(** [SQLite.query]: the cursor is asked for before the [try] whose
    [finally] releases the lock. *)
Definition query (attached cursor_ok execute_ok : bool) (sql : string)
    : list event * (exc + unit) :=
  let start := [acquire_lock; debug sql] in
  match _get_cursor attached cursor_ok with
  | (evs, inl e) => (start ++ evs, inl e)
  | (evs, inr _) =>
      if execute_ok then
        (start ++ evs ++ [CursorExecute sql; release_lock], inr tt)
      else
        (start ++ evs ++
         [CursorExecute sql; error "Failed to execute the last SQLite query!";
          CursorClose; release_lock],
         inl SqliteError)
  end.

(** [Engine.__enter__]: the events, whether the instance has a
    connection afterwards, and the outcome. Only an error of [sqlite3]
    is caught, to release the lock before it is raised again. *)
Definition __enter__ (env : Engine.os) (self : Engine.SQLite) (attached : bool)
    : list event * bool * (exc + unit) :=
  if attached then ([acquire_lock], true, inr tt)
  else
    match acquire env self with
    | (evs, inr _) => (acquire_lock :: evs, true, inr tt)
    | (evs, inl SqliteError) =>
        (acquire_lock :: evs ++ [release_lock], false, inl SqliteError)
    | (evs, inl e) => (acquire_lock :: evs, false, inl e)
    end.

(** [Engine.__exit__]: the connection, if any, is released and
    forgotten, then the lock is released. *)
Definition __exit__ (self : Engine.SQLite) (attached close_ok : bool)
    : list event * bool :=
  ((if attached then release self close_ok else []) ++ [release_lock], false).

(** [Engine.close] *)
Definition close (self : Engine.SQLite) (attached close_ok : bool)
    : list event * bool :=
  (acquire_lock :: (if attached then release self close_ok else [])
   ++ [release_lock], false).

End Manager.

(** ** engines.py: the registry of locks *)

Module Locks.

(** [LOCKS], with the number of locks made so far standing for the
    identity of the next [RLock()]. The registry holds its values
    weakly; the model follows it while the locks it handed out are still
    referenced, so that no entry goes away. *)
Record registry := mkRegistry {
  entries : list (string * nat);
  made : nat
}.

(** [Engine._get_lock] *)
Definition _get_lock (key : string) (reg : registry) : registry * option nat :=
  let reg' :=
    if negb (dict_mem String.eqb (entries reg) key)
    then mkRegistry (dict_set String.eqb (entries reg) key (made reg)) (S (made reg))
    else reg in
  (reg', dict_get String.eqb (entries reg') key).

(** Every lock in the registry was made, and no two keys share one. *)
Definition well_formed (reg : registry) : Prop :=
  (forall k l, dict_get String.eqb (entries reg) k = Some l -> l < made reg) /\
  (forall k k' l,
      dict_get String.eqb (entries reg) k = Some l ->
      dict_get String.eqb (entries reg) k' = Some l -> k = k').

End Locks.

(** ** engines.py: the cursor *)

Module Cursor.

Section Rows.
Context {Row Out : Type}.

(** A cursor over the rows of a result that were not fetched yet;
    [closed] is the state of the [sqlite3] cursor, [_is_closed] the flag
    [SQLiteCursor] keeps. *)
Record cursor := mkCursor {
  pending : list Row;
  closed : bool;
  _is_closed : bool
}.

Inductive exc := ProgrammingError.

(** [SQLiteCursor.close] *)
Definition close (c : cursor) : cursor := mkCursor (pending c) true true.

(** [sqlite3.Cursor.fetchall], [fetchmany(size)] for a positive size,
    [fetchone]: a closed cursor raises. *)
Definition base_fetchall (c : cursor) : exc + (list Row * cursor) :=
  if closed c then inl ProgrammingError
  else inr (pending c, mkCursor [] (closed c) (_is_closed c)).

Definition base_fetchmany (size : positive) (c : cursor)
    : exc + (list Row * cursor) :=
  if closed c then inl ProgrammingError
  else inr (firstn (Pos.to_nat size) (pending c),
            mkCursor (skipn (Pos.to_nat size) (pending c))
              (closed c) (_is_closed c)).

Definition base_fetchone (c : cursor) : exc + (option Row * cursor) :=
  if closed c then inl ProgrammingError
  else match pending c with
       | [] => inr (None, c)
       | row :: rest => inr (Some row, mkCursor rest (closed c) (_is_closed c))
       end.

(** [SQLiteCursor.fetchall] *)
Definition fetchall (factory : Row -> Out) (c : cursor)
    : (exc + list Out) * cursor :=
  match base_fetchall c with
  | inl e => (inl e, close c)
  | inr (rows, c') => (inr (map factory rows), close c')
  end.

(** [SQLiteCursor.fetchmany] *)
Definition fetchmany (factory : Row -> Out) (size : positive) (c : cursor)
    : (exc + list Out) * cursor :=
  match base_fetchmany size c with
  | inl e => (inl e, close c)
  | inr (rows, c') =>
      (inr (map factory rows),
       if Nat.eqb (length (map factory rows)) 0 then close c' else c')
  end.

(** [SQLiteCursor.fetchone]; the factory is given [None] when no row is
    left. *)
Definition fetchone (factory : option Row -> Out) (c : cursor)
    : (exc + Out) * cursor :=
  match base_fetchone c with
  | inl e => (inl e, close c)
  | inr (row, c') => (inr (factory row), close c')
  end.

(** A client that calls [fetchmany] until it gets an empty list, at
    most [fuel] times, and joins what it got. *)
Fixpoint drain (fuel : nat) (factory : Row -> Out) (size : positive) (c : cursor)
    : option (list Out * cursor) :=
  match fuel with
  | 0 => None
  | S fuel =>
      match fetchmany factory size c with
      | (inl _, _) => None
      | (inr [], c') => Some ([], c')
      | (inr rows, c') =>
          match drain fuel factory size c' with
          | Some (more, c'') => Some (rows ++ more, c'')
          | None => None
          end
      end
  end.

End Rows.

(** [SQLiteCursor._to_dict]: [dict(zip(row.keys(), tuple(row)))], a row
    being its columns in order. *)
Definition _to_dict (row : option (list (string * val))) : option attrs :=
  match row with
  | None => None
  | Some r => Some (fold_left (fun d kv => attr_set d (fst kv) (snd kv)) r [])
  end.

End Cursor.

(** How many times the character [c] occurs in [s]. *)
Fixpoint occurrences (c : ascii) (s : string) : nat :=
  match s with
  | EmptyString => 0
  | String c' r => (if Ascii.eqb c' c then 1 else 0) + occurrences c r
  end.

(** * Properties *)

(** ** Dictionaries *)

Section DictFacts.
Context {K V : Type} (eqb : K -> K -> bool).

Lemma dict_get_set_same (d : list (K * V)) k v :
  eqb k k = true -> dict_get eqb (dict_set eqb d k v) k = Some v.
Proof.
  intros Hk. induction d as [|[k' v'] r IH]; simpl.
  - now rewrite Hk.
  - destruct (eqb k k') eqn:E; simpl; rewrite E; auto.
Qed.

Lemma dict_set_fresh (d : list (K * V)) k v :
  dict_get eqb d k = None -> dict_set eqb d k v = d ++ [(k, v)].
Proof.
  induction d as [|[k' v'] r IH]; simpl; auto.
  destruct (eqb k k'); [discriminate|].
  intros H. now rewrite IH.
Qed.

Lemma dict_mem_false (d : list (K * V)) k :
  dict_mem eqb d k = false <-> dict_get eqb d k = None.
Proof. unfold dict_mem. destruct (dict_get eqb d k); split; congruence. Qed.

Lemma dict_mem_true (d : list (K * V)) k :
  dict_mem eqb d k = true <-> exists v, dict_get eqb d k = Some v.
Proof.
  unfold dict_mem. destruct (dict_get eqb d k); split; eauto; try congruence.
  intros [v Hv]. discriminate.
Qed.
End DictFacts.

(** ** The heap *)

Lemma read_some (h : heap) l o : h !! l = Some o -> read l h = (h, Ok o).
Proof. intros H. unfold read, bind, deref, ret. now rewrite H. Qed.

Lemma self_collection_some (h : heap) l o :
  h !! l = Some o -> is_Collection (class_of o) = true ->
  Collection.self_collection l h = (h, Ok o).
Proof.
  intros H Hc. unfold Collection.self_collection, bind.
  rewrite (read_some _ _ _ H), Hc. reflexivity.
Qed.

Lemma is_MixinCollection_Collection c :
  is_MixinCollection c = true -> is_Collection c = true.
Proof. destruct c; simpl; congruence. Qed.

Lemma write_fields_some (h : heap) l o f :
  h !! l = Some o ->
  write_fields l f h = (<[l := mkObject (class_of o) (dict o) f]> h, Ok tt).
Proof. intros H. unfold write_fields. now rewrite H. Qed.

Lemma write_dict_some (h : heap) l o d :
  h !! l = Some o ->
  write_dict l d h = (<[l := mkObject (class_of o) d (fields o)]> h, Ok tt).
Proof. intros H. unfold write_dict. now rewrite H. Qed.

(** ** Reading the heap *)

Lemma reads_ret {A} (a : A) : reads (ret a).
Proof. intros h h' r H. now injection H as <- _. Qed.

Lemma reads_raise {A} e : reads (@raise A e).
Proof. intros h h' r H. now injection H as <- _. Qed.

Lemma reads_lift {A} (x : result A) : reads (lift x).
Proof. intros h h' r H. now injection H as <- _. Qed.

Lemma reads_get_heap : reads get_heap.
Proof. intros h h' r H. now injection H as <- _. Qed.

Lemma reads_bind {A B} (m : M A) (f : A -> M B) :
  reads m -> (forall a, reads (f a)) -> reads (bind m f).
Proof.
  intros Hm Hf h h' r. unfold bind.
  destruct (m h) as [h1 [a|e]] eqn:E; pose proof (Hm _ _ _ E) as ->.
  - apply Hf.
  - intros H. now injection H as <- _.
Qed.

Lemma reads_deref v : reads (deref v).
Proof.
  intros h h' r. unfold deref.
  destruct v as [| | | |l| |]; try (intros H; now injection H as <- _).
  destruct (h !! l); intros H; now injection H as <- _.
Qed.

Lemma reads_py_hash key : reads (py_hash key).
Proof. intros h h' r H. now injection H as <- _. Qed.

Create HintDb reads.

#[local] Hint Resolve reads_ret reads_raise reads_lift reads_get_heap
  reads_deref reads_py_hash : reads.

Ltac reads_step :=
  first
    [ solve [auto with reads]
    | apply reads_bind; [|intros ?]
    | match goal with
      | |- reads (if ?b then _ else _) => destruct b
      | |- reads (match ?x with _ => _ end) => destruct x
      end ].

Lemma reads_dict inst : reads (__dict__ inst).
Proof. unfold __dict__. repeat reads_step. Qed.

#[local] Hint Resolve reads_dict : reads.

Lemma reads_get d inst : reads (__get__ d inst).
Proof.
  unfold __get__, Toggle_get_value, SQLiteEngine_get_value, Descriptor__get__.
  destruct (kind_of d); repeat reads_step.
Qed.

Lemma reads_self_collection self : reads (Collection.self_collection self).
Proof. unfold Collection.self_collection, read. repeat reads_step. Qed.

#[local] Hint Resolve reads_get reads_self_collection : reads.

Lemma reads_get_by_key self key : reads (Collection._get_by_key self key).
Proof. unfold Collection._get_by_key. repeat reads_step. Qed.

#[local] Hint Resolve reads_get_by_key : reads.

Lemma reads_getattr inst a : reads (getattr inst a).
Proof. unfold getattr. repeat reads_step. Qed.

#[local] Hint Resolve reads_getattr : reads.

Lemma getattr_pure inst a (h h' : heap) r :
  getattr inst a h = (h', r) -> h' = h.
Proof. apply reads_getattr. Qed.

Lemma reads_hasattr inst a : reads (Collection.hasattr inst a).
Proof.
  intros h h' r. unfold Collection.hasattr.
  destruct (getattr inst a h) as [h1 [v|e]] eqn:E;
    pose proof (reads_getattr _ _ _ _ _ E) as ->.
  - intros H. now injection H as <- _.
  - destruct e; intros H; now injection H as <- _.
Qed.

#[local] Hint Resolve reads_hasattr : reads.

Lemma reads_item_name v : reads (Collection._item_name v).
Proof. unfold Collection._item_name. repeat reads_step. Qed.

Lemma reads_values_of other : reads (values_of other).
Proof. unfold values_of. destruct other; repeat reads_step. Qed.

#[local] Hint Resolve reads_item_name reads_values_of : reads.

Lemma reads_eq self other : reads (Collection__eq__ self other).
Proof. unfold Collection__eq__. repeat reads_step. Qed.

#[local] Hint Resolve reads_eq : reads.

Lemma reads_equal a b : reads (Collection.equal a b).
Proof. intros h h' r H. unfold Collection.equal in H. congruence. Qed.

#[local] Hint Resolve reads_equal : reads.

Lemma reads_contains x xs : reads (Collection.contains x xs).
Proof. induction xs as [|e xs IH]; simpl; repeat reads_step. Qed.

#[local] Hint Resolve reads_contains : reads.

Lemma reads_check_item f k v : reads (Collection._check_item f k v).
Proof.
  unfold Collection._check_item, Collection._check_key, Collection._check_value.
  repeat reads_step.
Qed.

(** ** Keyed collections *)

(** Hashing and the test for a collection look at classes only. *)
Lemma hashable_same_classes (h h' : heap) :
  (forall l, class_of <$> h' !! l = class_of <$> h !! l) ->
  forall v, hashable h' v = hashable h v.
Proof.
  intros Hc. fix IH 1. intros [| | | |l|k items|d]; try reflexivity.
  - simpl. specialize (Hc l).
    destruct (h' !! l), (h !! l); simpl in Hc; congruence.
  - destruct k; [reflexivity|]. simpl.
    induction items as [|x xs IHxs]; [reflexivity|].
    simpl. now rewrite IH, IHxs.
Qed.

Lemma same_classes_insert (h : heap) c o o' :
  h !! c = Some o -> class_of o' = class_of o ->
  forall l, class_of <$> <[c := o']> h !! l = class_of <$> h !! l.
Proof.
  intros H Hc l. destruct (decide (l = c)) as [->|Hne].
  - rewrite list_lookup_insert_eq by (eapply lookup_lt_Some; eauto).
    rewrite H. simpl. now rewrite Hc.
  - now rewrite list_lookup_insert_ne by congruence.
Qed.


Lemma get_by_key_unfold (h : heap) c o key :
  h !! c = Some o -> is_Collection (class_of o) = true ->
  Collection._get_by_key c key h
  = (h, if hashable h key
        then match pydict_get (fields o) key with
             | Some v => Ok v
             | None => Raise (MissingKeyError key)
             end
        else Raise TypeError).
Proof.
  intros H Hc. unfold Collection._get_by_key, bind.
  rewrite (self_collection_some _ _ _ H Hc). unfold py_hash.
  destruct (hashable h key); [|reflexivity].
  destruct (pydict_get (fields o) key); reflexivity.
Qed.

(** [_check_item] in one equation: the key is hashed and looked up, then
    the value is searched, and named if it is found. *)
Lemma check_item_unfold (f : pydict) k v (h : heap) :
  Collection._check_item f k v h
  = (h,
     if hashable h k then
       if pydict_mem f k then Raise (DuplicateKeyError k)
       else
         match snd (Collection.contains v (Collection.values f) h) with
         | Raise e => Raise e
         | Ok false => Ok (k, v)
         | Ok true =>
             match snd (Collection._item_name v h) with
             | Raise e => Raise e
             | Ok _ => Raise (DuplicateItemError v)
             end
         end
     else Raise TypeError).
Proof.
  unfold Collection._check_item, Collection._check_key, Collection._check_value,
    bind, py_hash.
  destruct (hashable h k); [|reflexivity].
  destruct (pydict_mem f k); [reflexivity|]. unfold ret at 1.
  destruct (Collection.contains v (Collection.values f) h) as [h1 [[]|e]] eqn:E;
    pose proof (reads_contains _ _ _ _ _ E) as ->; simpl; try reflexivity.
  destruct (Collection._item_name v h) as [h2 [n|e]] eqn:E2;
    pose proof (reads_item_name _ _ _ _ E2) as ->; reflexivity.
Qed.

(** The search for a key inside [py_eq] is [pydict_get]. *)
Lemma py_eq_find (k : val) (d' : list (val * val)) :
  (fix find (d' : list (val * val)) : option val :=
     match d' with
     | [] => None
     | (k', v') :: r' => if py_eq k k' then Some v' else find r'
     end) d' = pydict_get d' k.
Proof.
  induction d' as [|[k' v'] r IH]; [reflexivity|].
  unfold pydict_get. cbn [dict_get]. destruct (py_eq k k'); [reflexivity|].
  exact IH.
Qed.

Lemma flat_at (h : heap) v : flat h v = true -> Collection.collection_at h v = None.
Proof.
  unfold flat. destruct v; try reflexivity;
    destruct (Collection.collection_at h _); congruence.
Qed.

(** Between flat values [==] is [py_eq]. *)
Lemma equal_in_flat (h : heap) a b :
  flat h a = true -> flat h b = true ->
  Collection.equal_in h a b = Ok (py_eq a b).
Proof.
  intros Ha Hb. pose proof (flat_at _ _ Ha) as Ea. pose proof (flat_at _ _ Hb) as Eb.
  destruct a; try discriminate Ha; cbn [Collection.equal_in];
    unfold Collection.equal_flat; now rewrite Ea, Eb.
Qed.

(** Against an instance the comparison is the flat one. *)
Lemma equal_in_instance (h : heap) a l :
  Collection.equal_in h a (VObj l) = Collection.equal_flat h a (VObj l).
Proof. destruct a; reflexivity. Qed.

(** What [py_eq] holds equal, [==] holds equal. *)
Lemma py_eq_equal_in (h : heap) :
  forall a b, py_eq a b = true ->
              py_is a b = true \/ Collection.equal_in h a b = Ok true.
Proof.
  fix IH 1.
  intros [|x|x|x|x|k xs|d] [|y|y|y|y|k' ys|d']; cbn [py_eq]; try discriminate;
    intros H;
    try (left; exact H);
    try (right; cbn [Collection.equal_in]; unfold Collection.equal_flat;
         cbn [Collection.collection_at py_eq]; now rewrite H).
  - apply andb_true_iff in H as [Hk H]. right. cbn [Collection.equal_in].
    rewrite Hk.
    assert (Hlen : length xs = length ys).
    { clear -H. revert ys H.
      induction xs as [|x xs IHxs]; intros [|y ys] H; try discriminate H;
        [reflexivity|].
      apply andb_true_iff in H as [_ H]. cbn [length]. f_equal. now apply IHxs. }
    replace (match k with
             | KList => Nat.eqb (length xs) (length ys)
             | KTuple => true
             end) with true
      by (destruct k; [symmetry; now apply Nat.eqb_eq|reflexivity]).
    cbn [andb]. clear Hlen Hk. revert ys H.
    induction xs as [|x xs IHxs]; intros [|y ys] H; try discriminate H;
      [reflexivity|].
    apply andb_true_iff in H as [Hx H].
    destruct (py_is x y) eqn:Ei; [exact (IHxs ys H)|].
    destruct (IH x y Hx) as [Hi|He]; [congruence|].
    rewrite He. exact (IHxs ys H).
  - apply andb_true_iff in H as [Hl H]. right. cbn [Collection.equal_in].
    rewrite Hl. clear Hl.
    induction d as [|[k v] r IHr]; [reflexivity|].
    apply andb_true_iff in H as [Hv H]. rewrite py_eq_find in Hv.
    destruct (pydict_get d' k) as [v'|]; [|discriminate Hv].
    destruct (py_is v v') eqn:Ei; [exact (IHr H)|].
    destruct (IH v v' Hv) as [Hi|He]; [congruence|].
    rewrite He. exact (IHr H).
Qed.

(** A search that answers no found nothing equal by [py_eq] either. *)
Lemma equal_false (a b : val) (h : heap) :
  py_is a b = false ->
  Collection.equal a b h = (h, Ok false) -> py_eq a b = false.
Proof.
  intros Hi He. destruct (py_eq a b) eqn:E; [|reflexivity].
  unfold Collection.equal in He.
  destruct (py_eq_equal_in h a b E) as [H|H]; congruence.
Qed.

Lemma contains_false (x : val) (xs : list val) (h : heap) :
  Collection.contains x xs h = (h, Ok false) -> py_in x xs = false.
Proof.
  induction xs as [|e xs IH]; [reflexivity|]. simpl.
  destruct (py_is x e) eqn:Ei; [discriminate|]. unfold bind.
  destruct (Collection.equal x e h) as [h1 [[]|err]] eqn:E;
    pose proof (reads_equal _ _ _ _ _ E) as ->; try discriminate.
  intros H. specialize (IH H). unfold py_in in *. cbn [existsb].
  now rewrite (equal_false _ _ _ Ei E), IH.
Qed.

(** Among flat values the search is [py_in]. *)
Lemma contains_plain (x : val) (xs : list val) (h : heap) :
  flat h x = true ->
  Forall (fun e => flat h e = true) xs ->
  Collection.contains x xs h = (h, Ok (py_in x xs)).
Proof.
  intros Hx. induction 1 as [|e xs He _ IH]; [reflexivity|].
  cbn [Collection.contains]. unfold py_in in *. cbn [existsb].
  destruct (py_is x e); [reflexivity|].
  unfold bind at 1. unfold Collection.equal. rewrite (equal_in_flat h x e Hx He).
  cbn [orb].
  destruct (py_eq x e); [reflexivity|]. exact IH.
Qed.

Lemma check_item_ok (f : pydict) k v (h h' : heap) item :
  Collection._check_item f k v h = (h', Ok item) ->
  item = (k, v) /\ hashable h k = true /\ pydict_mem f k = false /\
  Collection.contains v (Collection.values f) h = (h, Ok false) /\
  py_in v (Collection.values f) = false.
Proof.
  rewrite check_item_unfold.
  destruct (hashable h k); [|discriminate].
  destruct (pydict_mem f k); [discriminate|].
  destruct (Collection.contains v (Collection.values f) h) as [h1 [[]|e]] eqn:E;
    pose proof (reads_contains _ _ _ _ _ E) as ->; simpl; try discriminate.
  - destruct (snd (Collection._item_name v h)); discriminate.
  - intros H. injection H as _ <-. repeat split. now apply (contains_false _ _ h).
Qed.

Lemma check_item_fresh (f : pydict) k v (h : heap) :
  hashable h k = true -> pydict_mem f k = false ->
  Collection.contains v (Collection.values f) h = (h, Ok false) ->
  Collection._check_item f k v h = (h, Ok (k, v)).
Proof.
  intros Hh Hk Hv. rewrite check_item_unfold, Hh, Hk, Hv. reflexivity.
Qed.

(** What [insert] does on a collection that reopens it, in one equation. *)
Lemma insert_unfold (h : heap) c o key value :
  h !! c = Some o -> is_MixinCollection (class_of o) = true ->
  Collection.insert c key value h =
    match snd (Collection._check_item (fields o) key value h) with
    | Ok item =>
        (<[c := mkObject (class_of o) (dict o)
                  (pydict_set (fields o) (fst item) (snd item))]> h, Ok tt)
    | Raise e => (h, Raise e)
    end.
Proof.
  intros H Hm. pose proof (is_MixinCollection_Collection _ Hm) as Hc.
  unfold Collection.insert, Collection.MixinCollection_insert,
    Collection._update_field, bind.
  rewrite (self_collection_some _ _ _ H Hc), Hm.
  rewrite (self_collection_some _ _ _ H Hc).
  destruct (Collection._check_item (fields o) key value h) as [h1 [item|e]] eqn:E;
    pose proof (reads_check_item _ _ _ _ _ _ E) as ->; [|reflexivity].
  apply write_fields_some, H.
Qed.




(** C9. An [insert] that raises leaves the whole heap, hence the keys,
    values, order and length of the collection, as it found them. *)
Theorem insert_raise_unchanged (h h' : heap) (c : loc) (key value : val) (e : exn) :
  Collection.insert c key value h = (h', Raise e) -> h' = h.
Proof.
  destruct (h !! c) as [o|] eqn:Ho.
  - destruct (is_MixinCollection (class_of o)) eqn:Hm.
    + rewrite (insert_unfold _ _ _ _ _ Ho Hm).
      destruct (snd (Collection._check_item (fields o) key value h)); congruence.
    + unfold Collection.insert, Collection.self_collection, bind.
      rewrite (read_some _ _ _ Ho).
      destruct (is_Collection (class_of o)); simpl; [rewrite Hm|];
        unfold raise; congruence.
  - unfold Collection.insert, Collection.self_collection, read, deref, bind.
    rewrite Ho. congruence.
Qed.

Lemma insert_raise_unchanged_witness :
  Collection.insert 0 (VStr "b") (VObj 1) sample_tables
    = (sample_tables, Raise (DuplicateItemError (VObj 1))) /\
  sample_tables = sample_tables.
Proof.
  split; [reflexivity|].
  exact (insert_raise_unchanged sample_tables sample_tables 0 (VStr "b") (VObj 1)
           (DuplicateItemError (VObj 1)) eq_refl).
Defined.

Lemma list_getitem_in_range (xs : list val) (i : Z) :
  (- Z.of_nat (length xs) <= i < Z.of_nat (length xs))%Z ->
  exists v,
    xs !! Z.to_nat (if (i <? 0)%Z then i + Z.of_nat (length xs) else i)%Z = Some v /\
    Collection.list_getitem xs i = Ok v.
Proof.
  intros Hi. unfold Collection.list_getitem.
  set (j := if (i <? 0)%Z then (i + Z.of_nat (length xs))%Z else i).
  assert (Hj : (0 <= j < Z.of_nat (length xs))%Z)
    by (subst j; destruct (Z.ltb_spec i 0); lia).
  destruct (Z.ltb_spec j 0); [lia|].
  destruct (Z.leb_spec (Z.of_nat (length xs)) j); [lia|]. simpl.
  destruct (xs !! Z.to_nat j) as [v|] eqn:Hv; [eauto|].
  apply lookup_ge_None in Hv. lia.
Qed.

(** C10. [_get_by_index] raises its out-of-range error exactly for the
    positions at or past the size; a negative position down to minus the
    size raises nothing and gives the element that many places from the
    end. *)
Theorem get_by_index_negative (h : heap) (c : loc) (o : object) (i : Z) :
  h !! c = Some o ->
  is_Collection (class_of o) = true ->
  let n := Z.of_nat (length (fields o)) in
  ((- n <= i <= -1)%Z ->
     exists v,
       Collection.values (fields o) !! Z.to_nat (n + i) = Some v /\
       Collection._get_by_index c i h = (h, Ok v)) /\
  (Collection._get_by_index c i h
     = (h, Raise (IndexError (CollectionIndexOutOfRange i))) <-> (n <= i)%Z) /\
  (forall k, snd (Collection._get_by_index c i h)
               = Raise (IndexError (CollectionIndexOutOfRange k)) -> (n <= i)%Z).
Proof.
  intros H Hc n.
  assert (Hget : Collection._get_by_index c i h =
                 if (i >=? n)%Z then (h, Raise (IndexError (CollectionIndexOutOfRange i)))
                 else (h, Collection.list_getitem (Collection.values (fields o)) i)).
  { unfold Collection._get_by_index, bind.
    rewrite (self_collection_some _ _ _ H Hc). subst n.
    destruct (i >=? Z.of_nat (length (fields o)))%Z; reflexivity. }
  assert (Hlen : length (Collection.values (fields o)) = length (fields o))
    by (unfold Collection.values; apply length_map).
  assert (Hnoguard : forall k, Collection.list_getitem (Collection.values (fields o)) i
                               <> Raise (IndexError (CollectionIndexOutOfRange k))).
  { intros k. unfold Collection.list_getitem.
    cbv zeta. destruct (orb _ _); [congruence|].
    destruct (Collection.values (fields o) !! _); congruence. }
  rewrite Hget. split; [|split].
  - intros Hi.
    destruct (Z.geb_spec i n); [lia|].
    destruct (list_getitem_in_range (Collection.values (fields o)) i) as (v & Hv & Hok).
    { rewrite Hlen. fold n. lia. }
    rewrite Hlen in Hv. fold n in Hv.
    destruct (Z.ltb_spec i 0); [|lia].
    exists v. split; [now rewrite Z.add_comm|now rewrite Hok].
  - destruct (Z.geb_spec i n); split; intros; try lia; try reflexivity.
    exfalso. apply (Hnoguard i). congruence.
  - intros k. destruct (Z.geb_spec i n); [lia|]. simpl.
    intros Hk. exfalso. eapply Hnoguard, Hk.
Qed.

Lemma get_by_index_negative_witness :
  Collection._get_by_index 0 (-1) sample_tables = (sample_tables, Ok (VObj 1)).
Proof.
  destruct (get_by_index_negative sample_tables 0 _ (-1) eq_refl eq_refl)
    as (H1 & _).
  destruct (H1 ltac:(simpl; lia)) as (v & Hv & Hg).
  simpl in Hv. injection Hv as <-. exact Hg.
Defined.

(** ** Managed attribute slots *)

Import Descriptor.

Lemma dict_of_some (h : heap) l o :
  h !! l = Some o -> has_dict (class_of o) = true ->
  __dict__ (VObj l) h = (h, Ok (l, dict o)).
Proof.
  intros H Hd. unfold __dict__, bind, deref. rewrite H. simpl. now rewrite Hd.
Qed.

Lemma Descriptor_set_some (h : heap) d l o v :
  h !! l = Some o -> has_dict (class_of o) = true ->
  Descriptor__set__ d (VObj l) v h
  = (<[l := mkObject (class_of o) (attr_set (dict o) (_attribute d) v) (fields o)]> h,
     Ok tt).
Proof.
  intros H Hd. unfold Descriptor__set__, bind.
  rewrite (dict_of_some _ _ _ H Hd). simpl. now apply write_dict_some.
Qed.

Lemma Immutable_set_some (h : heap) d l o v :
  h !! l = Some o -> has_dict (class_of o) = true ->
  Immutable__set__ d (VObj l) v h
  = if attr_mem (dict o) (_attribute d)
    then (h, Raise (IllegalOperation (AttributeUpdate (_attribute d))))
    else (<[l := mkObject (class_of o) (attr_set (dict o) (_attribute d) v) (fields o)]> h,
          Ok tt).
Proof.
  intros H Hd. unfold Immutable__set__, bind.
  rewrite (dict_of_some _ _ _ H Hd). simpl.
  destruct (attr_mem (dict o) (_attribute d)); [reflexivity|].
  now apply Descriptor_set_some.
Qed.

Lemma slot_of_engine c :
  is_SchemaItem c = true ->
  slot_of c "engine" = Some (mkSlot SQLiteEngine "engine" (Some "schema")).
Proof. destruct c; simpl; try discriminate; reflexivity. Qed.

Lemma SchemaItem_has_dict c : is_SchemaItem c = true -> has_dict c = true.
Proof. destruct c; simpl; congruence. Qed.

Lemma isinstance_SQLite_insert (h : heap) l o c d f v :
  h !! l = Some o -> class_of o = c ->
  isinstance_SQLite (<[l := mkObject c d f]> h) v = isinstance_SQLite h v.
Proof.
  intros H Hc. destruct v as [| | | |l'| |]; try reflexivity.
  unfold isinstance_SQLite.
  destruct (decide (l = l')) as [<-|Hne].
  - rewrite list_lookup_insert_eq by (eapply lookup_lt_Some; eauto).
    rewrite H. simpl. now rewrite Hc.
  - now rewrite list_lookup_insert_ne.
Qed.

(** What assigning [engine] on a schema item does, in one equation: the
    value is checked, then the slot is looked for, and written, in the
    storage of the object under [schema]. *)
Lemma setattr_engine_unfold (h : heap) t ot s os v :
  h !! t = Some ot -> is_SchemaItem (class_of ot) = true ->
  attr_get (dict ot) "schema" = Some (VObj s) ->
  h !! s = Some os -> has_dict (class_of os) = true ->
  setattr (VObj t) "engine" v h =
    if isinstance_SQLite h v then
      if attr_mem (dict os) "engine"
      then (h, Raise (IllegalOperation (AttributeUpdate "engine")))
      else (<[s := mkObject (class_of os) (attr_set (dict os) "engine" v) (fields os)]> h,
            Ok tt)
    else (h, Raise SQLiteEngineError).
Proof.
  intros Ht Hi Hs Hos Hd.
  unfold setattr, bind, deref. rewrite Ht. simpl.
  rewrite (slot_of_engine _ Hi).
  unfold __set__, SQLiteEngine__set__, bind. simpl.
  rewrite (dict_of_some _ _ _ Ht (SchemaItem_has_dict _ Hi)). simpl.
  unfold attr_get_default. rewrite Hs.
  unfold ret, AnyVar__set__, bind, _check_value, SQLiteEngine_check_value. simpl.
  destruct (isinstance_SQLite h v); [|reflexivity].
  now apply Immutable_set_some.
Qed.

(** Reading [engine] on a schema item that holds no entry of its own
    gives the entry of the object under [schema]. *)
Lemma getattr_engine_fallback (h : heap) t ot s os :
  h !! t = Some ot -> is_SchemaItem (class_of ot) = true ->
  attr_mem (dict ot) "engine" = false ->
  attr_get (dict ot) "schema" = Some (VObj s) ->
  h !! s = Some os -> has_dict (class_of os) = true ->
  getattr (VObj t) "engine" h = (h, Ok (attr_get_default (dict os) "engine")).
Proof.
  intros Ht Hi Hm Hs Hos Hd.
  unfold getattr, bind, deref. rewrite Ht. simpl.
  rewrite (slot_of_engine _ Hi).
  unfold __get__, SQLiteEngine_get_value, bind. simpl.
  rewrite (dict_of_some _ _ _ Ht (SchemaItem_has_dict _ Hi)). simpl.
  rewrite Hm. simpl. unfold ret at 1. unfold attr_get_default at 1. rewrite Hs.
  rewrite (dict_of_some _ _ _ Hos Hd). reflexivity.
Qed.

(** C8. Assigning an engine on a schema item writes the entry into the
    storage of its schema and leaves the item as it was; every item of
    that schema without an entry of its own then reads the same engine;
    and the assignment is refused exactly when the schema already holds
    an engine, whatever the item holds. *)
Theorem engine_set_goes_to_schema (h : heap) (t s : loc) (ot os : object) (v : val) :
  h !! t = Some ot ->
  is_SchemaItem (class_of ot) = true ->
  attr_get (dict ot) "schema" = Some (VObj s) ->
  h !! s = Some os ->
  class_of os = CSchema ->
  isinstance_SQLite h v = true ->
  (attr_mem (dict os) "engine" = false ->
     exists h',
       setattr (VObj t) "engine" v h = (h', Ok tt) /\
       h' !! s = Some (mkObject CSchema (attr_set (dict os) "engine" v) (fields os)) /\
       h' !! t = Some ot /\
       (forall t2 o2,
           h !! t2 = Some o2 ->
           is_SchemaItem (class_of o2) = true ->
           attr_get (dict o2) "schema" = Some (VObj s) ->
           attr_mem (dict o2) "engine" = false ->
           getattr (VObj t2) "engine" h' = (h', Ok v)) /\
       setattr (VObj t) "engine" v h'
         = (h', Raise (IllegalOperation (AttributeUpdate "engine")))) /\
  (attr_mem (dict os) "engine" = true ->
     setattr (VObj t) "engine" v h
       = (h, Raise (IllegalOperation (AttributeUpdate "engine")))).
Proof.
  intros Ht Hi Hs Hos Hc Hv.
  assert (Hd : has_dict (class_of os) = true) by (now rewrite Hc).
  assert (Hne : forall t2 o2, h !! t2 = Some o2 ->
                  is_SchemaItem (class_of o2) = true -> s <> t2).
  { intros t2 o2 H2 Hi2 ->. rewrite Hos in H2. injection H2 as <-.
    rewrite Hc in Hi2. discriminate. }
  assert (Hlt : s < length h) by (eapply lookup_lt_Some; eauto).
  rewrite (setattr_engine_unfold _ _ _ _ _ _ Ht Hi Hs Hos Hd), Hv.
  split; intros Hm; rewrite Hm; [|reflexivity].
  set (os' := mkObject (class_of os) (attr_set (dict os) "engine" v) (fields os)).
  set (h' := <[s := os']> h).
  assert (Hos' : h' !! s = Some os') by (now apply list_lookup_insert_eq).
  assert (Hkeep : forall t2 o2, h !! t2 = Some o2 ->
                    is_SchemaItem (class_of o2) = true -> h' !! t2 = Some o2).
  { intros t2 o2 H2 Hi2. subst h'. rewrite list_lookup_insert_ne; eauto. }
  assert (Hget : attr_get (dict os') "engine" = Some v).
  { apply dict_get_set_same, String.eqb_refl. }
  exists h'. repeat split.
  - subst os'. now rewrite <- Hc.
  - eauto.
  - intros t2 o2 H2 Hi2 Hs2 Hm2.
    rewrite (getattr_engine_fallback h' t2 o2 s os'); eauto.
    unfold attr_get_default. now rewrite Hget.
  - rewrite (setattr_engine_unfold h' t ot s os'); eauto.
    assert (Hv' : isinstance_SQLite h' v = true).
    { subst h' os'. now rewrite (isinstance_SQLite_insert _ _ _ _ _ _ _ Hos eq_refl). }
    rewrite Hv'. unfold attr_mem, dict_mem. fold (attr_get (dict os') "engine").
    now rewrite Hget.
Qed.

Lemma engine_set_goes_to_schema_witness :
  (exists h',
      setattr (VObj 5) "engine" (VObj 7) sample_schema = (h', Ok tt) /\
      getattr (VObj 6) "engine" h' = (h', Ok (VObj 7)) /\
      attr_mem (dict (default (mkObject CTable [] []) (h' !! 5))) "engine" = false /\
      setattr (VObj 6) "engine" (VObj 8) h'
        = (h', Raise (IllegalOperation (AttributeUpdate "engine")))).
Proof.
  destruct (engine_set_goes_to_schema sample_schema 5 0 _ _ (VObj 7)
              eq_refl eq_refl eq_refl eq_refl eq_refl eq_refl)
    as ((h' & Hset & Hs & Ht & Hsib & _) & _); [reflexivity|].
  exists h'. split; [exact Hset|]. split; [|split].
  - exact (Hsib 6 _ eq_refl eq_refl eq_refl eq_refl).
  - rewrite Ht. reflexivity.
  - assert (H6 : h' !! 6 = Some (mkObject CTable
        [("name", VStr "u"); ("schema", VObj 0); ("parent", VObj 0)] [])).
    { injection Hset as <-. reflexivity. }
    destruct (engine_set_goes_to_schema h' 6 0 _ _ (VObj 8)
                H6 eq_refl eq_refl Hs eq_refl) as (_ & Hrefuse).
    + injection Hset as <-. reflexivity.
    + apply Hrefuse. reflexivity.
Defined.

Lemma attr_get_default_unset (d : attrs) a :
  attr_mem d a = false -> attr_get_default d a = VNone.
Proof.
  unfold attr_mem, attr_get_default, attr_get, dict_mem.
  destruct (dict_get String.eqb d a); congruence.
Qed.

(** The claim of C2 fails on the [key] slot of a table: [key] falls back
    to the table's own [name], whereas reading [key] from what [name]
    refers to (a string) finds no attribute. *)
Lemma toggle_fallback_counterexample :
  attr_mem (dict (default (mkObject CTable [] []) (built !! 7))) "key" = false /\
  slot_of CTable "key" = Some (mkSlot ToggleStringVar "key" (Some "name")) /\
  getattr (VObj 7) "key" built = (built, Ok (VStr "table_1")) /\
  read_from_fallback (VObj 7) "key" "name" built = (built, Raise AttributeError) /\
  getattr (VObj 7) "key" built <> read_from_fallback (VObj 7) "key" "name" built.
Proof. repeat split; try reflexivity. intros H. vm_compute in H. discriminate H. Qed.

(** C2, amended. With the local entry set, every slot with a fallback
    name reads the local entry. With it unset, a [Toggle] slot reads the
    instance's own entry under the fallback name, and an engine slot
    reads the same attribute in the storage of the object its fallback
    entry refers to. *)
Theorem get_with_fallback (h : heap) (l : loc) (o : object) (a f : string) :
  h !! l = Some o ->
  has_dict (class_of o) = true ->
  (forall k, toggle_kind k = true ->
     __get__ (mkSlot k a (Some f)) (VObj l) h
     = (h, Ok (if attr_mem (dict o) a then attr_get_default (dict o) a
               else attr_get_default (dict o) f))) /\
  (attr_mem (dict o) a = true ->
     __get__ (mkSlot SQLiteEngine a (Some f)) (VObj l) h
     = (h, Ok (attr_get_default (dict o) a))) /\
  (forall s os,
     attr_mem (dict o) a = false ->
     attr_get (dict o) f = Some (VObj s) ->
     h !! s = Some os ->
     has_dict (class_of os) = true ->
     __get__ (mkSlot SQLiteEngine a (Some f)) (VObj l) h
     = (h, Ok (attr_get_default (dict os) a))).
Proof.
  intros H Hd. repeat split.
  - intros k Hk.
    assert (Hg : __get__ (mkSlot k a (Some f)) (VObj l) h
                 = Toggle_get_value (VObj l) a (Some f) h)
      by (destruct k; try discriminate; reflexivity).
    rewrite Hg. unfold Toggle_get_value, bind.
    rewrite (dict_of_some _ _ _ H Hd). simpl.
    destruct (attr_mem (dict o) a); reflexivity.
  - intros Hm. unfold __get__, SQLiteEngine_get_value, bind. simpl.
    rewrite (dict_of_some _ _ _ H Hd). simpl. rewrite Hm. simpl.
    unfold ret at 1. rewrite (dict_of_some _ _ _ H Hd). reflexivity.
  - intros s os Hm Hf Hs Hds.
    unfold __get__, SQLiteEngine_get_value, bind. simpl.
    rewrite (dict_of_some _ _ _ H Hd). simpl. rewrite Hm. simpl.
    unfold ret at 1. unfold attr_get_default at 1. rewrite Hf.
    rewrite (dict_of_some _ _ _ Hs Hds). reflexivity.
Qed.

Lemma get_with_fallback_witness :
  __get__ (mkSlot ToggleStringVar "key" (Some "name")) (VObj 7) built
    = (built, Ok (VStr "table_1")) /\
  __get__ (mkSlot SQLiteEngine "engine" (Some "schema")) (VObj 7) built
    = (built, Ok VNone).
Proof.
  destruct (get_with_fallback built 7 _ "key" "name" eq_refl eq_refl) as (Hk & _).
  destruct (get_with_fallback built 7 _ "engine" "schema" eq_refl eq_refl)
    as (_ & _ & He).
  split.
  - exact (Hk ToggleStringVar eq_refl).
  - exact (He 0 _ eq_refl eq_refl eq_refl eq_refl).
Defined.

(** The claim of C5 fails twice. On a fresh column, after a first
    assignment of [name], assigning the empty string raises the
    validation error, not the illegal-operation error: the value is
    checked before the slot is. And on a table that never had an engine
    assigned, the first assignment is refused once a sibling table has
    set the engine of their schema. *)
Lemma immutable_set_counterexample :
  (exists h1,
      (do c <- new CColumn; setattr (VObj c) "name" (VStr "a")) [] = (h1, Ok tt) /\
      attr_mem (dict (default (mkObject CColumn [] []) (h1 !! 0))) "name" = true /\
      setattr (VObj 0) "name" (VStr "") h1 = (h1, Raise (ValueError "name")) /\
      snd (setattr (VObj 0) "name" (VStr "") h1)
        <> Raise (IllegalOperation (AttributeUpdate "name"))) /\
  (exists h1,
      setattr (VObj 5) "engine" (VObj 7) sample_schema = (h1, Ok tt) /\
      attr_mem (dict (default (mkObject CTable [] []) (sample_schema !! 6))) "engine" = false /\
      attr_mem (dict (default (mkObject CTable [] []) (h1 !! 6))) "engine" = false /\
      isinstance_SQLite h1 (VObj 8) = true /\
      setattr (VObj 6) "engine" (VObj 8) h1
        = (h1, Raise (IllegalOperation (AttributeUpdate "engine")))).
Proof.
  split; eexists; repeat split; try reflexivity.
  intros H. vm_compute in H. discriminate H.
Qed.

Lemma validate_immutable_set (h : heap) d l o v :
  immutable (kind_of d) = true -> engine_redirect d = false ->
  h !! l = Some o -> has_dict (class_of o) = true ->
  __set__ d (VObj l) v h =
    match validate d h v with
    | Raise e => (h, Raise e)
    | Ok v' =>
        if attr_mem (dict o) (_attribute d)
        then (h, Raise (IllegalOperation (AttributeUpdate (_attribute d))))
        else (<[l := mkObject (class_of o) (attr_set (dict o) (_attribute d) v')
                       (fields o)]> h, Ok tt)
    end.
Proof.
  intros Hi Hr H Hd.
  pose proof (Immutable_set_some h d l o) as Himm.
  unfold __set__, validate, engine_redirect in *.
  destruct d as [k a f]; simpl in *.
  destruct k; try discriminate Hi;
    try (apply Himm; assumption);
    try (unfold AnyVar__set__, bind, _check_value; simpl;
         match goal with
         | |- context [match ?r with Ok _ => _ | Raise _ => _ end] =>
             destruct r; [apply Himm; assumption|reflexivity]
         end).
  destruct f; [discriminate Hr|].
  unfold SQLiteEngine__set__, AnyVar__set__, bind, _check_value, ret; simpl.
  destruct (SQLiteEngine_check_value h v); [apply Himm; assumption|reflexivity].
Qed.

Lemma validate_insert (h : heap) d l o c dct f v :
  h !! l = Some o -> class_of o = c ->
  validate d (<[l := mkObject c dct f]> h) v = validate d h v.
Proof.
  intros H Hc. unfold validate, _check_value, SQLiteEngine_check_value.
  destruct (kind_of d); simpl; try reflexivity.
  now rewrite (isinstance_SQLite_insert _ _ _ _ _ _ _ H Hc).
Qed.

(** C5, amended. For an immutable slot other than an engine slot with a
    fallback name: an assignment first checks the value and raises the
    validation error if it fails, whether the slot is set or not; with a
    value that passes, the first assignment stores it and every later
    one raises the illegal-operation error; deletion always raises the
    illegal-operation error; and reading an unset slot gives [None], or
    for a slot with a fallback name the instance's entry under that name
    ([None] if that is unset too). *)
Theorem immutable_slot_contract (h : heap) (d : slot) (l : loc) (o : object) :
  immutable (kind_of d) = true ->
  engine_redirect d = false ->
  h !! l = Some o ->
  has_dict (class_of o) = true ->
  (forall v e, validate d h v = Raise e -> __set__ d (VObj l) v h = (h, Raise e)) /\
  (forall v v',
      validate d h v = Ok v' ->
      attr_mem (dict o) (_attribute d) = false ->
      exists h',
        __set__ d (VObj l) v h = (h', Ok tt) /\
        h' !! l = Some (mkObject (class_of o) (attr_set (dict o) (_attribute d) v')
                          (fields o)) /\
        __get__ d (VObj l) h' = (h', Ok v') /\
        (forall w w', validate d h' w = Ok w' ->
           __set__ d (VObj l) w h'
           = (h', Raise (IllegalOperation (AttributeUpdate (_attribute d)))))) /\
  (forall v v',
      validate d h v = Ok v' ->
      attr_mem (dict o) (_attribute d) = true ->
      __set__ d (VObj l) v h
      = (h, Raise (IllegalOperation (AttributeUpdate (_attribute d))))) /\
  __delete__ d (VObj l) h
    = (h, Raise (IllegalOperation (AttributeDeletion (_attribute d)))) /\
  (attr_mem (dict o) (_attribute d) = false ->
     __get__ d (VObj l) h
     = (h, Ok (match fallback_of d with
               | Some f => attr_get_default (dict o) f
               | None => VNone
               end))).
Proof.
  intros Hi Hr H Hd.
  assert (Hget : forall h0 o0, h0 !! l = Some o0 -> has_dict (class_of o0) = true ->
            __get__ d (VObj l) h0
            = (h0, Ok (if attr_mem (dict o0) (_attribute d)
                       then attr_get_default (dict o0) (_attribute d)
                       else match fallback_of d with
                            | Some f => attr_get_default (dict o0) f
                            | None => VNone
                            end))).
  { intros h0 o0 H0 Hd0.
    unfold __get__, fallback_of, engine_redirect in *.
    destruct d as [k a f]; simpl in *.
    destruct k; try discriminate Hi;
      unfold Descriptor__get__, Toggle_get_value, SQLiteEngine_get_value, bind;
      rewrite (dict_of_some _ _ _ H0 Hd0); simpl;
      try (destruct f; [try discriminate Hr|]);
      destruct (attr_mem (dict o0) a) eqn:Hm; simpl; try reflexivity;
      now rewrite (attr_get_default_unset _ _ Hm). }
  repeat split.
  - intros v e Hv. rewrite (validate_immutable_set _ _ _ _ _ Hi Hr H Hd).
    now rewrite Hv.
  - intros v v' Hv Hm.
    rewrite (validate_immutable_set _ _ _ _ _ Hi Hr H Hd), Hv, Hm.
    set (o' := mkObject (class_of o) (attr_set (dict o) (_attribute d) v') (fields o)).
    assert (Ho' : <[l := o']> h !! l = Some o')
      by (apply list_lookup_insert_eq; eapply lookup_lt_Some; eauto).
    assert (Hin : attr_get (dict o') (_attribute d) = Some v')
      by (apply dict_get_set_same, String.eqb_refl).
    assert (Hm' : attr_mem (dict o') (_attribute d) = true)
      by (unfold attr_mem, dict_mem; fold (attr_get (dict o') (_attribute d));
          now rewrite Hin).
    eexists. split; [reflexivity|]. split; [exact Ho'|]. split.
    + rewrite (Hget _ _ Ho' Hd), Hm'. unfold attr_get_default. now rewrite Hin.
    + intros w w' Hw.
      rewrite (validate_immutable_set _ _ _ _ _ Hi Hr Ho' Hd), Hw.
      now rewrite Hm'.
  - intros v v' Hv Hm.
    rewrite (validate_immutable_set _ _ _ _ _ Hi Hr H Hd), Hv. now rewrite Hm.
  - unfold __delete__. now rewrite Hi.
  - intros Hm. rewrite (Hget _ _ H Hd). now rewrite Hm.
Qed.

Lemma immutable_slot_contract_witness :
  setattr (VObj 7) "name" (VStr "other") built
    = (built, Raise (IllegalOperation (AttributeUpdate "name"))) /\
  setattr (VObj 7) "name" VNone built = (built, Raise (ValueError "name")) /\
  __delete__ (mkSlot ImmutableStringVar "name" None) (VObj 7) built
    = (built, Raise (IllegalOperation (AttributeDeletion "name"))) /\
  getattr (VObj 7) "key" built = (built, Ok (VStr "table_1")).
Proof.
  destruct (immutable_slot_contract built (mkSlot ImmutableStringVar "name" None) 7 _
              eq_refl eq_refl eq_refl eq_refl) as (Hbad & _ & Hagain & Hdel & _).
  destruct (immutable_slot_contract built (mkSlot ToggleStringVar "key" (Some "name")) 7 _
              eq_refl eq_refl eq_refl eq_refl) as (_ & _ & _ & _ & Hkey).
  split; [exact (Hagain (VStr "other") _ eq_refl eq_refl)|].
  split; [exact (Hbad VNone _ eq_refl)|].
  split; [exact Hdel|].
  exact (Hkey eq_refl).
Defined.

(** ** Reasoning about the monad *)

Lemma keeps_ret {A} P (a : A) : keeps P (ret a).
Proof. intros h h' r HP H. injection H as <- _. exact HP. Qed.

Lemma keeps_raise {A} P e : keeps P (@raise A e).
Proof. intros h h' r HP H. injection H as <- _. exact HP. Qed.

Lemma keeps_lift {A} P (x : result A) : keeps P (lift x).
Proof. intros h h' r HP H. injection H as <- _. exact HP. Qed.

Lemma keeps_bind {A B} P (m : M A) (f : A -> M B) :
  keeps P m -> (forall a, keeps P (f a)) -> keeps P (bind m f).
Proof.
  intros Hm Hf h h' r HP. unfold bind.
  destruct (m h) as [h1 [a|e]] eqn:E; intros H.
  - eapply Hf; [eapply Hm; eauto|exact H].
  - injection H as <- _. eapply Hm; eauto.
Qed.

Lemma raises_bind {A B} (m : M A) (f : A -> M B) :
  (forall a, raises (f a)) -> raises (bind m f).
Proof.
  intros Hf h. unfold bind. destruct (m h) as [h1 [a|e]]; [apply Hf|eauto].
Qed.

(** ** Construction of a schema *)

Lemma check_params_raises self (args : list val) (kwargs : attrs) :
  args <> [] -> raises (_check_params self args kwargs).
Proof.
  intros Ha h. unfold _check_params.
  destruct args as [|a args]; [congruence|]. simpl.
  destruct (is_str a && _)%bool; unfold raise; eauto.
Qed.

Lemma setattr_schema_keeps h0 a v d :
  slot_of CSchema a = Some d ->
  immutable (kind_of d) = true -> engine_redirect d = false ->
  keeps (constructing h0) (setattr (VObj (length h0)) a v).
Proof.
  intros Hs Hi Hr h h' r (o & rest & -> & Hc & Hf & Hrest).
  assert (Hl : (h0 ++ o :: rest) !! length h0 = Some o)
    by (now rewrite lookup_app_r, Nat.sub_diag by lia).
  unfold setattr, bind, deref. rewrite Hl. simpl. rewrite Hc, Hs.
  rewrite (validate_immutable_set _ _ _ _ v Hi Hr Hl) by (now rewrite Hc).
  destruct (validate d _ v) as [v'|e];
    [destruct (attr_mem (dict o) (_attribute d))|]; intros H; injection H as <- _;
    try (exists o, rest; now auto).
  exists (mkObject (class_of o) (attr_set (dict o) (_attribute d) v') (fields o)), rest.
  split; [|now auto].
  rewrite insert_app_r_alt, Nat.sub_diag by lia. reflexivity.
Qed.

Lemma Collection_new_empty_keeps h0 c :
  keeps (constructing h0) (Collection.Collection_new c [] []).
Proof.
  intros h h' r (o & rest & -> & Hc & Hf & Hrest).
  unfold Collection.Collection_new, Collection._update_collection, bind, new, ret.
  simpl. intros H. injection H as <- _.
  exists o, (rest ++ [mkObject c [] []]).
  split; [now rewrite <- app_assoc|]. split; [exact Hc|]. split; [exact Hf|].
  apply Forall_app. split; [exact Hrest|]. now constructor.
Qed.

Lemma set_engine_keeps h0 kwargs :
  keeps (constructing h0) (set_engine (length h0) kwargs).
Proof.
  unfold set_engine. destruct (attr_mem kwargs "engine"); [|apply keeps_ret].
  apply keeps_bind; [|intros; apply keeps_ret].
  eapply setattr_schema_keeps; reflexivity.
Qed.

Lemma Schema_init_keeps h0 name args kwargs :
  keeps (constructing h0) (Schema__init__ (length h0) name args kwargs).
Proof.
  unfold Schema__init__.
  repeat (apply keeps_bind;
          [first [ eapply setattr_schema_keeps; reflexivity
                 | apply Collection_new_empty_keeps
                 | apply set_engine_keeps ]
          | intros ?]).
  unfold _check_params.
  repeat match goal with |- context [if ?b then _ else _] => destruct b end;
    first [apply keeps_ret | apply keeps_raise].
Qed.

Lemma Schema_init_raises self name args kwargs :
  args <> [] -> raises (Schema__init__ self name args kwargs).
Proof.
  intros Ha. unfold Schema__init__.
  repeat (apply raises_bind; intros ?).
  now apply check_params_raises.
Qed.

(** The claim of C1 fails on an index passed positionally: the
    constructor raises, the [Indexes] collection it made (at 3) is
    empty, and the index (at 0) has received no back-reference. *)
Lemma Schema_positional_counterexample :
  exists h,
    (do i <- Index; Schema (VStr "main") [VObj i] []) [] = (h, Raise TypeError) /\
    h !! 0 = Some (mkObject CIndex [] []) /\
    h !! 3 = Some (mkObject CIndexes [] []).
Proof. eexists. repeat split. Qed.

(** C1, amended. [Schema]'s constructor neither classifies nor registers
    its positional arguments: given any, it raises instead of returning,
    the objects that existed are left as they were, and whatever it
    allocated (the schema and its collections) holds no entry. *)
Theorem Schema_rejects_positional (h : heap) (name : val) (args : list val)
    (kwargs : attrs) :
  args <> [] ->
  exists tail e,
    Schema name args kwargs h = (h ++ tail, Raise e) /\
    Forall (fun o => fields o = []) tail.
Proof.
  intros Ha. unfold Schema, bind at 1. unfold new at 1.
  set (h1 := h ++ [mkObject CSchema [] []]).
  assert (H1 : constructing h h1) by (exists (mkObject CSchema [] []), []; auto).
  unfold bind.
  destruct (Schema_init_raises (length h) name args kwargs Ha h1) as (h' & e & E).
  rewrite E.
  destruct (Schema_init_keeps h name args kwargs h1 h' _ H1 E)
    as (o & rest & -> & _ & Hf & Hrest).
  exists (o :: rest), e. split; [reflexivity|]. now constructor.
Qed.

Lemma Schema_rejects_positional_witness :
  exists tail e,
    Schema (VStr "main") [VObj 0] [] [mkObject CIndex [] []]
      = ([mkObject CIndex [] []] ++ tail, Raise e) /\
    Forall (fun o => fields o = []) tail.
Proof.
  apply (Schema_rejects_positional [mkObject CIndex [] []] (VStr "main") [VObj 0] []).
  intros H. discriminate H.
Defined.

(** ** Primary keys *)

(** A first assignment through an immutable slot of the instance
    allocated last. *)
Lemma setattr_last (h : heap) o a d v v' :
  slot_of (class_of o) a = Some d ->
  immutable (kind_of d) = true -> engine_redirect d = false ->
  has_dict (class_of o) = true ->
  validate d (h ++ [o]) v = Ok v' ->
  attr_mem (dict o) (_attribute d) = false ->
  setattr (VObj (length h)) a v (h ++ [o])
  = (h ++ [mkObject (class_of o) (attr_set (dict o) (_attribute d) v') (fields o)],
     Ok tt).
Proof.
  intros Hs Hi Hr Hd Hv Hm.
  assert (Hl : (h ++ [o]) !! length h = Some o)
    by (now rewrite lookup_app_r, Nat.sub_diag by lia).
  unfold setattr, bind, deref. rewrite Hl. simpl. rewrite Hs.
  rewrite (validate_immutable_set _ _ _ _ v Hi Hr Hl Hd), Hv, Hm.
  rewrite insert_app_r_alt, Nat.sub_diag by lia. reflexivity.
Qed.

(** C7. [PrimaryKey] stores whatever non-empty string it is given as
    [order]: [ORDER] is never consulted. Without the keyword the order is
    ["ASC"]. *)
Theorem PrimaryKey_order_unchecked (h : heap) (name order : string) :
  name <> "" ->
  order <> "" ->
  PrimaryKey (VStr name) [("order", VStr order)] h
  = (h ++ [mkObject CPrimaryKey
             [("name", VStr name); ("order", VStr order);
              ("on_conflict", VStr "ABORT"); ("autoincrement", VBool false)] []],
     Ok (length h)) /\
  PrimaryKey (VStr name) [] h
  = (h ++ [mkObject CPrimaryKey
             [("name", VStr name); ("order", VStr "ASC");
              ("on_conflict", VStr "ABORT"); ("autoincrement", VBool false)] []],
     Ok (length h)).
Proof.
  intros Hn Ho.
  destruct name as [|c r]; [congruence|].
  destruct order as [|c' r']; [congruence|].
  split; unfold PrimaryKey, PrimaryKey__init__, bind at 1; unfold new at 1;
    unfold bind at 1; unfold bind at 1;
    (erewrite setattr_last; [|reflexivity..]); simpl;
    unfold bind at 1;
    (erewrite setattr_last; [|reflexivity..]); simpl;
    unfold bind at 1, lift at 1; simpl;
    unfold bind at 1;
    (erewrite setattr_last; [|reflexivity..]); simpl;
    (erewrite setattr_last; [|reflexivity..]); reflexivity.
Qed.

Lemma PrimaryKey_order_unchecked_witness :
  PrimaryKey (VStr "pk") [("order", VStr "SIDEWAYS")] []
  = ([mkObject CPrimaryKey
        [("name", VStr "pk"); ("order", VStr "SIDEWAYS");
         ("on_conflict", VStr "ABORT"); ("autoincrement", VBool false)] []],
     Ok 0) /\
  str_in "SIDEWAYS" ORDER = false.
Proof.
  split; [|reflexivity].
  apply (PrimaryKey_order_unchecked [] "pk" "SIDEWAYS"); intros H; discriminate H.
Defined.

(** The sibling check is made: the conflict resolution is compared,
    upper-cased, with [ON_CONFLICT], and refused with the allowed names
    otherwise. *)
Lemma check_resolution_spec (s : string) :
  _check_resolution (VStr s)
  = if str_in (upper s) ON_CONFLICT then Ok (VStr (upper s))
    else Raise (ConstraintError ["ROLLBACK"; "ABORT"; "FAIL"; "IGNORE"; "REPLACE"] s).
Proof. reflexivity. Qed.

Example PrimaryKey_bad_resolution :
  snd (PrimaryKey (VStr "pk") [("on_conflict", VStr "sideways")] [])
  = Raise (ConstraintError ON_CONFLICT "sideways") /\
  _check_resolution (VStr "rollBack") = Ok (VStr "ROLLBACK").
Proof. split; reflexivity. Qed.

(** ** Export *)

(** X16. [BaseItem._traverse] on the very reference held under [parent]: the
    parent is not entered, its [name] is exported in its place. *)
Lemma traverse_parent_name (fuel : nat) (h : heap) self o p po key n :
  h !! self = Some o ->
  is_BaseItem (class_of o) = true ->
  attr_get (dict o) "parent" = Some (VObj p) ->
  h !! p = Some po ->
  is_BaseItem (class_of po) = true \/ class_of po = CSchema ->
  attr_get (dict po) "name" = Some (VStr n) ->
  _traverse (S fuel) h self key (VObj p) = Some (Ok (VStr n)).
Proof.
  intros Hs Hb Hp Hpo Hc Hn.
  assert (Hparent : getattr (VObj self) "parent" h = (h, Ok (VObj p))).
  { unfold getattr, bind, deref. rewrite Hs. simpl.
    assert (Hslot : slot_of (class_of o) "parent"
                    = Some (mkSlot ImmutableVar "parent" None))
      by (destruct (class_of o); try discriminate Hb; reflexivity).
    rewrite Hslot. unfold __get__, Descriptor__get__, bind. simpl.
    rewrite (dict_of_some _ _ _ Hs)
      by (destruct (class_of o); try discriminate Hb; reflexivity).
    simpl. unfold attr_get_default. now rewrite Hp. }
  assert (Hname : getattr (VObj p) "name" h = (h, Ok (VStr n))).
  { unfold getattr, bind, deref. rewrite Hpo. simpl.
    assert (Hslot : exists k, slot_of (class_of po) "name" = Some (mkSlot k "name" None)
                              /\ toggle_kind k = false /\ k <> SQLiteEngine).
    { destruct Hc as [Hc|Hc].
      - exists ImmutableStringVar.
        destruct (class_of po); try discriminate Hc; repeat split; congruence.
      - exists SchemaName. rewrite Hc. repeat split; congruence. }
    destruct Hslot as (k & -> & Hk & Hk').
    assert (Hg : __get__ (mkSlot k "name" None) (VObj p) h
                 = Descriptor__get__ (mkSlot k "name" None) (VObj p) h)
      by (destruct k; try discriminate Hk; first [reflexivity | congruence]).
    rewrite Hg. unfold Descriptor__get__, bind.
    rewrite (dict_of_some _ _ _ Hpo)
      by (destruct Hc as [Hc|Hc];
          destruct (class_of po); try discriminate Hc; reflexivity).
    simpl. unfold attr_get_default. now rewrite Hn. }
  simpl. rewrite Hs, Hb, Hparent. simpl.
  rewrite Nat.eqb_refl, Hname. reflexivity.
Qed.

(** *** The export follows the specification *)

Lemma getattr_parent (h : heap) self o :
  h !! self = Some o -> is_BaseItem (class_of o) = true ->
  getattr (VObj self) "parent" h = (h, Ok (attr_get_default (dict o) "parent")).
Proof.
  intros Hs Hb. unfold getattr, bind, deref. rewrite Hs. cbn [fst snd].
  assert (Hslot : slot_of (class_of o) "parent"
                  = Some (mkSlot ImmutableVar "parent" None))
    by (destruct (class_of o); try discriminate Hb; reflexivity).
  rewrite Hslot. unfold __get__, Descriptor__get__, bind. cbn [kind_of].
  rewrite (dict_of_some _ _ _ Hs)
    by (destruct (class_of o); try discriminate Hb; reflexivity).
  reflexivity.
Qed.

Lemma traverse_own_parent (fuel : nat) (h : heap) self o key v n :
  h !! self = Some o ->
  own_parent h self v = true ->
  getattr v "name" h = (h, Ok (VStr n)) ->
  _traverse (S fuel) h self key v = Some (Ok (VStr n)).
Proof.
  intros Hs Hp Hn. unfold own_parent in Hp. rewrite Hs in Hp.
  apply andb_true_iff in Hp as [Hb Hp].
  cbn [_traverse]. rewrite Hs, Hb, (getattr_parent _ _ _ Hs Hb). cbn [snd].
  rewrite Hp, Hn. reflexivity.
Qed.

Lemma traverse_other (fuel : nat) (h : heap) self o key v :
  h !! self = Some o ->
  own_parent h self v = false ->
  _traverse (S fuel) h self key v
  = match v with
    | VObj l =>
        match h !! l with
        | Some o' =>
            if is_DictMixin (class_of o')
            then _traverse_dict fuel h l (exported o')
            else Some (Ok v)
        | None => Some (Ok v)
        end
    | VDict d => _traverse_dict fuel h self d
    | VSeq k items =>
        match traverse_items (_traverse fuel h self key) items with
        | None => None
        | Some (Raise e) => Some (Raise e)
        | Some (Ok items') => Some (Ok (VSeq k items'))
        end
    | _ => Some (Ok v)
    end.
Proof.
  intros Hs Hp. unfold own_parent in Hp. rewrite Hs in Hp.
  cbn [_traverse]. rewrite Hs.
  destruct (is_BaseItem (class_of o)) eqn:Hb; [|reflexivity].
  rewrite (getattr_parent _ _ _ Hs Hb). cbn [snd]. simpl in Hp. rewrite Hp.
  reflexivity.
Qed.

Lemma fits_positive (h : heap) rank self v n :
  fits h rank self v n = true -> 0 < n.
Proof.
  destruct n as [|n]; [|lia]. intros H. exfalso.
  destruct v as [| | | |l|k items|d]; simpl in H;
    destruct (own_parent h self _); simpl in H; try discriminate H.
  destruct (h !! l) as [o|]; [|discriminate H].
  destruct (is_DictMixin (class_of o)); [|discriminate H].
  now rewrite andb_false_r in H.
Qed.

Lemma tidy_entries (h : heap) rank l o :
  tidy h rank = true ->
  h !! l = Some o -> 0 < rank l -> is_DictMixin (class_of o) = true ->
  forallb (fun kv => fits h rank l (snd kv) (rank l)) (exported o) = true.
Proof.
  intros Ht Hl Hr Hd. unfold tidy in Ht. rewrite forallb_forall in Ht.
  assert (Hin : In l (seq 0 (length h)))
    by (apply in_seq; apply lookup_lt_Some in Hl; lia).
  specialize (Ht l Hin). rewrite Hl, Hd in Ht.
  destruct (Nat.eqb_spec (rank l) 0); [lia|]. exact Ht.
Qed.

Section ExportFacts.
Context (h : heap) (rank : loc -> nat).

Lemma walked_entries (n : nat) (self : loc) (d : pydict) :
  (forall v, fits h rank self v n = true -> walked h n self v) ->
  forallb (fun kv => fits h rank self (snd kv) n) d = true ->
  exists d',
    exports_entries h self d d' /\
    forall fuel, n <= fuel ->
      traverse_entries (_traverse fuel h self) d = Some (Ok d').
Proof.
  intros Hw. induction d as [|[k v] d IH]; intros Hf.
  - exists []. split; [constructor|reflexivity].
  - simpl in Hf. apply andb_true_iff in Hf as [Hv Hd].
    destruct (Hw v Hv) as (v' & Hev & Htv).
    destruct (IH Hd) as (d' & Hed & Htd).
    exists ((k, v') :: d'). split; [now constructor|].
    intros fuel Hfuel. cbn [traverse_entries].
    now rewrite (Htv fuel k Hfuel), (Htd fuel Hfuel).
Qed.

Lemma walked_items (n : nat) (self : loc) (items : list val) :
  (forall v, fits h rank self v n = true -> walked h n self v) ->
  forallb (fun x => fits h rank self x n) items = true ->
  exists items',
    exports_items h self items items' /\
    forall fuel key, n <= fuel ->
      traverse_items (_traverse fuel h self key) items = Some (Ok items').
Proof.
  intros Hw. induction items as [|v items IH]; intros Hf.
  - exists []. split; [constructor|reflexivity].
  - simpl in Hf. apply andb_true_iff in Hf as [Hv Hi].
    destruct (Hw v Hv) as (v' & Hev & Htv).
    destruct (IH Hi) as (items' & Hei & Hti).
    exists (v' :: items'). split; [now constructor|].
    intros fuel key Hfuel. cbn [traverse_items].
    now rewrite (Htv fuel key Hfuel), (Hti fuel key Hfuel).
Qed.

(** On a tidy heap a value that fits [n] is exported as the
    specification says, by every run of [_traverse] allowed [n] nested
    calls or more. *)
Lemma traverse_fits :
  tidy h rank = true ->
  forall n self o v,
    h !! self = Some o -> fits h rank self v n = true -> walked h n self v.
Proof.
  intros Ht n. induction n as [n IH] using lt_wf_ind.
  intros self o v Hs Hf.
  pose proof (fits_positive _ _ _ _ _ Hf) as Hpos.
  destruct n as [|m]; [lia|].
  assert (Hfuel : forall fuel, S m <= fuel -> exists f, fuel = S f /\ m <= f)
    by (intros [|f] Hle; [lia|exists f; split; [reflexivity|lia]]).
  destruct (own_parent h self v) eqn:Hp.
  - (* the parent of [self] *)
    assert (Hn : named h v = true).
    { destruct v; cbn [fits] in Hf; rewrite Hp in Hf;
        now apply andb_true_iff in Hf as [_ Hf]. }
    unfold named in Hn.
    destruct (getattr v "name" h) as [h1 [[| | |nm| | |]|e]] eqn:E;
      try discriminate Hn.
    pose proof (getattr_pure _ _ _ _ _ E) as ->.
    exists (VStr nm). split; [now apply exports_parent|].
    intros fuel key Hle. destruct (Hfuel fuel Hle) as (f & -> & _).
    exact (traverse_own_parent f h self o key v nm Hs Hp E).
  - assert (Hwalk : forall fuel key, S m <= fuel ->
              _traverse fuel h self key v
              = match fuel with
                | 0 => None
                | S f => _traverse (S f) h self key v
                end)
      by (intros [|f] key Hle; [lia|reflexivity]).
    destruct v as [|b|z|str|l|k items|d].
    + exists VNone. split; [now apply exports_scalar|].
      intros fuel key Hle. destruct (Hfuel fuel Hle) as (f & -> & _).
      now rewrite (traverse_other f h self o key _ Hs Hp).
    + exists (VBool b). split; [now apply exports_scalar|].
      intros fuel key Hle. destruct (Hfuel fuel Hle) as (f & -> & _).
      now rewrite (traverse_other f h self o key _ Hs Hp).
    + exists (VInt z). split; [now apply exports_scalar|].
      intros fuel key Hle. destruct (Hfuel fuel Hle) as (f & -> & _).
      now rewrite (traverse_other f h self o key _ Hs Hp).
    + exists (VStr str). split; [now apply exports_scalar|].
      intros fuel key Hle. destruct (Hfuel fuel Hle) as (f & -> & _).
      now rewrite (traverse_other f h self o key _ Hs Hp).
    + (* an instance *)
      cbn [fits] in Hf. rewrite Hp in Hf.
      destruct (h !! l) as [o'|] eqn:Hl.
      * destruct (is_DictMixin (class_of o')) eqn:Hd.
        -- apply andb_true_iff in Hf as [Hr0 Hr].
           apply Nat.ltb_lt in Hr0, Hr.
           pose proof (tidy_entries h rank l o' Ht Hl Hr0 Hd) as He.
           destruct (walked_entries (rank l) l (exported o')) as (d' & Hed & Htd);
             [|exact He|].
           { intros v Hv. exact (IH (rank l) Hr l o' v Hl Hv). }
           exists (VDict d'). split; [now apply (exports_instance h self l o')|].
           intros fuel key Hle. destruct (Hfuel fuel Hle) as (f & -> & Hf').
           rewrite (traverse_other f h self o key _ Hs Hp), Hl, Hd.
           unfold _traverse_dict. rewrite (Htd f) by lia. reflexivity.
        -- exists (VObj l). split; [apply exports_opaque; [exact Hp|now rewrite Hl]|].
           intros fuel key Hle. destruct (Hfuel fuel Hle) as (f & -> & _).
           now rewrite (traverse_other f h self o key _ Hs Hp), Hl, Hd.
      * exists (VObj l). split; [apply exports_opaque; [exact Hp|now rewrite Hl]|].
        intros fuel key Hle. destruct (Hfuel fuel Hle) as (f & -> & _).
        now rewrite (traverse_other f h self o key _ Hs Hp), Hl.
    + (* a list or a tuple *)
      cbn [fits] in Hf. rewrite Hp in Hf. apply andb_true_iff in Hf as [_ Hi].
      replace (S m - 1) with m in Hi by lia.
      destruct (walked_items m self items) as (items' & Hei & Hti); [|exact Hi|].
      { intros v Hv. exact (IH m (Nat.lt_succ_diag_r m) self o v Hs Hv). }
      exists (VSeq k items'). split; [now apply exports_seq|].
      intros fuel key Hle. destruct (Hfuel fuel Hle) as (f & -> & Hf').
      rewrite (traverse_other f h self o key _ Hs Hp).
      now rewrite (Hti f key Hf').
    + (* a dict *)
      cbn [fits] in Hf. rewrite Hp in Hf. apply andb_true_iff in Hf as [_ Hi].
      replace (S m - 1) with m in Hi by lia.
      destruct (walked_entries m self d) as (d' & Hed & Htd); [|exact Hi|].
      { intros v Hv. exact (IH m (Nat.lt_succ_diag_r m) self o v Hs Hv). }
      exists (VDict d'). split; [now apply exports_dict|].
      intros fuel key Hle. destruct (Hfuel fuel Hle) as (f & -> & Hf').
      rewrite (traverse_other f h self o key _ Hs Hp).
      unfold _traverse_dict. now rewrite (Htd f Hf').
Qed.

(** [as_dict] on a ranked instance of a tidy heap. *)
Lemma as_dict_tidy (self : loc) (o : object) :
  tidy h rank = true ->
  h !! self = Some o -> is_DictMixin (class_of o) = true -> 0 < rank self ->
  exists d,
    exports_entries h self (exported o) d /\
    forall fuel, rank self <= fuel -> as_dict fuel h self = Some (Ok (VDict d)).
Proof.
  intros Ht Hs Hd Hr.
  destruct (walked_entries (rank self) self (exported o)) as (d & Hed & Htd).
  - intros v Hv. exact (traverse_fits Ht (rank self) self o v Hs Hv).
  - exact (tidy_entries h rank self o Ht Hs Hr Hd).
  - exists d. split; [exact Hed|]. intros fuel Hle.
    unfold as_dict, _traverse_dict. rewrite Hs, Hd, (Htd fuel Hle). reflexivity.
Qed.

End ExportFacts.

(** The specification gives each kind of value one export. *)
Lemma exports_instance_inv (h : heap) self l o v' :
  exports h self (VObj l) v' ->
  own_parent h self (VObj l) = false ->
  h !! l = Some o -> is_DictMixin (class_of o) = true ->
  exists d, v' = VDict d /\ exports_entries h l (exported o) d.
Proof.
  intros H Hp Hl Hd.
  inversion H as [? ? ? Hp' _|? ? _ Hsc|? ? _ Hop|? ? o' d _ Hl' _ He| |]; subst.
  - congruence.
  - discriminate Hsc.
  - rewrite Hl in Hop. congruence.
  - assert (o' = o) by congruence. subst o'. eauto.
Qed.

Lemma own_parent_container (h : heap) self v :
  scalar v = false -> (forall l, v <> VObj l) -> own_parent h self v = false.
Proof.
  intros Hs Hv. unfold own_parent. destruct (h !! self) as [o|]; [|reflexivity].
  destruct v; try discriminate Hs; try (now rewrite andb_false_r).
  now destruct (Hv l).
Qed.

Lemma exports_parent_inv (h : heap) self v v' :
  exports h self v v' ->
  own_parent h self v = true ->
  exists n, v' = VStr n /\ getattr v "name" h = (h, Ok (VStr n)).
Proof.
  intros H Hp.
  inversion H as [? ? n _ Hn|? ? Hp' _|? ? Hp' _|? ? ? ? Hp' _ _ _|? k items ? _|? d ? _];
    subst; try congruence.
  - eauto.
  - rewrite own_parent_container in Hp; [discriminate|reflexivity|congruence].
  - rewrite own_parent_container in Hp; [discriminate|reflexivity|congruence].
Qed.

Lemma exports_scalar_inv (h : heap) self v v' :
  exports h self v v' ->
  own_parent h self v = false -> scalar v = true -> v' = v.
Proof.
  intros H Hp Hs.
  inversion H; subst; try congruence; try discriminate Hs.
Qed.

(** Reading an exported mapping back, entry by entry. *)
Lemma exports_entries_get (h : heap) self d d' k v :
  exports_entries h self d d' ->
  pydict_get d k = Some v ->
  exists v', pydict_get d' k = Some v' /\ exports h self v v'.
Proof.
  induction 1 as [|self k0 v0 v0' r r' Hv Hr IH]; [discriminate|].
  unfold pydict_get in *. simpl. destruct (py_eq k k0).
  - intros Hk. injection Hk as <-. eauto.
  - exact IH.
Qed.

Lemma exported_get (o : object) a v :
  is_MixinCollection (class_of o) = false ->
  attr_get (dict o) a = Some v ->
  pydict_get (exported o) (VStr a) = Some v.
Proof.
  intros Hm. unfold exported, attr_get, pydict_get. rewrite Hm.
  induction (dict o) as [|[k w] d IH]; simpl; [discriminate|].
  destruct (String.eqb a k); [auto|exact IH].
Qed.

(** C6. On any heap that is tidy under some rank (below a ranked
    instance the references lead to instances of lower rank, but for
    those from an item to its parent, and the parents have names), the
    export of a ranked schema that holds a table under the table's name
    returns, for every allowance of nested calls from the rank of the
    schema up, one and the same mapping. That mapping is the one the
    specification gives: every value is exported from the entity that
    holds it, a reference to the parent of that entity as the name of
    the parent, at whatever depth in lists, tuples and dicts. In it the
    table is found under its name and reads back that name; [parent],
    and every other attribute of the table that refers to the schema,
    reads the name of the schema; and every attribute of the table is
    exported as the specification says. *)
Theorem export_round_trip (h : heap) (rank : loc -> nat) (s ts t : loc)
    (os ots ot : object) (sname tname : string) :
  tidy h rank = true ->
  0 < rank s ->
  h !! s = Some os -> class_of os = CSchema ->
  attr_get (dict os) "name" = Some (VStr sname) ->
  attr_get (dict os) "tables" = Some (VObj ts) ->
  h !! ts = Some ots -> class_of ots = CTables ->
  pydict_get (fields ots) (VStr tname) = Some (VObj t) ->
  h !! t = Some ot -> class_of ot = CTable ->
  attr_get (dict ot) "name" = Some (VStr tname) ->
  attr_get (dict ot) "parent" = Some (VObj s) ->
  exists d tables table,
    (forall fuel, rank s <= fuel -> as_dict fuel h s = Some (Ok (VDict d))) /\
    exports_entries h s (exported os) d /\
    item (VDict d) "tables" = Some tables /\
    item tables tname = Some table /\
    item table "name" = Some (VStr tname) /\
    item table "parent" = Some (VStr sname) /\
    (forall a, attr_get (dict ot) a = Some (VObj s) ->
               item table a = Some (VStr sname)) /\
    (forall a v, attr_get (dict ot) a = Some v ->
                 exists v', item table a = Some v' /\ exports h t v v').
Proof.
  intros Ht Hr Hs Hcs Hsn Hst Hts Hcts Hk Htt Hct Htn Htp.
  destruct (as_dict_tidy h rank s os Ht Hs) as (d & Hed & Hrun);
    [now rewrite Hcs|exact Hr|].
  assert (Hnos : own_parent h s (VObj ts) = false)
    by (unfold own_parent; now rewrite Hs, Hcs).
  assert (Hnots : own_parent h ts (VObj t) = false)
    by (unfold own_parent; now rewrite Hts, Hcts).
  assert (Hpar : forall v, own_parent h t v = py_is v (VObj s)).
  { intros v. unfold own_parent, attr_get_default. now rewrite Htt, Hct, Htp. }
  (* the tables of the schema *)
  destruct (exports_entries_get h s _ d (VStr "tables") (VObj ts) Hed)
    as (tables & Hgt & Het);
    [apply exported_get; [now rewrite Hcs|exact Hst]|].
  destruct (exports_instance_inv h s ts ots tables Het Hnos Hts)
    as (dts & -> & Hes); [now rewrite Hcts|].
  assert (Hex : exported ots = fields ots) by (unfold exported; now rewrite Hcts).
  rewrite Hex in Hes.
  (* the table *)
  destruct (exports_entries_get h ts _ dts (VStr tname) (VObj t) Hes Hk)
    as (table & Hgtab & Hetab).
  destruct (exports_instance_inv h ts t ot table Hetab Hnots Htt)
    as (dt & -> & Het'); [now rewrite Hct|].
  assert (Hattr : forall a v, attr_get (dict ot) a = Some v ->
            exists v', item (VDict dt) a = Some v' /\ exports h t v v').
  { intros a v Ha.
    apply (exports_entries_get h t _ dt (VStr a) v Het').
    apply exported_get; [now rewrite Hct|exact Ha]. }
  assert (Hget : getattr (VObj s) "name" h = (h, Ok (VStr sname))).
  { unfold getattr, bind, deref. rewrite Hs. cbn [fst snd]. rewrite Hcs.
    cbn. unfold Descriptor__get__, bind.
    rewrite (dict_of_some _ _ _ Hs) by (now rewrite Hcs).
    cbn [fst snd _attribute]. unfold attr_get_default. now rewrite Hsn. }
  assert (Hschema : forall a, attr_get (dict ot) a = Some (VObj s) ->
            item (VDict dt) a = Some (VStr sname)).
  { intros a Ha. destruct (Hattr a _ Ha) as (v' & Hg & Hev). rewrite Hg. f_equal.
    destruct (exports_parent_inv h t _ _ Hev) as (n & -> & Hn).
    - rewrite Hpar. simpl. apply Nat.eqb_refl.
    - congruence. }
  exists d, (VDict dts), (VDict dt).
  split; [exact Hrun|]. split; [exact Hed|].
  split; [exact Hgt|]. split; [exact Hgtab|].
  split.
  { destruct (Hattr "name" _ Htn) as (v' & Hg & Hev). rewrite Hg. f_equal.
    apply (exports_scalar_inv h t _ _ Hev); [|reflexivity].
    now rewrite Hpar. }
  split; [exact (Hschema "parent" Htp)|].
  split; [exact Hschema|exact Hattr].
Qed.

Lemma export_round_trip_witness :
  exists d tables table,
    as_dict 5 built 0 = Some (Ok (VDict d)) /\
    item (VDict d) "tables" = Some tables /\
    item tables "table_1" = Some table /\
    item table "name" = Some (VStr "table_1") /\
    item table "parent" = Some (VStr "main") /\
    item table "schema" = Some (VStr "main").
Proof.
  destruct (export_round_trip built built_rank 0 1 7
              (mkObject CSchema
                 [("name", VStr "main"); ("tables", VObj 1); ("indexes", VObj 2);
                  ("views", VObj 3); ("triggers", VObj 4)] [])
              (mkObject CTables [] [(VStr "table_1", VObj 7)])
              (mkObject CTable
                 [("name", VStr "table_1"); ("schema", VObj 0); ("parent", VObj 0);
                  ("columns", VObj 8); ("row_id", VBool true)] [])
              "main" "table_1")
    as (d & tables & table & Hrun & _ & Ht & Htab & Hname & Hparent & Hschema & _);
    try reflexivity.
  - unfold built_rank. simpl. lia.
  - exists d, tables, table.
    split; [apply Hrun; reflexivity|]. split; [exact Ht|]. split; [exact Htab|].
    split; [exact Hname|]. split; [exact Hparent|].
    apply Hschema. reflexivity.
Defined.

(** Without the fuel to reach the leaves the bound is hit, and nothing
    else: the result does not depend on the fuel once there is enough. *)
Example export_needs_fuel :
  as_dict 4 built 0 = None /\ as_dict 5 built 0 = as_dict 50 built 0.
Proof. split; reflexivity. Qed.

(** ** The connection manager and the in-memory marker *)

(** The guard of [_check_path] does hold back the marker itself. *)
Lemma check_path_marker (env : Engine.os) (self : Engine.SQLite) :
  Engine._check_path env self ":memory:" = ([], inr tt).
Proof.
  unfold Engine._check_path. simpl. now rewrite andb_false_r.
Qed.

(** C3. [_check_path] is handed the resolved path, never the database
    string. As [realpath] gives an absolute path, the marker [:memory:]
    does not come through as itself: with [ensure_folder] enabled the
    constructor runs [ensure_folder] on the resolved path, which probes
    the containing directory and creates it when the probe fails. *)
Theorem memory_marker_reaches_ensure_folder (env : Engine.os) (uri : bool) :
  (forall p, exists r, Engine.realpath env p = String "/" r) ->
  let file_path := Engine.realpath env ":memory:" in
  let folder := Engine.dirname env (Engine.realpath env file_path) in
  exists evs r,
    Engine.__init__ env ":memory:" uri true = (evs, r) /\
    Engine._check_path env (Engine.mkSQLite ":memory:" uri true file_path) file_path
      = Engine.ensure_folder env file_path /\
    In (Engine.Exists folder) evs /\
    (Engine.path_exists env folder = false -> In (Engine.MakeDirs folder) evs).
Proof.
  intros Habs file_path folder.
  assert (Hne : String.eqb file_path ":memory:" = false).
  { subst file_path. destruct (Habs ":memory:") as (r & ->). reflexivity. }
  assert (Hpath : Engine._get_file_path env ":memory:" uri = inr file_path).
  { unfold Engine._get_file_path. simpl. now rewrite andb_false_r. }
  assert (Hcheck :
    Engine._check_path env (Engine.mkSQLite ":memory:" uri true file_path) file_path
    = Engine.ensure_folder env file_path).
  { unfold Engine._check_path. simpl. now rewrite Hne. }
  assert (Hev : In (Engine.Exists folder) (fst (Engine.ensure_folder env file_path)) /\
                (Engine.path_exists env folder = false ->
                 In (Engine.MakeDirs folder) (fst (Engine.ensure_folder env file_path)))).
  { unfold Engine.ensure_folder, Engine.make_dirs. fold folder.
    destruct (Engine.path_exists env folder); simpl; split; auto; congruence. }
  destruct Hev as (Hprobe & Hmake).
  unfold Engine.__init__. rewrite Hpath. unfold Engine.acquire.
  cbn [Engine._file_path Engine._database]. rewrite Hcheck.
  destruct (snd (Engine.ensure_folder env file_path));
    [|destruct (Engine.connect env ":memory:")]; eexists; eexists;
    (split; [reflexivity|]); (split; [reflexivity|]);
    split; try intros Hmiss; rewrite !in_app_iff; simpl; auto 10.
Qed.

Lemma memory_marker_reaches_ensure_folder_witness :
  exists evs r,
    Engine.__init__ sample_os ":memory:" false true = (evs, r) /\
    In (Engine.Exists "/srv/app") evs.
Proof.
  destruct (memory_marker_reaches_ensure_folder sample_os false)
    as (evs & r & Hinit & _ & Hprobe & _).
  - intros p. unfold sample_os. cbn [Engine.realpath].
    unfold Engine.posix_realpath, Engine.startswith.
    destruct p as [|c p]; [eexists; reflexivity|].
    cbn [String.prefix]. destruct (ascii_dec "/" c) as [<-|Hc].
    + destruct p; eexists; reflexivity.
    + eexists. reflexivity.
  - exists evs, r. split; [exact Hinit|exact Hprobe].
Defined.

(** The same call, evaluated: the probe of [/srv/app] sits between the
    log line and the connection. *)
Example memory_marker_trace :
  fst (Engine.__init__ sample_os ":memory:" false true)
  = [ Engine.LockAcquire;
      Engine.LogDebug "Connecting with the SQLite database '/srv/app/:memory:'...";
      Engine.Exists "/srv/app";
      Engine.Connect ":memory:";
      Engine.LogDebug "Successfully connected with the SQLite database '/srv/app/:memory:'.";
      Engine.LockRelease ].
Proof. reflexivity. Qed.

(** * Further properties *)

(** ** Keyed collections: lookups, growth, uniqueness *)

(** X1. [Collection.get] on a collection leaves the heap as it was. For a
    key that can be hashed it returns the value the key is bound to;
    when the key is not bound, and is no instance, it returns the
    default where [_get_by_key] raises the missing-key error. A key
    without a hash raises [TypeError] in both. *)
Theorem get_value_or_default (h : heap) (c : loc) (o : object) (key default : val) :
  h !! c = Some o ->
  is_Collection (class_of o) = true ->
  (forall v, hashable h key = true -> pydict_get (fields o) key = Some v ->
             Collection.get c key default h = (h, Ok v) /\
             Collection._get_by_key c key h = (h, Ok v)) /\
  (hashable h key = true -> is_instance key = false ->
   pydict_get (fields o) key = None ->
   Collection.get c key default h = (h, Ok default) /\
   Collection._get_by_key c key h = (h, Raise (MissingKeyError key))) /\
  (hashable h key = false ->
   Collection.get c key default h = (h, Raise TypeError) /\
   Collection._get_by_key c key h = (h, Raise TypeError)).
Proof.
  intros H Hc. pose proof (get_by_key_unfold h c o key H Hc) as Hk.
  unfold Collection.get. rewrite Hk.
  split; [|split].
  - intros v Hh Hv. now rewrite Hh, Hv.
  - intros Hh _ Hn. now rewrite Hh, Hn.
  - intros Hh. now rewrite Hh.
Qed.

Lemma get_value_or_default_witness :
  Collection.get 0 (VStr "a") (VInt 7) sample_tables = (sample_tables, Ok (VObj 1)) /\
  Collection.get 0 (VStr "zzz") (VInt 7) sample_tables = (sample_tables, Ok (VInt 7)) /\
  Collection._get_by_key 0 (VStr "zzz") sample_tables
    = (sample_tables, Raise (MissingKeyError (VStr "zzz"))) /\
  Collection.get 0 (VSeq KList [VInt 1]) VNone sample_tables
    = (sample_tables, Raise TypeError).
Proof.
  destruct (get_value_or_default sample_tables 0
              (mkObject CTables [] [(VStr "a", VObj 1)]) (VStr "a") (VInt 7)
              eq_refl eq_refl) as (Hb & _ & _).
  destruct (get_value_or_default sample_tables 0
              (mkObject CTables [] [(VStr "a", VObj 1)]) (VStr "zzz") (VInt 7)
              eq_refl eq_refl) as (_ & Hm & _).
  destruct (get_value_or_default sample_tables 0
              (mkObject CTables [] [(VStr "a", VObj 1)]) (VSeq KList [VInt 1]) VNone
              eq_refl eq_refl) as (_ & _ & Ht).
  split; [exact (proj1 (Hb (VObj 1) eq_refl eq_refl))|].
  split; [exact (proj1 (Hm eq_refl eq_refl eq_refl))|].
  split; [exact (proj2 (Hm eq_refl eq_refl eq_refl))|exact (proj1 (Ht eq_refl))].
Defined.

(** [_update_field] on any collection, in one equation. *)
Lemma update_field_unfold (h : heap) c o key value :
  h !! c = Some o -> is_Collection (class_of o) = true ->
  Collection._update_field c key value h =
    match snd (Collection._check_item (fields o) key value h) with
    | Ok _ =>
        (<[c := mkObject (class_of o) (dict o) (fields o ++ [(key, value)])]> h, Ok tt)
    | Raise e => (h, Raise e)
    end.
Proof.
  intros H Hc. unfold Collection._update_field, bind.
  rewrite (self_collection_some _ _ _ H Hc).
  destruct (Collection._check_item (fields o) key value h) as [h1 [item|e]] eqn:E;
    pose proof (reads_check_item _ _ _ _ _ _ E) as ->; [|reflexivity].
  destruct (check_item_ok _ _ _ _ _ _ E) as (-> & _ & Hk & _). simpl.
  unfold pydict_set. rewrite dict_set_fresh by (now apply dict_mem_false).
  now apply write_fields_some.
Qed.

Lemma mutate_entries (h h' : heap) (c : loc) (o : object) (m : mutation)
    (r : result unit) :
  h !! c = Some o ->
  is_Collection (class_of o) = true ->
  mutate c m h = (h', r) ->
  let extra := match m, r with
               | Insert key value, Ok _ => [(key, value)]
               | _, _ => []
               end in
  h' !! c = Some (mkObject (class_of o) (dict o) (fields o ++ extra)) /\
  (forall l, l <> c -> h' !! l = h !! l) /\
  match m with
  | Insert _ _ => True
  | _ => exists what, r = Raise (IllegalOperation (UnsupportedMethod what))
  end.
Proof.
  intros H Hc Hm.
  assert (Hsame : h !! c = Some (mkObject (class_of o) (dict o) (fields o ++ [])))
    by (rewrite app_nil_r; now destruct o).
  assert (Hclosed : forall what,
            (do _ <- Collection.self_collection c;
             raise (IllegalOperation (UnsupportedMethod what))) h
            = (h, @Raise unit (IllegalOperation (UnsupportedMethod what)))).
  { intros what. unfold bind. now rewrite (self_collection_some _ _ _ H Hc). }
  destruct m as [key value| | |]; simpl in Hm.
  - unfold Collection.insert, bind in Hm.
    rewrite (self_collection_some _ _ _ H Hc) in Hm.
    destruct (is_MixinCollection (class_of o)).
    + unfold Collection.MixinCollection_insert in Hm.
      rewrite (update_field_unfold _ _ _ _ _ H Hc) in Hm.
      destruct (snd (Collection._check_item (fields o) key value h));
        injection Hm as <- <-; simpl.
      * split; [apply list_lookup_insert_eq; eapply lookup_lt_Some; eauto|].
        split; [|exact I]. intros l Hl. now apply list_lookup_insert_ne.
      * auto.
    + injection Hm as <- <-. simpl. auto.
  - unfold Collection.update in Hm. rewrite Hclosed in Hm.
    injection Hm as <- <-. simpl. eauto.
  - unfold Collection.clear in Hm. rewrite Hclosed in Hm.
    injection Hm as <- <-. simpl. eauto.
  - unfold Collection.remove in Hm. rewrite Hclosed in Hm.
    injection Hm as <- <-. simpl. eauto.
Qed.

(** X2. Whatever entry point is called on a collection, and however the call
    ends, the entries it held are still there, in place: at most one
    pair is appended, by an [insert] that returns. Nothing else in the
    heap moves. *)
Theorem entries_only_grow (h h' : heap) (c : loc) (o : object) (m : mutation)
    (r : result unit) :
  h !! c = Some o ->
  is_Collection (class_of o) = true ->
  mutate c m h = (h', r) ->
  let extra := match m, r with
               | Insert key value, Ok _ => [(key, value)]
               | _, _ => []
               end in
  h' !! c = Some (mkObject (class_of o) (dict o) (fields o ++ extra)) /\
  (forall l, l <> c -> h' !! l = h !! l) /\
  match m with
  | Insert _ _ => True
  | _ => exists what, r = Raise (IllegalOperation (UnsupportedMethod what))
  end.
Proof. apply mutate_entries. Qed.

Lemma entries_only_grow_witness :
  exists h',
    Collection.insert 0 (VStr "b") (VObj 2) sample_tables = (h', Ok tt) /\
    h' !! 0 = Some (mkObject CTables [] [(VStr "a", VObj 1); (VStr "b", VObj 2)]) /\
    exists what,
      snd (Collection.remove 0 h') = Raise (IllegalOperation (UnsupportedMethod what)).
Proof.
  destruct (Collection.insert 0 (VStr "b") (VObj 2) sample_tables) as [h' r] eqn:E.
  pose proof (entries_only_grow sample_tables h' 0
                (mkObject CTables [] [(VStr "a", VObj 1)])
                (Insert (VStr "b") (VObj 2)) r eq_refl eq_refl E) as (H0 & _ & _).
  assert (Hr : r = Ok tt) by (vm_compute in E; now injection E as _ <-).
  subst r. exists h'. split; [reflexivity|]. split; [exact H0|].
  destruct (Collection.remove 0 h') as [h2 r2] eqn:E2.
  destruct (entries_only_grow h' h2 0 _ Remove r2 H0 eq_refl E2)
    as (_ & _ & what & ->).
  exists what. reflexivity.
Defined.

(** ** Uniqueness of the entries *)

Lemma unique_entries_nil : unique_entries [].
Proof. intros i k v H. destruct i; discriminate H. Qed.

Lemma unique_entries_snoc (f : list (val * val)) k v :
  unique_entries f ->
  pydict_mem f k = false -> py_in v (Collection.values f) = false ->
  unique_entries (f ++ [(k, v)]).
Proof.
  intros Hu Hk Hv i k' v' Hi.
  destruct (decide (i < length f)) as [Hlt|Hge].
  - rewrite lookup_app_l in Hi by exact Hlt.
    rewrite take_app_le by lia. now apply Hu.
  - assert (i = length f).
    { apply lookup_lt_Some in Hi. rewrite length_app in Hi. simpl in Hi. lia. }
    subst i. rewrite lookup_app_r, Nat.sub_diag in Hi by lia.
    injection Hi as <- <-.
    rewrite take_app_le, firstn_all by lia. auto.
Qed.

Lemma unique_entries_prefix (f g : list (val * val)) :
  unique_entries (f ++ g) -> unique_entries f.
Proof.
  intros Hu i k v Hi.
  pose proof (lookup_lt_Some _ _ _ Hi) as Hlt.
  specialize (Hu i k v). rewrite lookup_app_l in Hu by exact Hlt.
  rewrite take_app_le in Hu by lia. now apply Hu.
Qed.

Lemma unique_entries_next (f g : list (val * val)) k v :
  unique_entries (f ++ (k, v) :: g) ->
  pydict_mem f k = false /\ py_in v (Collection.values f) = false.
Proof.
  intros Hu. specialize (Hu (length f) k v).
  rewrite lookup_app_r, Nat.sub_diag in Hu by lia.
  rewrite take_app_le, firstn_all in Hu by lia. now apply Hu.
Qed.

(** *** Items that compare by [py_eq] *)

Lemma collection_at_same_classes (h h' : heap) :
  (forall l, class_of <$> h' !! l = class_of <$> h !! l) ->
  forall v, Collection.collection_at h' v = Collection.collection_at h v.
Proof.
  intros Hc [| | | |l| |]; try reflexivity. simpl. specialize (Hc l).
  destruct (h' !! l), (h !! l); simpl in Hc; try congruence.
  injection Hc as ->. reflexivity.
Qed.

Lemma flat_same_classes (h h' : heap) :
  (forall l, class_of <$> h' !! l = class_of <$> h !! l) ->
  forall v, flat h' v = flat h v.
Proof.
  intros Hc v. unfold flat. now rewrite (collection_at_same_classes h h' Hc).
Qed.

Lemma comparable_same_classes (h h' : heap) items :
  (forall l, class_of <$> h' !! l = class_of <$> h !! l) ->
  comparable h items -> comparable h' items.
Proof.
  intros Hc Hg. unfold comparable in *. eapply Forall_impl; [exact Hg|].
  intros kv [Hk Hv]. cbv beta in *.
  now rewrite (hashable_same_classes h h' Hc), (flat_same_classes h h' Hc).
Qed.

Lemma comparable_values (h : heap) items :
  comparable h items ->
  Forall (fun e => flat h e = true) (Collection.values items).
Proof.
  unfold comparable, Collection.values. intros Hg. rewrite Forall_fmap.
  eapply Forall_impl; [exact Hg|]. now intros kv [_ Hv].
Qed.

Lemma scalar_hashable (h : heap) k : scalar k = true -> hashable h k = true.
Proof. destruct k; try discriminate; reflexivity. Qed.

Lemma plain_items_comparable (h : heap) (rest : list object) items :
  plain_items h items = true -> comparable (h ++ rest) items.
Proof.
  unfold plain_items, comparable. rewrite forallb_forall, List.Forall_forall.
  intros Hp kv Hin. apply Hp, andb_true_iff in Hin as [Hk Hv].
  split; [now apply scalar_hashable|].
  destruct (snd kv) as [| | | |l| |]; try reflexivity; try discriminate Hv.
  simpl in *. destruct (h !! l) as [o|] eqn:Ho; [|discriminate].
  rewrite (lookup_app_l_Some _ _ _ _ Ho).
  now destruct (is_Collection (class_of o)).
Qed.

(** The name of an item that is no collection: reading [key], then
    [name], through the slots does not raise. *)
Lemma getattr_item (h : heap) l o a :
  h !! l = Some o -> is_Collection (class_of o) = false ->
  a = "key" \/ a = "name" ->
  (exists v, getattr (VObj l) a h = (h, Ok v)) \/
  getattr (VObj l) a h = (h, Raise AttributeError).
Proof.
  intros Ho Hc Ha. unfold getattr, bind, deref. rewrite Ho. cbn [fst snd].
  assert (Hd : __dict__ (VObj l) h = (h, Ok (l, dict o))).
  { unfold __dict__, bind, deref. rewrite Ho. cbn [fst snd].
    now destruct (class_of o). }
  destruct (slot_of (class_of o) a) as [d|] eqn:Es.
  - left.
    assert (Hk : kind_of d <> SQLiteEngine).
    { destruct Ha as [-> | ->]; destruct (class_of o); try discriminate Es;
        cbv in Es; injection Es as <-; discriminate. }
    unfold __get__, Toggle_get_value, Descriptor__get__, bind.
    destruct (kind_of d); try congruence; rewrite Hd; cbn [fst snd];
      try (eexists; reflexivity);
      destruct (_fallback d); try (eexists; reflexivity);
      destruct (negb (attr_mem (dict o) (_attribute d))); eexists; reflexivity.
  - rewrite Hc. destruct (attr_get (dict o) a); [left; eexists|right]; reflexivity.
Qed.

Lemma item_name_ok (h : heap) (v : val) :
  Collection.collection_at h v = None ->
  exists n, Collection._item_name v h = (h, Ok n).
Proof.
  intros Hv.
  assert (Hcases : forall a, a = "key" \/ a = "name" ->
            (exists x, getattr v a h = (h, Ok x)) \/
            getattr v a h = (h, Raise AttributeError)).
  { intros a Ha. destruct v as [| | | |l| |]; try (right; reflexivity).
    simpl in Hv. destruct (h !! l) as [o|] eqn:Ho.
    - apply (getattr_item h l o a Ho); [|exact Ha].
      now destruct (is_Collection (class_of o)).
    - right. unfold getattr, bind, deref. now rewrite Ho. }
  unfold Collection._item_name, Collection.hasattr, bind.
  destruct (Hcases "key" (or_introl eq_refl)) as [[x Hx]|Hx]; rewrite Hx.
  - rewrite Hx. eauto.
  - destruct (Hcases "name" (or_intror eq_refl)) as [[y Hy]|Hy]; rewrite Hy.
    + rewrite Hy. eauto.
    + unfold ret. eauto.
Qed.

(** On comparable entries the two checks are [pydict_mem] and [py_in],
    and the only errors are the two duplicate errors. *)
Lemma check_item_comparable (f : pydict) k v (h : heap) :
  comparable h (f ++ [(k, v)]) ->
  snd (Collection._check_item f k v h)
  = if pydict_mem f k then Raise (DuplicateKeyError k)
    else if py_in v (Collection.values f) then Raise (DuplicateItemError v)
    else Ok (k, v).
Proof.
  intros Hc. unfold comparable in Hc. apply Forall_app in Hc as [Hf Hkv].
  apply Forall_singleton in Hkv as [Hk Hv]. simpl in Hk, Hv.
  rewrite check_item_unfold, Hk. cbn [snd].
  destruct (pydict_mem f k); [reflexivity|].
  rewrite (contains_plain v (Collection.values f) h Hv (comparable_values _ _ Hf)).
  cbn [snd]. destruct (py_in v (Collection.values f)); [|reflexivity].
  destruct (item_name_ok h v (flat_at _ _ Hv)) as [n ->]. reflexivity.
Qed.

(** [_update_fields] returns exactly when the pairs extend the entries
    without a repeated key or value, and then it has appended them. *)
Lemma update_fields_ok (m : list (val * val)) :
  forall (h : heap) c o,
    h !! c = Some o -> is_Collection (class_of o) = true ->
    comparable h (fields o ++ m) ->
    unique_entries (fields o ++ m) ->
    Collection._update_fields c m h
    = (<[c := mkObject (class_of o) (dict o) (fields o ++ m)]> h, Ok tt).
Proof.
  induction m as [|[k v] m IH]; intros h c o H Hc Hg Hu.
  - simpl. unfold ret. rewrite app_nil_r.
    rewrite list_insert_id; [reflexivity|]. now destruct o.
  - simpl. unfold bind.
    destruct (unique_entries_next _ _ _ _ Hu) as (Hk & Hv).
    assert (Hg1 : comparable h (fields o ++ [(k, v)])).
    { unfold comparable in *. rewrite Forall_app in *.
      destruct Hg as [Hf Hm]. split; [exact Hf|].
      apply Forall_singleton. now apply Forall_cons in Hm as [Hkv _]. }
    rewrite (update_field_unfold _ _ _ _ _ H Hc),
      (check_item_comparable _ _ _ _ Hg1), Hk, Hv.
    set (o' := mkObject (class_of o) (dict o) (fields o ++ [(k, v)])).
    assert (H' : <[c := o']> h !! c = Some o')
      by (apply list_lookup_insert_eq; eapply lookup_lt_Some; eauto).
    rewrite (IH _ _ o' H' Hc).
    + simpl. rewrite list_insert_insert_eq, <- app_assoc. reflexivity.
    + simpl. rewrite <- app_assoc.
      exact (comparable_same_classes h _ _ (same_classes_insert h c o o' H eq_refl) Hg).
    + simpl. now rewrite <- app_assoc.
Qed.

Lemma update_fields_inv (m : list (val * val)) :
  forall (h h' : heap) c o,
    h !! c = Some o -> is_Collection (class_of o) = true ->
    unique_entries (fields o) ->
    Collection._update_fields c m h = (h', Ok tt) ->
    unique_entries (fields o ++ m).
Proof.
  induction m as [|[k v] m IH]; intros h h' c o H Hc Hu Hr.
  - now rewrite app_nil_r.
  - simpl in Hr. unfold bind in Hr.
    rewrite (update_field_unfold _ _ _ _ _ H Hc) in Hr.
    destruct (Collection._check_item (fields o) k v h) as [h1 [item|e]] eqn:E;
      cbn [snd] in Hr; [|discriminate].
    destruct (check_item_ok _ _ _ _ _ _ E) as (_ & _ & Hk & _ & Hv).
    set (o' := mkObject (class_of o) (dict o) (fields o ++ [(k, v)])) in Hr.
    assert (H' : <[c := o']> h !! c = Some o')
      by (apply list_lookup_insert_eq; eapply lookup_lt_Some; eauto).
    pose proof (IH _ _ _ o' H' Hc (unique_entries_snoc _ _ _ Hu Hk Hv) Hr) as Hu'.
    simpl in Hu'. now rewrite <- app_assoc in Hu'.
Qed.

Lemma update_fields_raise (m : list (val * val)) :
  forall (h h' : heap) c o e,
    h !! c = Some o -> is_Collection (class_of o) = true ->
    comparable h (fields o ++ m) ->
    Collection._update_fields c m h = (h', Raise e) ->
    exists x, e = DuplicateKeyError x \/ e = DuplicateItemError x.
Proof.
  induction m as [|[k v] m IH]; intros h h' c o e H Hc Hg Hr.
  - discriminate Hr.
  - simpl in Hr. unfold bind in Hr.
    assert (Hg1 : comparable h (fields o ++ [(k, v)])).
    { unfold comparable in *. rewrite Forall_app in *.
      destruct Hg as [Hf Hm]. split; [exact Hf|].
      apply Forall_singleton. now apply Forall_cons in Hm as [Hkv _]. }
    rewrite (update_field_unfold _ _ _ _ _ H Hc),
      (check_item_comparable _ _ _ _ Hg1) in Hr.
    destruct (pydict_mem (fields o) k); [injection Hr as _ <-; eauto|].
    destruct (py_in v (Collection.values (fields o))); [injection Hr as _ <-; eauto|].
    set (o' := mkObject (class_of o) (dict o) (fields o ++ [(k, v)])) in Hr.
    assert (H' : <[c := o']> h !! c = Some o')
      by (apply list_lookup_insert_eq; eapply lookup_lt_Some; eauto).
    eapply IH; [exact H'|exact Hc| |exact Hr].
    simpl. rewrite <- app_assoc.
    exact (comparable_same_classes h _ _ (same_classes_insert h c o o' H eq_refl) Hg).
Qed.

Lemma update_collection_ok (h : heap) c o mapping kwargs :
  h !! c = Some o -> is_Collection (class_of o) = true ->
  comparable h (fields o ++ mapping ++ kwargs_items kwargs) ->
  unique_entries (fields o ++ mapping ++ kwargs_items kwargs) ->
  Collection._update_collection c mapping kwargs h
  = (<[c := mkObject (class_of o) (dict o)
             (fields o ++ mapping ++ kwargs_items kwargs)]> h, Ok tt).
Proof.
  intros H Hc Hg Hu. unfold Collection._update_collection, bind.
  rewrite app_assoc in Hu, Hg.
  assert (Hg0 : comparable h (fields o ++ mapping))
    by (unfold comparable in *; now apply Forall_app in Hg as [Hg _]).
  rewrite (update_fields_ok _ _ _ _ H Hc Hg0 (unique_entries_prefix _ _ Hu)).
  set (o' := mkObject (class_of o) (dict o) (fields o ++ mapping)).
  assert (H' : <[c := o']> h !! c = Some o')
    by (apply list_lookup_insert_eq; eapply lookup_lt_Some; eauto).
  destruct kwargs as [|kv kwargs].
  - unfold ret. simpl. now rewrite !app_nil_r.
  - fold (kwargs_items (kv :: kwargs)).
    rewrite (update_fields_ok _ _ _ o' H' Hc).
    + simpl. now rewrite list_insert_insert_eq, <- !app_assoc.
    + exact (comparable_same_classes h _ _ (same_classes_insert h c o o' H eq_refl) Hg).
    + exact Hu.
Qed.

(** X3. A collection constructor given scalar keys and values that are
    scalars or instances of classes other than collections (the mapping,
    then the keyword pairs) returns exactly when the pairs repeat no key
    and no value; the new collection then holds these pairs, in that
    order; and the only errors it raises are the two duplicate errors. *)
Theorem Collection_new_unique (h : heap) (c : cls) (mapping : list (val * val))
    (kwargs : attrs) :
  is_Collection c = true ->
  let items := mapping ++ kwargs_items kwargs in
  plain_items h items = true ->
  (unique_entries items ->
     Collection.Collection_new c mapping kwargs h
     = (h ++ [mkObject c [] items], Ok (length h))) /\
  (forall h' l,
     Collection.Collection_new c mapping kwargs h = (h', Ok l) ->
     unique_entries items) /\
  (forall h' e,
     Collection.Collection_new c mapping kwargs h = (h', Raise e) ->
     exists x, e = DuplicateKeyError x \/ e = DuplicateItemError x).
Proof.
  intros Hc items Hp.
  set (o0 := mkObject c [] []).
  assert (H0 : (h ++ [o0]) !! length h = Some o0)
    by (now rewrite lookup_app_r, Nat.sub_diag by lia).
  assert (Hg : comparable (h ++ [o0]) items)
    by (now apply plain_items_comparable).
  assert (Hgm : comparable (h ++ [o0]) mapping)
    by (unfold comparable, items in *; now apply Forall_app in Hg as [Hg _]).
  assert (Hrun : Collection.Collection_new c mapping kwargs h
                 = match Collection._update_collection (length h) mapping kwargs
                           (h ++ [o0]) with
                   | (h', Ok _) => (h', Ok (length h))
                   | (h', Raise e) => (h', Raise e)
                   end)
    by reflexivity.
  split; [|split].
  - intros Hu. rewrite Hrun.
    rewrite (update_collection_ok _ _ o0 _ _ H0 Hc Hg Hu). simpl.
    now rewrite insert_app_r_alt, Nat.sub_diag by lia.
  - intros h' l Hr. rewrite Hrun in Hr.
    destruct (Collection._update_collection (length h) mapping kwargs (h ++ [o0]))
      as [h1 [[]|e]] eqn:E; [|discriminate].
    unfold Collection._update_collection, bind in E.
    destruct (Collection._update_fields (length h) mapping (h ++ [o0]))
      as [h2 [[]|e]] eqn:E1; [|discriminate].
    pose proof (update_fields_inv _ _ _ _ o0 H0 Hc unique_entries_nil E1) as Hu1.
    simpl in Hu1.
    rewrite (update_fields_ok _ _ _ o0 H0 Hc Hgm Hu1) in E1. injection E1 as <-.
    set (o1 := mkObject (class_of o0) (dict o0) (fields o0 ++ mapping)) in E.
    assert (H1 : <[length h := o1]> (h ++ [o0]) !! length h = Some o1)
      by (apply list_lookup_insert_eq; eapply lookup_lt_Some; eauto).
    destruct kwargs as [|kv kwargs].
    + subst items. simpl. now rewrite app_nil_r.
    + fold (kwargs_items (kv :: kwargs)) in E.
      exact (update_fields_inv _ _ _ _ o1 H1 Hc Hu1 E).
  - intros h' e Hr. rewrite Hrun in Hr.
    destruct (Collection._update_collection (length h) mapping kwargs (h ++ [o0]))
      as [h1 [[]|e']] eqn:E; [discriminate|]. injection Hr as _ <-.
    unfold Collection._update_collection, bind in E.
    destruct (Collection._update_fields (length h) mapping (h ++ [o0]))
      as [h2 [[]|e1]] eqn:E1.
    + pose proof (update_fields_inv _ _ _ _ o0 H0 Hc unique_entries_nil E1) as Hu1.
      simpl in Hu1.
      rewrite (update_fields_ok _ _ _ o0 H0 Hc Hgm Hu1) in E1. injection E1 as <-.
      set (o1 := mkObject (class_of o0) (dict o0) (fields o0 ++ mapping)) in E.
      assert (H1 : <[length h := o1]> (h ++ [o0]) !! length h = Some o1)
        by (apply list_lookup_insert_eq; eapply lookup_lt_Some; eauto).
      destruct kwargs as [|kv kwargs]; [discriminate|].
      eapply update_fields_raise; [exact H1|exact Hc| |exact E].
      exact (comparable_same_classes (h ++ [o0]) _ _
               (same_classes_insert _ _ o0 o1 H0 eq_refl) Hg).
    + injection E as _ <-.
      eapply update_fields_raise; [exact H0|exact Hc|exact Hgm|exact E1].
Qed.

Lemma Collection_new_unique_witness :
  Collection.Collection_new CColumns [(VStr "a", VObj 1)] [("b", VObj 2)] sample_tables
  = (sample_tables ++ [mkObject CColumns [] [(VStr "a", VObj 1); (VStr "b", VObj 2)]],
     Ok 3).
Proof.
  destruct (Collection_new_unique sample_tables CColumns
              [(VStr "a", VObj 1)] [("b", VObj 2)] eq_refl eq_refl) as (Hok & _ & _).
  apply Hok. intros i k v Hi.
  destruct i as [|[|i]]; [| |destruct i; discriminate Hi];
    injection Hi as <- <-; split; reflexivity.
Defined.

(** X4. An [insert] on a collection whose entries repeat no key and no value
    leaves it so, whether it returns or raises. *)
Theorem insert_keeps_unique (h h' : heap) (c : loc) (o : object) (key value : val)
    (r : result unit) :
  h !! c = Some o ->
  is_Collection (class_of o) = true ->
  unique_entries (fields o) ->
  Collection.insert c key value h = (h', r) ->
  exists o', h' !! c = Some o' /\ unique_entries (fields o').
Proof.
  intros H Hc Hu Hr.
  destruct (mutate_entries h h' c o (Insert key value) r H Hc Hr) as (H' & _ & _).
  eexists. split; [exact H'|]. simpl.
  destruct r as [[]|e]; [|now rewrite app_nil_r].
  unfold Collection.insert, Collection.MixinCollection_insert, bind in Hr.
  rewrite (self_collection_some _ _ _ H Hc) in Hr.
  destruct (is_MixinCollection (class_of o)); [|discriminate].
  rewrite (update_field_unfold _ _ _ _ _ H Hc) in Hr.
  destruct (Collection._check_item (fields o) key value h) as [h1 [item|e]] eqn:E;
    cbn [snd] in Hr; [|discriminate].
  destruct (check_item_ok _ _ _ _ _ _ E) as (_ & _ & Hk & _ & Hv).
  now apply unique_entries_snoc.
Qed.

Lemma insert_keeps_unique_witness :
  exists o',
    fst (Collection.insert 0 (VStr "b") (VObj 2) sample_tables) !! 0 = Some o' /\
    unique_entries (fields o').
Proof.
  destruct (Collection.insert 0 (VStr "b") (VObj 2) sample_tables) as [h' r] eqn:E.
  apply (insert_keeps_unique sample_tables h' 0
           (mkObject CTables [] [(VStr "a", VObj 1)]) (VStr "b") (VObj 2) r
           eq_refl eq_refl); [|exact E].
  intros i k v Hi. destruct i as [|i]; [|destruct i; discriminate Hi].
  injection Hi as <- <-. split; reflexivity.
Defined.

Lemma dict_get_at (f : list (val * val)) :
  forall i k v,
    f !! i = Some (k, v) ->
    pydict_mem (take i f) k = false ->
    py_eq k k = true ->
    pydict_get f k = Some v.
Proof.
  induction f as [|[k' v'] f IH]; intros i k v Hi Hm Hk.
  - destruct i; discriminate Hi.
  - destruct i as [|i].
    + injection Hi as -> ->. unfold pydict_get. simpl. now rewrite Hk.
    + simpl in Hi. unfold pydict_mem, dict_mem in Hm. simpl in Hm.
      unfold pydict_get. simpl.
      destruct (py_eq k k'); [discriminate Hm|].
      apply (IH i); assumption.
Qed.

(** X5. In a collection whose entries repeat no key, the entry at position
    [i] under a string key is the one found by that key and the one
    found by that position, through [_get_by_key], [_get_by_index] and
    the subscript [_get_item] alike. *)
Theorem key_and_index_agree (h : heap) (c : loc) (o : object) (i : nat)
    (k : string) (v : val) :
  h !! c = Some o ->
  is_Collection (class_of o) = true ->
  unique_entries (fields o) ->
  fields o !! i = Some (VStr k, v) ->
  Collection._get_by_key c (VStr k) h = (h, Ok v) /\
  Collection._get_by_index c (Z.of_nat i) h = (h, Ok v) /\
  Collection._get_item c (VStr k) h = (h, Ok v) /\
  Collection._get_item c (VInt (Z.of_nat i)) h = (h, Ok v).
Proof.
  intros H Hc Hu Hi.
  assert (Hkey : Collection._get_by_key c (VStr k) h = (h, Ok v)).
  { unfold Collection._get_by_key, bind.
    rewrite (self_collection_some _ _ _ H Hc).
    destruct (Hu i _ _ Hi) as (Hm & _).
    rewrite (dict_get_at _ _ _ _ Hi Hm) by (simpl; apply String.eqb_refl).
    reflexivity. }
  assert (Hidx : Collection._get_by_index c (Z.of_nat i) h = (h, Ok v)).
  { unfold Collection._get_by_index, bind.
    rewrite (self_collection_some _ _ _ H Hc).
    pose proof (lookup_lt_Some _ _ _ Hi) as Hlt.
    destruct (Z.geb_spec (Z.of_nat i) (Z.of_nat (length (fields o)))); [lia|].
    unfold lift, Collection.list_getitem, Collection.values.
    rewrite length_map.
    destruct (Z.ltb_spec (Z.of_nat i) 0); [lia|].
    destruct (Z.leb_spec (Z.of_nat (length (fields o))) (Z.of_nat i)); [lia|].
    simpl. rewrite Nat2Z.id, list_lookup_fmap. unfold pydict in *.
    rewrite Hi. assert ((Z.of_nat i <? 0)%Z = false) as -> by (apply Z.ltb_ge; lia).
    reflexivity. }
  auto.
Qed.

Lemma key_and_index_agree_witness :
  Collection._get_by_key 8 (VStr "b") built = (built, Ok (VObj 6)) /\
  Collection._get_item 8 (VInt 1) built = (built, Ok (VObj 6)).
Proof.
  destruct (key_and_index_agree built 8
              (mkObject CColumns [] [(VStr "a", VObj 5); (VStr "b", VObj 6)])
              1 "b" (VObj 6) eq_refl eq_refl) as (Hk & _ & _ & Hi).
  - intros i k v Hi. destruct i as [|[|i]]; [| |destruct i; discriminate Hi];
      injection Hi as <- <-; split; reflexivity.
  - reflexivity.
  - split; [exact Hk|exact Hi].
Defined.

(** ** Equality of collections *)

Lemma zip_longest_instances (xs : list val) :
  forall ys,
    forallb is_instance xs = true -> forallb is_instance ys = true ->
    forallb (fun p => py_is (fst p) (snd p)) (zip_longest xs ys) = true <-> xs = ys.
Proof.
  induction xs as [|x xs IH]; intros ys Hx Hy.
  - destruct ys as [|y ys]; simpl; [tauto|].
    simpl in Hy. destruct y; try discriminate Hy. simpl. split; discriminate.
  - simpl in Hx. destruct x as [| | | |a| |]; try discriminate Hx.
    destruct ys as [|y ys]; simpl; [split; discriminate|].
    simpl in Hy. destruct y as [| | | |b| |]; try discriminate Hy. simpl.
    rewrite andb_true_iff, (IH ys Hx Hy), Nat.eqb_eq.
    split; [intros (-> & ->); reflexivity|intros E; injection E; auto].
Qed.

(** X6. [__eq__] between two collections of instances looks at the values
    only: it answers true exactly when both hold the same instances in
    the same order, under whatever keys. *)
Theorem eq_compares_values_only (h : heap) (c1 c2 : loc) (o1 o2 : object) :
  h !! c1 = Some o1 -> is_Collection (class_of o1) = true ->
  h !! c2 = Some o2 -> is_Collection (class_of o2) = true ->
  forallb is_instance (Collection.values (fields o1)) = true ->
  forallb is_instance (Collection.values (fields o2)) = true ->
  exists b,
    Collection__eq__ c1 (VObj c2) h = (h, Ok b) /\
    (b = true <-> Collection.values (fields o1) = Collection.values (fields o2)).
Proof.
  intros H1 Hc1 H2 Hc2 Hi1 Hi2.
  eexists. split.
  - unfold Collection__eq__, values_of, bind, deref.
    rewrite (self_collection_some _ _ _ H1 Hc1), H2. simpl. rewrite Hc2.
    reflexivity.
  - now apply zip_longest_instances.
Qed.

Lemma eq_compares_values_only_witness :
  Collection__eq__ 0 (VObj 1) sample_collections = (sample_collections, Ok true) /\
  Collection__eq__ 0 (VObj 2) sample_collections = (sample_collections, Ok false).
Proof.
  destruct (eq_compares_values_only sample_collections 0 1
              (mkObject CTables [] [(VStr "a", VObj 3); (VStr "b", VObj 4)])
              (mkObject CTables [] [(VStr "x", VObj 3); (VStr "y", VObj 4)])
              eq_refl eq_refl eq_refl eq_refl eq_refl eq_refl) as (b & Hb & Hiff).
  destruct (eq_compares_values_only sample_collections 0 2
              (mkObject CTables [] [(VStr "a", VObj 3); (VStr "b", VObj 4)])
              (mkObject CTables [] [(VStr "a", VObj 3)])
              eq_refl eq_refl eq_refl eq_refl eq_refl eq_refl) as (b' & Hb' & Hiff').
  split.
  - rewrite Hb. f_equal. f_equal. now apply Hiff.
  - rewrite Hb'. f_equal. f_equal. destruct b'; [|reflexivity].
    destruct Hiff' as (Hd & _). discriminate (Hd eq_refl).
Defined.

(** ** Mutable slots *)

Lemma attr_mem_set (d : attrs) a v : attr_mem (attr_set d a v) a = true.
Proof.
  unfold attr_mem, dict_mem, attr_set.
  now rewrite dict_get_set_same by apply String.eqb_refl.
Qed.

Lemma attr_get_set (d : attrs) a v : attr_get_default (attr_set d a v) a = v.
Proof.
  unfold attr_get_default, attr_get, attr_set.
  now rewrite dict_get_set_same by apply String.eqb_refl.
Qed.

Lemma attr_get_pop (d : attrs) a :
  NoDup (map fst d) -> attr_get (attr_pop d a) a = None.
Proof.
  unfold attr_get, attr_pop.
  induction d as [|[k v] d IH]; intros Hn; [reflexivity|].
  simpl in *. apply NoDup_cons in Hn as (Hk & Hn).
  destruct (String.eqb a k) eqn:E.
  - apply String.eqb_eq in E. subst k. clear IH Hn.
    induction d as [|[k' v'] d IH]; [reflexivity|]. simpl in *.
    destruct (String.eqb_spec a k') as [->|_].
    + exfalso. apply Hk. now left.
    + apply IH. intros Hin. apply Hk. now right.
  - simpl. rewrite E. now apply IH.
Qed.

(** X7. A mutable slot without fallback ([Descriptor], [AnyVar],
    [StringVar], [BoolVar]): an assignment whose value passes the check
    of the class is stored, over any earlier value, and read back; one
    whose value fails raises and changes nothing; deletion never raises
    and leaves the slot reading [None]. *)
Theorem mutable_slot_round_trip (h : heap) (d : slot) (l : loc) (o : object) :
  plain_mutable (kind_of d) = true ->
  h !! l = Some o ->
  has_dict (class_of o) = true ->
  NoDup (map fst (dict o)) ->
  (forall v v', validate d h v = Ok v' ->
     exists h',
       __set__ d (VObj l) v h = (h', Ok tt) /\
       __get__ d (VObj l) h' = (h', Ok v')) /\
  (forall v e, validate d h v = Raise e -> __set__ d (VObj l) v h = (h, Raise e)) /\
  (exists h',
     __delete__ d (VObj l) h = (h', Ok tt) /\
     __get__ d (VObj l) h' = (h', Ok VNone)).
Proof.
  intros Hk H Hd Hn.
  assert (Hget : forall h0 o0, h0 !! l = Some o0 -> has_dict (class_of o0) = true ->
            __get__ d (VObj l) h0 = (h0, Ok (attr_get_default (dict o0) (_attribute d)))).
  { intros h0 o0 H0 Hd0.
    assert (Hg : __get__ d (VObj l) h0 = Descriptor__get__ d (VObj l) h0)
      by (unfold __get__; destruct (kind_of d); try discriminate Hk; reflexivity).
    rewrite Hg. unfold Descriptor__get__, bind.
    now rewrite (dict_of_some _ _ _ H0 Hd0). }
  assert (Hset : forall v, __set__ d (VObj l) v h
            = match validate d h v with
              | Ok v' =>
                  (<[l := mkObject (class_of o) (attr_set (dict o) (_attribute d) v')
                            (fields o)]> h, Ok tt)
              | Raise e => (h, Raise e)
              end).
  { intros v. unfold __set__, validate, AnyVar__set__, bind, _check_value.
    destruct (kind_of d) eqn:Ek; try discriminate Hk; simpl;
      try (now apply Descriptor_set_some);
      match goal with
      | |- context [match ?r with Ok _ => _ | Raise _ => _ end] =>
          destruct r; [now apply Descriptor_set_some|reflexivity]
      end. }
  assert (Hlt : l < length h) by (eapply lookup_lt_Some; eauto).
  split; [|split].
  - intros v v' Hv. rewrite Hset, Hv. eexists. split; [reflexivity|].
    erewrite Hget; [|now apply list_lookup_insert_eq|exact Hd].
    simpl. now rewrite attr_get_set.
  - intros v e Hv. now rewrite Hset, Hv.
  - assert (Hi : immutable (kind_of d) = false)
      by (destruct (kind_of d); try discriminate Hk; reflexivity).
    unfold __delete__. rewrite Hi. unfold Descriptor__delete__, bind.
    rewrite (dict_of_some _ _ _ H Hd). simpl.
    destruct (attr_mem (dict o) (_attribute d)) eqn:Hm.
    + rewrite (write_dict_some _ _ _ _ H). eexists. split; [reflexivity|].
      erewrite Hget; [|now apply list_lookup_insert_eq|exact Hd].
      simpl. unfold attr_get_default. now rewrite attr_get_pop.
    + eexists. split; [reflexivity|].
      rewrite (Hget _ _ H Hd). now rewrite attr_get_default_unset.
Qed.

Lemma mutable_slot_round_trip_witness :
  (exists h',
      __set__ (mkSlot StringVar "name" None) (VObj 0) (VStr "j") sample_detached
        = (h', Ok tt) /\
      __get__ (mkSlot StringVar "name" None) (VObj 0) h' = (h', Ok (VStr "j"))) /\
  __set__ (mkSlot StringVar "name" None) (VObj 0) (VStr "") sample_detached
    = (sample_detached, Raise (ValueError "name")).
Proof.
  destruct (mutable_slot_round_trip sample_detached (mkSlot StringVar "name" None) 0
              (mkObject CIndex [("name", VStr "i")] []) eq_refl eq_refl eq_refl)
    as (Hs & Hbad & _).
  - repeat constructor. intros Hin. inversion Hin.
  - split; [exact (Hs (VStr "j") _ eq_refl)|exact (Hbad (VStr "") _ eq_refl)].
Defined.

(** ** The engine slot away from a schema *)

(** X8. A schema item attached to no schema has no engine to fall back to:
    reading [engine] raises [AttributeError] rather than giving [None],
    and assigning one raises too, the type of the value being checked
    first. The heap is left as it was. *)
Theorem detached_engine_raises (h : heap) (l : loc) (o : object) :
  h !! l = Some o ->
  is_SchemaItem (class_of o) = true ->
  attr_get (dict o) "schema" = None ->
  (attr_mem (dict o) "engine" = false ->
     getattr (VObj l) "engine" h = (h, Raise AttributeError)) /\
  (forall v,
     setattr (VObj l) "engine" v h
     = (h, Raise (if isinstance_SQLite h v then AttributeError
                  else SQLiteEngineError))).
Proof.
  intros H Hi Hs.
  pose proof (SchemaItem_has_dict _ Hi) as Hd.
  split.
  - intros Hm. unfold getattr, bind, deref. rewrite H. simpl.
    rewrite (slot_of_engine _ Hi).
    unfold __get__, SQLiteEngine_get_value, bind. simpl.
    rewrite (dict_of_some _ _ _ H Hd). simpl. rewrite Hm. simpl.
    unfold ret at 1. unfold attr_get_default. now rewrite Hs.
  - intros v. unfold setattr, bind, deref. rewrite H. simpl.
    rewrite (slot_of_engine _ Hi).
    unfold __set__, SQLiteEngine__set__, bind. simpl.
    rewrite (dict_of_some _ _ _ H Hd). simpl.
    unfold attr_get_default. rewrite Hs.
    unfold ret, AnyVar__set__, bind, _check_value, SQLiteEngine_check_value. simpl.
    destruct (isinstance_SQLite h v); reflexivity.
Qed.

Lemma detached_engine_raises_witness :
  getattr (VObj 0) "engine" sample_detached = (sample_detached, Raise AttributeError) /\
  setattr (VObj 0) "engine" (VObj 2) sample_detached
    = (sample_detached, Raise AttributeError) /\
  setattr (VObj 0) "engine" (VObj 1) sample_detached
    = (sample_detached, Raise SQLiteEngineError).
Proof.
  destruct (detached_engine_raises sample_detached 0
              (mkObject CIndex [("name", VStr "i")] []) eq_refl eq_refl eq_refl)
    as (Hg & Hs).
  split; [exact (Hg eq_refl)|]. split; [exact (Hs (VObj 2))|exact (Hs (VObj 1))].
Defined.

(** ** One parent for life *)

Lemma slot_of_schema c :
  is_SchemaItem c = true ->
  slot_of c "schema" = Some (mkSlot ToggleVar "schema" (Some "parent")).
Proof. destruct c; simpl; try discriminate; reflexivity. Qed.

(** X9. A schema item that holds a [schema] entry cannot be registered
    again, in the same schema or in another, through any of [add_table],
    [add_index], [add_view], [add_trigger]: the call raises the
    illegal-operation error on [schema] and changes nothing. Likewise a
    column that holds a [table] entry and [add_column]. *)
Theorem registered_item_stays (h : heap) (p c : loc) (op oc : object)
    (collection : string) :
  h !! p = Some op ->
  h !! c = Some oc ->
  (class_of op = CSchema ->
   is_SchemaItem (class_of oc) = true ->
   attr_mem (dict oc) "schema" = true ->
   add_to collection (VObj p) (VObj c) h
   = (h, Raise (IllegalOperation (AttributeUpdate "schema")))) /\
  (class_of op = CTable ->
   class_of oc = CColumn ->
   attr_mem (dict oc) "table" = true ->
   add_column (VObj p) (VObj c) h
   = (h, Raise (IllegalOperation (AttributeUpdate "table")))).
Proof.
  intros Hp Hc. split.
  - intros Hs Hi Hm.
    unfold add_to, self_schema, BaseSchema_set_child, bind at 1.
    unfold bind at 1, deref. rewrite Hp. simpl. rewrite Hs.
    unfold ret at 1. unfold bind at 1. unfold bind at 1.
    unfold setattr at 1. unfold bind, deref. rewrite Hc. simpl.
    rewrite (slot_of_schema _ Hi).
    rewrite (validate_immutable_set h (mkSlot ToggleVar "schema" (Some "parent"))
               c oc (VObj p) eq_refl eq_refl Hc (SchemaItem_has_dict _ Hi)).
    simpl. now rewrite Hm.
  - intros Ht Hk Hm.
    unfold add_column, Table_set_child, bind at 1. unfold deref.
    rewrite Hp. simpl. rewrite Ht.
    unfold bind at 1. unfold bind at 1.
    unfold setattr at 1. unfold bind, deref. rewrite Hc. simpl. rewrite Hk.
    change (slot_of CColumn "table") with (Some (mkSlot ImmutableVar "table" None)).
    cbv beta iota.
    rewrite (validate_immutable_set h (mkSlot ImmutableVar "table" None)
               c oc (VObj p) eq_refl eq_refl Hc)
      by (now rewrite Hk).
    simpl. now rewrite Hm.
Qed.

Lemma registered_item_stays_witness :
  add_table (VObj 0) (VObj 5) sample_schema
    = (sample_schema, Raise (IllegalOperation (AttributeUpdate "schema"))) /\
  add_column (VObj 7) (VObj 5) built
    = (built, Raise (IllegalOperation (AttributeUpdate "table"))).
Proof.
  split.
  - apply (registered_item_stays sample_schema 0 5
             (mkObject CSchema
                [("name", VStr "main"); ("tables", VObj 1); ("indexes", VObj 2);
                 ("views", VObj 3); ("triggers", VObj 4)] [])
             (mkObject CTable
                [("name", VStr "t"); ("schema", VObj 0); ("parent", VObj 0)] [])
             "tables" eq_refl eq_refl); reflexivity.
  - destruct (built !! 7) as [ot|] eqn:Et; [|discriminate Et].
    destruct (built !! 5) as [oc|] eqn:Ec; [|discriminate Ec].
    vm_compute in Et, Ec. injection Et as <-. injection Ec as <-.
    eapply (registered_item_stays built 7 5 _ _ "columns"); reflexivity.
Defined.

(** ** Construction on top of any heap *)

Lemma lookup_tail (h tail : heap) i :
  (h ++ tail) !! (length h + i) = tail !! i.
Proof. rewrite lookup_app_r by lia. f_equal. lia. Qed.

Lemma insert_tail (h tail : heap) i x :
  <[length h + i := x]> (h ++ tail) = h ++ <[i := x]> tail.
Proof. rewrite insert_app_r_alt by lia. do 2 f_equal. lia. Qed.

(** A first assignment through an immutable slot of an instance that
    was allocated on top of [h]. *)
Lemma setattr_tail (h tail : heap) i o a d v v' :
  tail !! i = Some o ->
  slot_of (class_of o) a = Some d ->
  immutable (kind_of d) = true -> engine_redirect d = false ->
  has_dict (class_of o) = true ->
  validate d (h ++ tail) v = Ok v' ->
  attr_mem (dict o) (_attribute d) = false ->
  setattr (VObj (length h + i)) a v (h ++ tail)
  = (h ++ <[i := mkObject (class_of o) (attr_set (dict o) (_attribute d) v')
                    (fields o)]> tail, Ok tt).
Proof.
  intros Hl Hs Hi Hr Hd Hv Hm.
  assert (Hl' : (h ++ tail) !! (length h + i) = Some o)
    by (now rewrite lookup_tail).
  unfold setattr, bind, deref. rewrite Hl'. simpl. rewrite Hs.
  rewrite (validate_immutable_set _ _ _ _ v Hi Hr Hl' Hd), Hv, Hm.
  now rewrite insert_tail.
Qed.

Lemma setattr_tail_raise (h tail : heap) i o a d v e :
  tail !! i = Some o ->
  slot_of (class_of o) a = Some d ->
  immutable (kind_of d) = true -> engine_redirect d = false ->
  has_dict (class_of o) = true ->
  validate d (h ++ tail) v = Raise e ->
  setattr (VObj (length h + i)) a v (h ++ tail) = (h ++ tail, Raise e).
Proof.
  intros Hl Hs Hi Hr Hd Hv.
  assert (Hl' : (h ++ tail) !! (length h + i) = Some o)
    by (now rewrite lookup_tail).
  unfold setattr, bind, deref. rewrite Hl'. simpl. rewrite Hs.
  now rewrite (validate_immutable_set _ _ _ _ v Hi Hr Hl' Hd), Hv.
Qed.

Lemma new_tail (h tail : heap) c :
  new c (h ++ tail)
  = (h ++ (tail ++ [mkObject c [] []]), Ok (length h + length tail)).
Proof. unfold new. now rewrite length_app, app_assoc. Qed.

Lemma Collection_new_tail (h tail : heap) c :
  Collection.Collection_new c [] [] (h ++ tail)
  = (h ++ (tail ++ [mkObject c [] []]), Ok (length h + length tail)).
Proof.
  unfold Collection.Collection_new, bind. rewrite new_tail. reflexivity.
Qed.

Lemma bind_ok {A B} (m : M A) (f : A -> M B) (h h' : heap) a :
  m h = (h', Ok a) -> bind m f h = f a h'.
Proof. intros H. unfold bind. now rewrite H. Qed.

Lemma bind_raise {A B} (m : M A) (f : A -> M B) (h h' : heap) e :
  m h = (h', Raise e) -> bind m f h = (h', Raise e).
Proof. intros H. unfold bind. now rewrite H. Qed.

Lemma setattr_head (h : heap) o rest a d v v' :
  slot_of (class_of o) a = Some d ->
  immutable (kind_of d) = true -> engine_redirect d = false ->
  has_dict (class_of o) = true ->
  validate d (h ++ o :: rest) v = Ok v' ->
  attr_mem (dict o) (_attribute d) = false ->
  setattr (VObj (length h)) a v (h ++ o :: rest)
  = (h ++ mkObject (class_of o) (attr_set (dict o) (_attribute d) v') (fields o)
          :: rest, Ok tt).
Proof.
  intros Hs Hi Hr Hd Hv Hm.
  pose proof (setattr_tail h (o :: rest) 0 o a d v v' eq_refl Hs Hi Hr Hd Hv Hm) as H.
  now rewrite Nat.add_0_r in H.
Qed.

Lemma setattr_head_raise (h : heap) o rest a d v e :
  slot_of (class_of o) a = Some d ->
  immutable (kind_of d) = true -> engine_redirect d = false ->
  has_dict (class_of o) = true ->
  validate d (h ++ o :: rest) v = Raise e ->
  setattr (VObj (length h)) a v (h ++ o :: rest) = (h ++ o :: rest, Raise e).
Proof.
  intros Hs Hi Hr Hd Hv.
  pose proof (setattr_tail_raise h (o :: rest) 0 o a d v e eq_refl Hs Hi Hr Hd Hv) as H.
  now rewrite Nat.add_0_r in H.
Qed.

(** One step of a constructor: the head of the sequence returns. *)
Tactic Notation "run_ok" tactic3(tac) :=
  erewrite bind_ok; [|tac]; cbn [app length].

(** X10. [Schema(name)] with no other argument, on top of any heap: a name
    that lower-cases to ["main"] or ["temp"] gives a schema holding the
    lower-cased name and four empty collections of its own; any other
    non-empty name raises the schema-name error carrying the name as
    given, and a value that is no non-empty string the value error,
    before any collection is made. *)
Theorem Schema_name_normalized (h : heap) (name : string) :
  (str_in (lower name) SCHEMA_NAME_LIST = true ->
   Schema (VStr name) [] [] h
   = (h ++ [ mkObject CSchema
               [("name", VStr (lower name));
                ("tables", VObj (length h + 1)); ("indexes", VObj (length h + 2));
                ("views", VObj (length h + 3)); ("triggers", VObj (length h + 4))] [];
             mkObject CTables [] []; mkObject CIndexes [] [];
             mkObject CViews [] []; mkObject CTriggers [] [] ],
      Ok (length h))) /\
  (str_in (lower name) SCHEMA_NAME_LIST = false ->
   Schema (VStr name) [] [] h
   = (h ++ [mkObject CSchema [] []],
      Raise (if String.eqb name "" then ValueError "name"
             else SchemaNameError name))) /\
  (forall v, is_str v = false ->
   Schema v [] [] h = (h ++ [mkObject CSchema [] []], Raise (ValueError "name"))).
Proof.
  split; [|split].
  - intros Hn.
    assert (Hv : forall h0, validate (mkSlot SchemaName "name" None) h0 (VStr name)
                            = Ok (VStr (lower name))).
    { intros h0. destruct name as [|c r]; [discriminate Hn|].
      unfold validate, _check_value, SchemaName_check_value. simpl.
      unfold _check_name. now rewrite Hn. }
    unfold Schema. run_ok reflexivity.
    erewrite bind_ok; [reflexivity|].
    unfold Schema__init__.
    run_ok (eapply setattr_head; first [apply Hv|reflexivity]).
    do 4 (run_ok (apply Collection_new_tail);
          run_ok (eapply setattr_head; reflexivity)).
    reflexivity.
  - intros Hn.
    unfold Schema. run_ok reflexivity.
    unfold Schema__init__.
    erewrite bind_raise; [reflexivity|].
    erewrite bind_raise; [reflexivity|].
    eapply setattr_head_raise; try reflexivity.
    destruct name as [|c r]; [reflexivity|].
    unfold validate, _check_value, SchemaName_check_value. simpl.
    unfold _check_name. now rewrite Hn.
  - intros v Hv.
    unfold Schema. run_ok reflexivity.
    unfold Schema__init__.
    erewrite bind_raise; [reflexivity|].
    erewrite bind_raise; [reflexivity|].
    eapply setattr_head_raise; try reflexivity.
    destruct v; try discriminate Hv; reflexivity.
Qed.

Lemma Schema_name_normalized_witness :
  (exists o,
      fst (Schema (VStr "TeMp") [] [] sample_tables) !! 3 = Some o /\
      attr_get (dict o) "name" = Some (VStr "temp")) /\
  snd (Schema (VStr "other") [] [] sample_tables) = Raise (SchemaNameError "other").
Proof.
  destruct (Schema_name_normalized sample_tables "TeMp") as (Hok & _ & _).
  destruct (Schema_name_normalized sample_tables "other") as (_ & Hbad & _).
  split.
  - rewrite (Hok eq_refl). eexists. split; reflexivity.
  - rewrite (Hbad eq_refl). reflexivity.
Defined.

(** ** What an assignment can touch *)

Lemma dict_of_inv (inst : val) (h h' : heap) r :
  __dict__ inst h = (h', r) ->
  h' = h /\
  (forall x, r = Ok x ->
     exists o, inst = VObj (fst x) /\ h !! fst x = Some o /\ snd x = dict o).
Proof.
  unfold __dict__, bind, deref.
  destruct inst as [| | | |l| |]; try (intros H; injection H as <- <-; split;
    [reflexivity|discriminate]).
  destruct (h !! l) as [o|] eqn:Ho; simpl;
    [|intros H; injection H as <- <-; split; [reflexivity|discriminate]].
  destruct (has_dict (class_of o)); intros H; injection H as <- <-;
    (split; [reflexivity|]); [|discriminate].
  intros x Hx. injection Hx as <-. simpl. eauto.
Qed.

Lemma Descriptor_set_touches d inst v (h h' : heap) r :
  Descriptor__set__ d inst v h = (h', r) -> touches d h h'.
Proof.
  unfold Descriptor__set__, bind.
  destruct (__dict__ inst h) as [h1 [x|e]] eqn:E;
    destruct (dict_of_inv _ _ _ _ E) as (-> & Hx).
  - destruct (Hx x eq_refl) as (o & -> & Ho & Hd).
    rewrite (write_dict_some _ _ _ _ Ho). intros H. injection H as <- _.
    right. exists (fst x), o, v. rewrite Hd. auto.
  - intros H. injection H as <- _. now left.
Qed.

Lemma Immutable_set_touches d inst v (h h' : heap) r :
  Immutable__set__ d inst v h = (h', r) -> touches d h h'.
Proof.
  unfold Immutable__set__, bind.
  destruct (__dict__ inst h) as [h1 [x|e]] eqn:E;
    destruct (dict_of_inv _ _ _ _ E) as (-> & Hx).
  - destruct (attr_mem (snd x) (_attribute d)).
    + intros H. injection H as <- _. now left.
    + apply Descriptor_set_touches.
  - intros H. injection H as <- _. now left.
Qed.

Lemma AnyVar_set_touches d inst v (h h' : heap) r :
  AnyVar__set__ d inst v h = (h', r) -> touches d h h'.
Proof.
  unfold AnyVar__set__, bind, _check_value.
  match goal with
  | |- context [match ?c with Ok _ => _ | Raise _ => _ end] => destruct c
  end.
  - destruct (immutable (kind_of d));
      [apply Immutable_set_touches|apply Descriptor_set_touches].
  - intros H. injection H as <- _. now left.
Qed.

Lemma set_touches d inst v (h h' : heap) r :
  __set__ d inst v h = (h', r) -> touches d h h'.
Proof.
  unfold __set__.
  destruct (kind_of d) eqn:Ek;
    try apply Descriptor_set_touches;
    try apply Immutable_set_touches;
    try apply AnyVar_set_touches.
  unfold SQLiteEngine__set__, bind.
  destruct (_fallback d).
  - destruct (__dict__ inst h) as [h1 [x|e]] eqn:E;
      destruct (dict_of_inv _ _ _ _ E) as (-> & _).
    + unfold ret. apply AnyVar_set_touches.
    + intros H. injection H as <- _. now left.
  - unfold ret. apply AnyVar_set_touches.
Qed.

Lemma attr_get_set_other (d : attrs) a b v :
  a <> b -> attr_get (attr_set d a v) b = attr_get d b.
Proof.
  intros Hab. unfold attr_get, attr_set.
  induction d as [|[k w] d IH]; simpl.
  - destruct (String.eqb_spec b a); congruence.
  - destruct (String.eqb_spec a k) as [->|Hak]; simpl.
    + destruct (String.eqb_spec b k); congruence.
    + destruct (String.eqb_spec b k); [reflexivity|exact IH].
Qed.

Lemma touches_type_name d (h h' : heap) :
  _attribute d <> "__type_name__" ->
  touches d h h' ->
  forall a, __type_name__ h' a = __type_name__ h a.
Proof.
  intros Hd [->|(l & o & x & Ho & ->)] a; [reflexivity|].
  destruct a as [| | | |l'| |]; try reflexivity.
  unfold __type_name__.
  destruct (decide (l = l')) as [<-|Hne].
  - rewrite list_lookup_insert_eq by (eapply lookup_lt_Some; eauto).
    rewrite Ho. simpl. destruct (class_of o); try reflexivity.
    unfold attr_get_default. now rewrite attr_get_set_other.
  - now rewrite list_lookup_insert_ne.
Qed.

Lemma slot_attribute_not_type_name c a d :
  slot_of c a = Some d -> a <> "__type_name__" ->
  _attribute d <> "__type_name__".
Proof.
  unfold slot_of. intros Hs Ha.
  assert (Hall : forallb (fun p => String.eqb (fst p) "__type_name__" ||
                                   negb (String.eqb (_attribute (snd p)) "__type_name__"))
                   (class_slots c) = true)
    by (destruct c; reflexivity).
  induction (class_slots c) as [|[k s] rest IH]; [discriminate Hs|].
  simpl in Hs, Hall. apply andb_true_iff in Hall as (Hk & Hall).
  destruct (String.eqb_spec a k) as [->|_].
  - injection Hs as <-.
    destruct (String.eqb_spec k "__type_name__"); [congruence|].
    simpl in Hk. destruct (String.eqb_spec (_attribute s) "__type_name__");
      [discriminate Hk|assumption].
  - now apply IH.
Qed.

(** Assigning any attribute but [__type_name__] changes no
    [__type_name__]. *)
Lemma setattr_keeps_type_names inst a v :
  a <> "__type_name__" -> keeps_type_names (setattr inst a v).
Proof.
  intros Ha h h' r. unfold setattr, bind, deref.
  destruct inst as [| | | |l| |];
    try (intros H; injection H as <- _; reflexivity).
  destruct (h !! l) as [o|] eqn:Ho;
    [|intros H; injection H as <- _; reflexivity].
  simpl. destruct (slot_of (class_of o) a) as [d|] eqn:Hs.
  - intros H. apply (touches_type_name d).
    + eapply slot_attribute_not_type_name; eauto.
    + eapply set_touches; eauto.
  - destruct (is_Collection (class_of o));
      [intros H; injection H as <- _; reflexivity|].
    rewrite (write_dict_some _ _ _ _ Ho). intros H. injection H as <- _.
    apply (touches_type_name (mkSlot Descriptor a None)); [exact Ha|].
    right. exists l, o, v. auto.
Qed.

(** Reading an attribute changes nothing. *)
Lemma keeps_type_names_bind {A B} (m : M A) (f : A -> M B) :
  keeps_type_names m -> (forall a, keeps_type_names (f a)) ->
  keeps_type_names (bind m f).
Proof.
  intros Hm Hf h h' r. unfold bind.
  destruct (m h) as [h1 [a|e]] eqn:E; intros H x.
  - rewrite (Hf a _ _ _ H x). exact (Hm _ _ _ E x).
  - injection H as <- _. exact (Hm _ _ _ E x).
Qed.

(** The loop body of [Table._filter_columns] changes no
    [__type_name__]. *)
Lemma column_consumer_keeps self column :
  keeps_type_names (column_consumer self column).
Proof.
  unfold column_consumer.
  apply keeps_type_names_bind.
  - unfold Table_set_child, Model_set_child.
    apply keeps_type_names_bind; [|intros _];
      apply setattr_keeps_type_names; discriminate.
  - intros _. apply keeps_type_names_bind.
    + intros h h' r H x. now rewrite (getattr_pure _ _ _ _ _ H).
    + intros key h h' r H x. now injection H as <- _.
Qed.

(** ** The filter of [Model._filter_items] *)

Lemma matches_instance (h : heap) t a :
  matches h t a = true -> exists l, a = VObj l.
Proof.
  unfold matches, __type_name__. destruct a; try discriminate. eauto.
Qed.

Lemma matches_stable {A} (m : M A) (h h' : heap) r t a :
  keeps_type_names m -> m h = (h', r) -> matches h' t a = matches h t a.
Proof. intros Hm H. unfold matches. now rewrite (Hm _ _ _ H a). Qed.

Lemma same_instance e l : py_is e (VObj l) || py_eq e (VObj l) = true -> e = VObj l.
Proof.
  destruct e as [| | | |x| |]; simpl; try discriminate.
  rewrite orb_diag. intros H. apply Nat.eqb_eq in H. now subst.
Qed.

Lemma no_collection_at (h : heap) a :
  no_collection h a = true -> Collection.collection_at h a = None.
Proof.
  destruct a as [| | | |l| |]; try reflexivity.
  unfold no_collection, __type_name__, Collection.collection_at.
  destruct (h !! l) as [o|]; [|reflexivity].
  destruct (class_of o); try reflexivity; intros H; vm_compute in H; discriminate H.
Qed.

Lemma no_collection_stable {A} (m : M A) (h h' : heap) r a :
  keeps_type_names m -> m h = (h', r) -> no_collection h' a = no_collection h a.
Proof. intros Hm H. unfold no_collection. now rewrite (Hm _ _ _ H a). Qed.

Lemma list_index_here (h : heap) t pre arg rest :
  matches h t arg = true ->
  Forall (fun e => matches h t e = false) pre ->
  Forall (fun e => no_collection h e = true) pre ->
  no_collection h arg = true ->
  list_index (pre ++ arg :: rest) arg h = (h, Ok (length pre)).
Proof.
  intros Ha Hpre Hnc Hna. destruct (matches_instance _ _ _ Ha) as (l & ->).
  induction Hpre as [|e pre He Hpre IH]; cbn [app list_index length].
  - cbn [py_is]. now rewrite Nat.eqb_refl.
  - apply Forall_cons in Hnc as [Hne Hnc].
    destruct (py_is e (VObj l)) eqn:Ei.
    + assert (e = VObj l)
        by (apply same_instance; now rewrite Ei).
      subst e. congruence.
    + unfold bind at 1. unfold Collection.equal.
      rewrite equal_in_instance. unfold Collection.equal_flat.
      rewrite (no_collection_at _ _ Hne), (no_collection_at _ _ Hna).
      destruct (py_eq e (VObj l)) eqn:Ee.
      * assert (e = VObj l)
          by (apply same_instance; rewrite Ee; apply orb_true_r).
        subst e. congruence.
      * unfold bind. now rewrite (IH Hnc).
Qed.

Lemma list_pop_here (pre : list val) arg rest :
  list_pop (pre ++ arg :: rest) (length pre) = pre ++ rest.
Proof. induction pre as [|e pre IH]; simpl; [reflexivity|now rewrite IH]. Qed.

Lemma filter_ext_matches {X} (f : X -> val) (h h' : heap) t (l : list X) :
  (forall a, matches h' t a = matches h t a) ->
  List.filter (fun x => negb (matches h' t (f x))) l
  = List.filter (fun x => negb (matches h t (f x))) l /\
  List.filter (fun x => matches h' t (f x)) l
  = List.filter (fun x => matches h t (f x)) l.
Proof.
  intros H. split; apply List.filter_ext; intros x; now rewrite H.
Qed.

Lemma filter_ext_matches_id (h h' : heap) t (l : list val) :
  (forall a, matches h' t a = matches h t a) ->
  List.filter (fun a => negb (matches h' t a)) l
  = List.filter (fun a => negb (matches h t a)) l /\
  List.filter (matches h' t) l = List.filter (matches h t) l.
Proof.
  intros H. split; apply List.filter_ext; intros x; now rewrite H.
Qed.

Section FilterFacts.
Context {A : Type} (consume : val -> M A).
Hypothesis consume_keeps : forall v, keeps_type_names (consume v).

Lemma filter_args_gen t :
  forall copy pre (h h' : heap) ys rest,
    Forall (fun e => matches h t e = false) pre ->
    Forall (fun e => no_collection h e = true) (pre ++ copy) ->
    filter_args consume t copy (pre ++ copy) h = (h', Ok (ys, rest)) ->
    rest = pre ++ List.filter (fun a => negb (matches h t a)) copy /\
    length ys = length (List.filter (matches h t) copy) /\
    (forall a, __type_name__ h' a = __type_name__ h a).
Proof.
  induction copy as [|arg copy IH]; intros pre h h' ys rest Hpre Hnc Hr.
  - simpl in Hr. injection Hr as <- <- <-. auto.
  - simpl in Hr. unfold bind at 1 in Hr. simpl in Hr.
    pose proof Hnc as Hnc'. apply Forall_app in Hnc' as [Hncp Hncc].
    apply Forall_cons in Hncc as [Hnca Hncc].
    destruct (matches h t arg) eqn:Hm.
    + unfold bind at 1 in Hr.
      rewrite (list_index_here _ _ _ _ _ Hm Hpre Hncp Hnca) in Hr.
      rewrite lookup_app_r, Nat.sub_diag in Hr by lia. simpl in Hr.
      unfold bind at 1 in Hr.
      destruct (consume arg h) as [h1 [y|e]] eqn:Ec; [|discriminate].
      rewrite list_pop_here in Hr. unfold bind in Hr.
      destruct (filter_args consume t copy (pre ++ copy) h1)
        as [h2 [[ys' rest']|e]] eqn:Er; [|discriminate].
      injection Hr as <- <- <-. simpl.
      pose proof (fun a => matches_stable _ _ _ _ t a (consume_keeps arg) Ec) as Hst.
      destruct (IH pre h1 h2 ys' rest') as (Hrest & Hlen & Hty).
      { eapply Forall_impl; [exact Hpre|]. intros e He. now rewrite Hst. }
      { apply Forall_app. split; (eapply Forall_impl; [eassumption|]);
          intros e He; cbv beta;
          now rewrite (no_collection_stable _ _ _ _ e (consume_keeps arg) Ec). }
      { exact Er. }
      destruct (filter_ext_matches_id h h1 t copy Hst) as (E1 & E2).
      rewrite Hm. simpl. rewrite <- E1, <- E2. repeat split; auto.
      intros a. rewrite Hty. exact (consume_keeps arg _ _ _ Ec a).
    + replace (pre ++ arg :: copy) with ((pre ++ [arg]) ++ copy) in Hr
        by (now rewrite <- app_assoc).
      destruct (IH (pre ++ [arg]) h h' ys rest) as (Hrest & Hlen & Hty).
      { apply Forall_app. split; [exact Hpre|]. now constructor. }
      { now rewrite <- app_assoc. }
      { exact Hr. }
      simpl. rewrite Hm. simpl. rewrite <- app_assoc in Hrest. auto.
Qed.

Lemma attr_get_here (pre : attrs) k v rest :
  ~ In k (map fst pre) -> attr_get (pre ++ (k, v) :: rest) k = Some v.
Proof.
  unfold attr_get. induction pre as [|[k' v'] pre IH]; simpl; intros Hn.
  - now rewrite String.eqb_refl.
  - destruct (String.eqb_spec k k') as [->|_]; [tauto|]. apply IH. tauto.
Qed.

Lemma attr_pop_here (pre : attrs) k v rest :
  ~ In k (map fst pre) -> attr_pop (pre ++ (k, v) :: rest) k = pre ++ rest.
Proof.
  unfold attr_pop. induction pre as [|[k' v'] pre IH]; simpl; intros Hn.
  - now rewrite String.eqb_refl.
  - destruct (String.eqb_spec k k') as [->|_]; [tauto|]. rewrite IH; tauto.
Qed.

Lemma filter_kwargs_gen t :
  forall copy pre (h h' : heap) ys rest,
    List.NoDup (map fst (pre ++ copy)) ->
    Forall (fun kv => matches h t (snd kv) = false) pre ->
    filter_kwargs consume t copy (pre ++ copy) h = (h', Ok (ys, rest)) ->
    rest = pre ++ List.filter (fun kv => negb (matches h t (snd kv))) copy /\
    length ys = length (List.filter (fun kv => matches h t (snd kv)) copy) /\
    (forall a, __type_name__ h' a = __type_name__ h a).
Proof.
  induction copy as [|[k v] copy IH]; intros pre h h' ys rest Hnd Hpre Hr.
  - simpl in Hr. injection Hr as <- <- <-. auto.
  - simpl in Hr. unfold bind at 1 in Hr. simpl in Hr.
    assert (Hk : ~ In k (map fst pre)).
    { rewrite map_app in Hnd. simpl in Hnd.
      apply List.NoDup_remove_2 in Hnd. rewrite in_app_iff in Hnd. tauto. }
    assert (Hnd' : List.NoDup (map fst (pre ++ copy))).
    { rewrite map_app in Hnd |- *. simpl in Hnd.
      now apply List.NoDup_remove_1 in Hnd. }
    destruct (matches h t v) eqn:Hm.
    + rewrite (attr_get_here _ _ _ _ Hk) in Hr.
      unfold bind at 1 in Hr.
      destruct (setattr v "key" (VStr k) h) as [h1 [[]|e]] eqn:Es; [|discriminate].
      unfold bind at 1 in Hr.
      destruct (consume v h1) as [h2 [y|e]] eqn:Ec; [|discriminate].
      rewrite (attr_pop_here _ _ _ _ Hk) in Hr. unfold bind in Hr.
      destruct (filter_kwargs consume t copy (pre ++ copy) h2)
        as [h3 [[ys' rest']|e]] eqn:Er; [|discriminate].
      injection Hr as <- <- <-. simpl.
      assert (Hst : forall a, matches h2 t a = matches h t a).
      { intros a.
        rewrite (matches_stable _ _ _ _ t a (consume_keeps v) Ec).
        refine (matches_stable _ _ _ _ t a _ Es).
        apply setattr_keeps_type_names. discriminate. }
      destruct (IH pre h2 h3 ys' rest' Hnd') as (Hrest & Hlen & Hty).
      { eapply Forall_impl; [exact Hpre|]. intros e He. now rewrite Hst. }
      { exact Er. }
      destruct (filter_ext_matches snd h h2 t copy Hst) as (E1 & E2).
      rewrite Hm. simpl. rewrite <- E1, <- E2. repeat split; auto.
      intros a. rewrite Hty.
      rewrite (consume_keeps v _ _ _ Ec a).
      refine (setattr_keeps_type_names _ _ _ _ _ _ _ Es a). discriminate.
    + replace (pre ++ (k, v) :: copy) with ((pre ++ [(k, v)]) ++ copy) in Hr, Hnd
        by (now rewrite <- app_assoc).
      destruct (IH (pre ++ [(k, v)]) h h' ys rest Hnd) as (Hrest & Hlen & Hty).
      { apply Forall_app. split; [exact Hpre|]. now constructor. }
      { exact Hr. }
      simpl. rewrite Hm. simpl. rewrite <- app_assoc in Hrest. auto.
Qed.

End FilterFacts.

Lemma islower_lower (t : string) :
  (if negb (islower t) then lower t else t) = lower t.
Proof.
  unfold islower. destruct (String.eqb_spec (lower t) t) as [E|_]; simpl.
  - destruct (negb (upper t =? t)%string); simpl; congruence.
  - reflexivity.
Qed.

(** X11. When [_filter_items] runs to its end, with a loop body that changes
    no [__type_name__] and with no collection instance among the positional
    arguments, what is left in [args] and in [kwargs] is what did not have
    the target type name, in the order given, and the loop body ran once for
    each argument that had it.  (A collection among the positional arguments
    answers [args.index] through its own [__eq__]: see
    [filter_items_collection_argument].) *)
Theorem filter_items_partition {A} (consume : val -> M A) (target : string)
    (args : list val) (kwargs : attrs) (h h' : heap)
    (ys : list A) (args' : list val) (kwargs' : attrs) :
  (forall v, keeps_type_names (consume v)) ->
  Forall (fun a => no_collection h a = true) args ->
  List.NoDup (map fst kwargs) ->
  _filter_items consume target args kwargs h = (h', Ok (ys, args', kwargs')) ->
  let hit := matches h (lower target) in
  args' = List.filter (fun a => negb (hit a)) args /\
  kwargs' = List.filter (fun kv => negb (hit (snd kv))) kwargs /\
  length ys = length (List.filter hit args)
              + length (List.filter (fun kv => hit (snd kv)) kwargs).
Proof.
  intros Hc Hnc Hnd Hr hit. unfold _filter_items in Hr.
  rewrite islower_lower in Hr. unfold bind at 1 in Hr.
  destruct (filter_args consume (lower target) args args h)
    as [h1 [[ys1 rest1]|e]] eqn:E1; [|discriminate].
  unfold bind at 1 in Hr.
  destruct (filter_kwargs consume (lower target) kwargs kwargs h1)
    as [h2 [[ys2 rest2]|e]] eqn:E2; [|discriminate].
  injection Hr as <- <- <- <-. simpl.
  destruct (filter_args_gen consume Hc (lower target) args [] h h1 ys1 rest1
              (List.Forall_nil _) Hnc E1) as (Ha & Hl1 & Hty).
  destruct (filter_kwargs_gen consume Hc (lower target) kwargs [] h1 h2 ys2 rest2
              Hnd (List.Forall_nil _) E2) as (Hk & Hl2 & _).
  assert (Hst : forall a, matches h1 (lower target) a = matches h (lower target) a)
    by (intros a; unfold matches; now rewrite Hty).
  destruct (filter_ext_matches snd h h1 (lower target) kwargs Hst) as (F1 & F2).
  simpl in Ha, Hk. rewrite F1 in Hk. rewrite F2 in Hl2.
  rewrite length_app. subst hit. auto.
Qed.

Lemma filter_items_partition_witness :
  exists h' ys,
    _filter_items (column_consumer 0) "Column"
      [VInt 1; VObj 1; VStr "x"] [("b", VObj 2); ("row_id", VBool false)]
      sample_columns
    = (h', Ok (ys, [VInt 1; VStr "x"], [("row_id", VBool false)])) /\
    length ys = 2.
Proof.
  destruct (_filter_items (column_consumer 0) "Column"
              [VInt 1; VObj 1; VStr "x"] [("b", VObj 2); ("row_id", VBool false)]
              sample_columns) as [h' [[[ys args'] kwargs']|e]] eqn:E;
    [|vm_compute in E; discriminate E].
  assert (Hnd : List.NoDup (map fst [("b", VObj 2); ("row_id", VBool false)])).
  { apply List.NoDup_cons; [simpl; intros [H|[]]; discriminate H|].
    apply List.NoDup_cons; [simpl; tauto|apply List.NoDup_nil]. }
  assert (Hnc : Forall (fun a => no_collection sample_columns a = true)
                  [VInt 1; VObj 1; VStr "x"])
    by (repeat constructor).
  destruct (filter_items_partition (column_consumer 0) "Column" _ _ _ _ _ _ _
              (column_consumer_keeps 0) Hnc Hnd E)
    as (Ha & Hk & Hl).
  exists h', ys. subst args' kwargs'. split; [reflexivity|exact Hl].
Defined.

(** With collections among the positional arguments, [args.index] stops at
    the first argument equal to the one looked for, and two empty
    collections are equal: asked for the indexes, the loop hands out the
    [Tables] and leaves the [Indexes] behind. *)
Example filter_items_collection_argument :
  _filter_items (fun v => ret v) "Indexes" [VObj 0; VObj 1] [] sample_empties
  = (sample_empties, Ok ([VObj 0], [VObj 1], [])) /\
  matches sample_empties "indexes" (VObj 0) = false /\
  matches sample_empties "indexes" (VObj 1) = true.
Proof. repeat split. Qed.

(** ** Construction of a table *)

Lemma setattr_at (h : heap) n o rest a d v v' :
  n = length h ->
  slot_of (class_of o) a = Some d ->
  immutable (kind_of d) = true -> engine_redirect d = false ->
  has_dict (class_of o) = true ->
  validate d (h ++ o :: rest) v = Ok v' ->
  attr_mem (dict o) (_attribute d) = false ->
  setattr (VObj n) a v (h ++ o :: rest)
  = (h ++ mkObject (class_of o) (attr_set (dict o) (_attribute d) v') (fields o)
          :: rest, Ok tt).
Proof. intros ->. apply setattr_head. Qed.

Lemma self_schema_below (h tail : heap) s os :
  h !! s = Some os -> class_of os = CSchema ->
  self_schema (VObj s) (h ++ tail) = (h ++ tail, Ok s).
Proof.
  intros Hs Hc. unfold self_schema, bind, deref.
  rewrite (lookup_app_l_Some _ _ _ _ Hs). simpl. now rewrite Hc.
Qed.

Lemma getattr_tables (h : heap) s os :
  h !! s = Some os -> class_of os = CSchema ->
  getattr (VObj s) "tables" h = (h, Ok (attr_get_default (dict os) "tables")).
Proof.
  intros Hs Hc. unfold getattr, bind, deref. rewrite Hs. simpl. rewrite Hc.
  change (slot_of CSchema "tables") with (Some (mkSlot ImmutableVar "tables" None)).
  cbv beta iota. unfold __get__, Descriptor__get__, bind. simpl.
  rewrite (dict_of_some _ _ _ Hs) by (now rewrite Hc). reflexivity.
Qed.

Lemma getattr_key_of_name (h : heap) l o :
  h !! l = Some o -> is_BaseItem (class_of o) = true ->
  attr_mem (dict o) "key" = false ->
  getattr (VObj l) "key" h = (h, Ok (attr_get_default (dict o) "name")).
Proof.
  intros Hl Hb Hm. unfold getattr, bind, deref. rewrite Hl. simpl.
  assert (Hs : slot_of (class_of o) "key"
               = Some (mkSlot ToggleStringVar "key" (Some "name")))
    by (destruct (class_of o); try discriminate Hb; reflexivity).
  rewrite Hs. unfold __get__, Toggle_get_value, bind. simpl.
  rewrite (dict_of_some _ _ _ Hl)
    by (destruct (class_of o); try discriminate Hb; reflexivity).
  simpl. now rewrite Hm.
Qed.

(** [schema.add_table(self)] as [Table.__init__] calls it, on the table
    just allocated and named: with the name free in the schema's
    [Tables] the table gets its two back-references and is appended
    under its name; with the name taken the duplicate-key error is
    raised after the back-references were set. *)
Lemma add_table_new (h : heap) s os c oc (name : string) :
  h !! s = Some os -> class_of os = CSchema ->
  attr_get (dict os) "tables" = Some (VObj c) ->
  h !! c = Some oc -> is_MixinCollection (class_of oc) = true ->
  let t0 := mkObject CTable [("name", VStr name)] [] in
  let t := mkObject CTable
             [("name", VStr name); ("schema", VObj s); ("parent", VObj s)] [] in
  add_table (VObj s) (VObj (length h)) (h ++ [t0])
  = match snd (Collection._check_item (fields oc) (VStr name) (VObj (length h))
                 (h ++ [t])) with
    | Ok _ =>
        (<[c := mkObject (class_of oc) (dict oc)
                  (fields oc ++ [(VStr name, VObj (length h))])]> h ++ [t], Ok tt)
    | Raise e => (h ++ [t], Raise e)
    end.
Proof.
  intros Hs Hcs Ht Hc Hm t0 t. subst t0 t.
  pose proof (is_MixinCollection_Collection _ Hm) as Hcc.
  unfold add_table, add_to.
  run_ok (eapply self_schema_below; eassumption).
  unfold BaseSchema_set_child, Model_set_child.
  erewrite bind_ok;
    [|erewrite bind_ok; [|eapply setattr_head; reflexivity];
      eapply setattr_head; reflexivity].
  cbn [class_of dict fields attr_set dict_set String.eqb Ascii.eqb Bool.eqb
       _attribute].
  unfold register.
  run_ok (eapply getattr_tables; [apply lookup_app_l_Some|]; eassumption).
  unfold attr_get_default. rewrite Ht.
  erewrite bind_ok;
    [|unfold deref; rewrite (lookup_app_l_Some _ _ _ _ Hc); reflexivity].
  cbn [fst snd].
  run_ok (eapply self_collection_some;
          [apply lookup_app_l_Some; eassumption|assumption]).
  erewrite bind_ok;
    [|eapply getattr_key_of_name;
      [rewrite lookup_app_r, Nat.sub_diag by lia; reflexivity
      |reflexivity|reflexivity]].
  cbn [class_of dict fields attr_set dict_set attr_get_default attr_get dict_get
       String.eqb Ascii.eqb Bool.eqb _attribute].
  rewrite (insert_unfold _ _ _ _ _ (lookup_app_l_Some _ _ _ _ Hc) Hm).
  match goal with
  | |- context [Collection._check_item ?f ?k ?v ?hh] =>
      destruct (Collection._check_item f k v hh) as [h1 [item|e]] eqn:E
  end; cbn [snd]; [|reflexivity].
  destruct (check_item_ok _ _ _ _ _ _ E) as (-> & _ & Hk & _). cbn [fst snd].
  unfold pydict_set. rewrite dict_set_fresh by (now apply dict_mem_false).
  rewrite insert_app_l by (eapply lookup_lt_Some; eauto).
  reflexivity.
Qed.

Lemma filter_kwargs_scalars {A} (consume : val -> M A) t :
  forall (copy kwargs : attrs) (h : heap),
    forallb (fun kv => negb (is_instance (snd kv))) copy = true ->
    filter_kwargs consume t copy kwargs h = (h, Ok ([], kwargs)).
Proof.
  induction copy as [|[k v] copy IH]; intros kwargs h Hc; [reflexivity|].
  simpl in Hc. apply andb_true_iff in Hc as (Hv & Hc).
  simpl. unfold bind at 1. simpl.
  assert (Hm : matches h t v = false) by (destruct v; try reflexivity; discriminate Hv).
  rewrite Hm. now apply IH.
Qed.

Lemma kwargs_pop_absent (kwargs : attrs) a default :
  attr_get kwargs a = None -> kwargs_pop kwargs a default = (default, kwargs).
Proof. intros H. unfold kwargs_pop. now rewrite H. Qed.

(** X12. [Table(name, schema, **kwargs)] on top of any heap, for a non-empty
    name, a schema whose [tables] is a collection, and keywords other
    than [row_id] and [engine] whose values are no instances. If the
    name is taken in the schema the duplicate-key error is raised and
    the schema is as before. Otherwise the table is registered under its
    name, holds its name, both back-references, an empty [Columns] of
    its own and [row_id = True]; the constructor returns it when there
    is no keyword, and otherwise raises the argument error naming the
    keywords, the table staying registered. *)
Theorem Table_construction (h : heap) (s c : loc) (os oc : object)
    (name : string) (kwargs : attrs) :
  h !! s = Some os -> class_of os = CSchema ->
  attr_get (dict os) "tables" = Some (VObj c) ->
  h !! c = Some oc -> is_MixinCollection (class_of oc) = true ->
  name <> "" ->
  attr_get kwargs "row_id" = None ->
  attr_get kwargs "engine" = None ->
  forallb (fun kv => negb (is_instance (snd kv))) kwargs = true ->
  let t := mkObject CTable
             [("name", VStr name); ("schema", VObj s); ("parent", VObj s)] [] in
  Table (VStr name) (VObj s) [] kwargs h
  = match snd (Collection._check_item (fields oc) (VStr name) (VObj (length h))
                 (h ++ [t])) with
    | Raise e => (h ++ [t], Raise e)
    | Ok _ =>
        (<[c := mkObject (class_of oc) (dict oc)
                  (fields oc ++ [(VStr name, VObj (length h))])]> h
         ++ [mkObject CTable
               [("name", VStr name); ("schema", VObj s); ("parent", VObj s);
                ("columns", VObj (length h + 1)); ("row_id", VBool true)] [];
             mkObject CColumns [] []],
         match kwargs with
         | [] => Ok (length h)
         | _ => Raise (ArgumentError (map (fun kv => VStr (fst kv)) kwargs))
         end)
    end.
Proof.
  intros Hs Hcs Ht Hc Hm Hn Hrow Heng Hkw.
  destruct name as [|ch r]; [congruence|].
  pose proof (add_table_new h s os c oc (String ch r) Hs Hcs Ht Hc Hm) as Hadd.
  cbv zeta in Hadd |- *.
  set (b := <[c := mkObject (class_of oc) (dict oc)
               (fields oc ++ [(VStr (String ch r), VObj (length h))])]> h).
  assert (Hb : length h = length b) by (subst b; now rewrite length_insert).
  assert (Hinit :
    Table__init__ (length h) (VStr (String ch r)) (VObj s) [] kwargs
      (h ++ [mkObject CTable [] []])
    = match snd (Collection._check_item (fields oc) (VStr (String ch r))
                   (VObj (length h))
                   (h ++ [mkObject CTable
                            [("name", VStr (String ch r)); ("schema", VObj s);
                             ("parent", VObj s)] []])) with
      | Raise e =>
          (h ++ [mkObject CTable
                   [("name", VStr (String ch r)); ("schema", VObj s);
                    ("parent", VObj s)] []],
           Raise e)
      | Ok _ =>
          (b ++ [mkObject CTable
                   [("name", VStr (String ch r)); ("schema", VObj s);
                    ("parent", VObj s); ("columns", VObj (length h + 1));
                    ("row_id", VBool true)] [];
                 mkObject CColumns [] []],
           match kwargs with
           | [] => Ok tt
           | _ => Raise (ArgumentError (map (fun kv => VStr (fst kv)) kwargs))
           end)
      end).
  { unfold Table__init__.
    run_ok (eapply setattr_head; reflexivity).
    cbn [class_of dict fields attr_set dict_set _attribute].
    match type of Hadd with
    | context [Collection._check_item ?f ?k ?v ?hh] =>
        destruct (snd (Collection._check_item f k v hh)) as [item|e]
    end; [|erewrite bind_raise; [reflexivity|exact Hadd]].
    run_ok (exact Hadd). fold b.
    unfold _rezolve_columns, _filter_columns, _filter_items.
    rewrite islower_lower.
    erewrite bind_ok;
      [|erewrite bind_ok;
          [|erewrite bind_ok; [|reflexivity];
            erewrite bind_ok; [|apply filter_kwargs_scalars; exact Hkw];
            reflexivity];
        cbn [fst snd app];
        erewrite bind_ok; [|apply Collection_new_tail]; reflexivity].
    cbn [fst snd length app].
    rewrite <- Hb.
    run_ok (eapply setattr_at; first [exact Hb|reflexivity]).
    rewrite (kwargs_pop_absent _ _ _ Hrow). cbn [fst snd].
    cbn [class_of dict fields attr_set dict_set String.eqb Ascii.eqb Bool.eqb
         _attribute].
    run_ok (eapply setattr_at; first [exact Hb|reflexivity]).
    cbn [class_of dict fields attr_set dict_set String.eqb Ascii.eqb Bool.eqb
         _attribute].
    assert (Hse : forall h0, set_engine (length h) kwargs h0 = (h0, Ok kwargs)).
    { intros h0. unfold set_engine, attr_mem, dict_mem.
      fold (attr_get kwargs "engine"). now rewrite Heng. }
    run_ok (apply Hse).
    unfold _check_params. destruct kwargs as [|kv kwargs]; [reflexivity|].
    cbn [app map length Nat.ltb Nat.leb forallb is_str fst andb].
    assert (Hall : forallb is_str (map (fun kv0 : string * val => VStr (fst kv0)) kwargs)
                   = true)
      by (clear; induction kwargs; simpl; auto).
    rewrite Hall. reflexivity. }
  unfold Table. run_ok reflexivity. unfold bind. rewrite Hinit. fold b.
  match goal with
  | |- context [Collection._check_item ?f ?k ?v ?hh] =>
      destruct (snd (Collection._check_item f k v hh))
  end; [|reflexivity].
  destruct kwargs; reflexivity.
Qed.

Lemma Table_construction_witness :
  (exists h',
      Table (VStr "v") (VObj 0) [] [] sample_schema = (h', Ok 9) /\
      Collection._get_by_key 1 (VStr "v") h' = (h', Ok (VObj 9))) /\
  (exists h',
      Table (VStr "v") (VObj 0) [] [("x", VInt 1)] sample_schema
        = (h', Raise (ArgumentError [VStr "x"])) /\
      Collection._get_by_key 1 (VStr "v") h' = (h', Ok (VObj 9))) /\
  snd (Table (VStr "t") (VObj 0) [] [] sample_schema)
    = Raise (DuplicateKeyError (VStr "t")).
Proof.
  pose proof (fun name kwargs =>
    Table_construction sample_schema 0 1
      (mkObject CSchema
         [("name", VStr "main"); ("tables", VObj 1); ("indexes", VObj 2);
          ("views", VObj 3); ("triggers", VObj 4)] [])
      (mkObject CTables [] [(VStr "t", VObj 5); (VStr "u", VObj 6)])
      name kwargs eq_refl eq_refl eq_refl eq_refl eq_refl) as H.
  split; [|split].
  - rewrite (H "v" []); [|discriminate|reflexivity..].
    eexists. split; reflexivity.
  - rewrite (H "v" [("x", VInt 1)]); [|discriminate|reflexivity..].
    eexists. split; reflexivity.
  - rewrite (H "t" []); [|discriminate|reflexivity..]. reflexivity.
Defined.

(** ** Columns and primary keys: keywords *)

(** X13. [Column(name, type, **kwargs)] on top of any heap, for non-empty
    [name] and [type] and keywords other than [null], [primary],
    [unique] and [index]: without keywords the column is returned with
    [null = True] and the three other flags [False]; with any, the
    argument error names them, after the column was filled in. *)
Theorem Column_construction (h : heap) (name type : string) (kwargs : attrs) :
  name <> "" -> type <> "" ->
  attr_get kwargs "null" = None ->
  attr_get kwargs "primary" = None ->
  attr_get kwargs "unique" = None ->
  attr_get kwargs "index" = None ->
  Column (VStr name) (VStr type) [] kwargs h
  = (h ++ [mkObject CColumn
             [("name", VStr name); ("type", VStr type); ("null", VBool true);
              ("primary", VBool false); ("unique", VBool false);
              ("index", VBool false)] []],
     match kwargs with
     | [] => Ok (length h)
     | _ => Raise (ArgumentError (map (fun kv => VStr (fst kv)) kwargs))
     end).
Proof.
  intros Hn Ht H1 H2 H3 H4.
  destruct name as [|c r]; [congruence|].
  destruct type as [|c' r']; [congruence|].
  assert (Hinit :
    Column__init__ (length h) (VStr (String c r)) (VStr (String c' r')) [] kwargs
      (h ++ [mkObject CColumn [] []])
    = (h ++ [mkObject CColumn
               [("name", VStr (String c r)); ("type", VStr (String c' r'));
                ("null", VBool true); ("primary", VBool false);
                ("unique", VBool false); ("index", VBool false)] []],
       match kwargs with
       | [] => Ok tt
       | _ => Raise (ArgumentError (map (fun kv => VStr (fst kv)) kwargs))
       end)).
  { unfold Column__init__.
    rewrite (kwargs_pop_absent _ _ _ H1). cbn [fst snd].
    rewrite (kwargs_pop_absent _ _ _ H2). cbn [fst snd].
    rewrite (kwargs_pop_absent _ _ _ H3). cbn [fst snd].
    rewrite (kwargs_pop_absent _ _ _ H4). cbn [fst snd].
    do 6 (run_ok (eapply setattr_head; reflexivity);
          cbn [class_of dict fields attr_set dict_set String.eqb Ascii.eqb
               Bool.eqb _attribute]).
    unfold _check_params. destruct kwargs as [|kv kwargs]; [reflexivity|].
    cbn [app map length Nat.ltb Nat.leb forallb is_str fst andb].
    assert (Hall : forallb is_str (map (fun kv0 : string * val => VStr (fst kv0)) kwargs)
                   = true)
      by (clear; induction kwargs; simpl; auto).
    rewrite Hall. reflexivity. }
  unfold Column. run_ok reflexivity. unfold bind. rewrite Hinit.
  destruct kwargs as [|kv kwargs]; reflexivity.
Qed.

Lemma Column_construction_witness :
  snd (Column (VStr "a") (VStr "TEXT") [] [] sample_tables) = Ok 3 /\
  snd (Column (VStr "a") (VStr "TEXT") [] [("nul", VBool false)] sample_tables)
    = Raise (ArgumentError [VStr "nul"]).
Proof.
  split.
  - rewrite (Column_construction sample_tables "a" "TEXT" []);
      [reflexivity|discriminate|discriminate|reflexivity..].
  - rewrite (Column_construction sample_tables "a" "TEXT" [("nul", VBool false)]);
      [reflexivity|discriminate|discriminate|reflexivity..].
Defined.

(** X14. [PrimaryKey] never reports a keyword it does not know: whatever
    keywords come besides [order], [on_conflict] and [autoincrement],
    the constructor does what it does without them. *)
Theorem PrimaryKey_ignores_keywords (h : heap) (name : val) (kwargs : attrs) :
  attr_get kwargs "order" = None ->
  attr_get kwargs "on_conflict" = None ->
  attr_get kwargs "autoincrement" = None ->
  PrimaryKey name kwargs h = PrimaryKey name [] h.
Proof.
  intros H1 H2 H3. unfold PrimaryKey, PrimaryKey__init__.
  rewrite (kwargs_pop_absent _ _ _ H1). cbn [fst snd].
  rewrite (kwargs_pop_absent _ _ _ H2). cbn [fst snd].
  rewrite (kwargs_pop_absent _ _ _ H3). reflexivity.
Qed.

Lemma PrimaryKey_ignores_keywords_witness :
  PrimaryKey (VStr "pk") [("ordr", VStr "DESC"); ("bogus", VInt 1)] sample_tables
  = PrimaryKey (VStr "pk") [] sample_tables /\
  snd (PrimaryKey (VStr "pk") [] sample_tables) = Ok 3.
Proof.
  split; [|reflexivity].
  apply PrimaryKey_ignores_keywords; reflexivity.
Defined.

(** ** Export: keys and parents *)

Lemma traverse_entries_keys f (d d' : pydict) :
  traverse_entries f d = Some (Ok d') -> map fst d' = map fst d.
Proof.
  revert d'. induction d as [|[k v] d IH]; intros d' H; simpl in H.
  - now injection H as <-.
  - destruct (f k v) as [[v'|e]|]; try discriminate.
    destruct (traverse_entries f d) as [[r'|e]|]; try discriminate.
    injection H as <-. simpl. f_equal. now apply IH.
Qed.

(** X15. An export that returns is a mapping with the keys of what was
    exported (the entries of a collection, the attributes of any other
    instance), in the same order: nothing is dropped, renamed or moved. *)
Theorem as_dict_keeps_keys (fuel : nat) (h : heap) (l : loc) (o : object) (d : val) :
  h !! l = Some o ->
  as_dict fuel h l = Some (Ok d) ->
  exists entries, d = VDict entries /\ map fst entries = map fst (exported o).
Proof.
  intros Hl. unfold as_dict, _traverse_dict, as_VDict. rewrite Hl.
  destruct (is_DictMixin (class_of o)); [|discriminate].
  destruct (traverse_entries (_traverse fuel h l) (exported o)) as [[d'|e]|] eqn:E;
    try discriminate.
  intros H. injection H as <-. eexists. split; [reflexivity|].
  eapply traverse_entries_keys, E.
Qed.

Lemma as_dict_keeps_keys_witness :
  exists entries,
    as_dict 5 built 7 = Some (Ok (VDict entries)) /\
    map fst entries
    = [VStr "name"; VStr "schema"; VStr "parent"; VStr "columns"; VStr "row_id"].
Proof.
  destruct (as_dict 5 built 7) as [[d|e]|] eqn:E;
    [|vm_compute in E; discriminate E..].
  destruct (built !! 7) as [o|] eqn:Ho; [|discriminate Ho].
  destruct (as_dict_keeps_keys 5 built 7 o d Ho E) as (entries & -> & Hk).
  exists entries. split; [reflexivity|].
  rewrite Hk. vm_compute in Ho. injection Ho as <-. reflexivity.
Defined.

Lemma traverse_parent_name_witness :
  _traverse 1 built 7 (VStr "schema") (VObj 0) = Some (Ok (VStr "main")) /\
  _traverse 1 built 5 (VStr "table") (VObj 7) = Some (Ok (VStr "table_1")).
Proof.
  split.
  - destruct (built !! 7) as [o|] eqn:Ho; [|discriminate Ho].
    destruct (built !! 0) as [po|] eqn:Hp; [|discriminate Hp].
    apply (traverse_parent_name 0 built 7 o 0 po _ "main" Ho);
      vm_compute in Ho, Hp; injection Ho as <-; injection Hp as <-;
      first [reflexivity | right; reflexivity].
  - destruct (built !! 5) as [o|] eqn:Ho; [|discriminate Ho].
    destruct (built !! 7) as [po|] eqn:Hp; [|discriminate Hp].
    apply (traverse_parent_name 0 built 5 o 7 po _ "table_1" Ho);
      vm_compute in Ho, Hp; injection Ho as <-; injection Hp as <-;
      first [reflexivity | left; reflexivity].
Defined.

(** ** utils.py: prefixes and URIs *)

Lemma prefix_append (p s : string) : String.prefix p (p ++ s) = true.
Proof.
  induction p as [|c p IH]; simpl; [now destruct s|].
  destruct (ascii_dec c c); [exact IH|congruence].
Qed.

Lemma substring_all (s : string) : String.substring 0 (String.length s) s = s.
Proof. induction s as [|c s IH]; simpl; [reflexivity|now rewrite IH]. Qed.

Lemma substring_append (p s : string) :
  String.substring (String.length p)
    (String.length (p ++ s) - String.length p) (p ++ s) = s.
Proof.
  induction p as [|c p IH]; simpl.
  - rewrite Nat.sub_0_r. apply substring_all.
  - exact IH.
Qed.

Lemma del_prefix_strips (prefix rest : string) :
  Engine.del_prefix (prefix ++ rest) prefix = rest.
Proof.
  unfold Engine.del_prefix, Engine.startswith.
  rewrite prefix_append, andb_true_r.
  destruct prefix as [|c p]; [reflexivity|].
  change (Nat.ltb 0 (String.length (String c p))) with true. cbv iota.
  apply substring_append.
Qed.

(** X17. [del_prefix] undoes the concatenation with the prefix, once: what
    follows the prefix is returned as it is, also when it starts with
    the prefix again, and also for the empty prefix. *)
Theorem del_prefix_append (prefix rest : string) :
  Engine.del_prefix (prefix ++ rest) prefix = rest.
Proof. apply del_prefix_strips. Qed.

Lemma split_length (sep : ascii) (s : string) :
  length (Engine.split sep s) = S (occurrences sep s).
Proof.
  induction s as [|c s IH]; simpl; [reflexivity|].
  destruct (Ascii.eqb c sep); simpl; [now rewrite IH|].
  destruct (Engine.split sep s) as [|p ps]; [discriminate|exact IH].
Qed.

Lemma split_absent (sep : ascii) (s : string) :
  occurrences sep s = 0 -> Engine.split sep s = [s].
Proof.
  induction s as [|c s IH]; simpl; [reflexivity|].
  destruct (Ascii.eqb c sep); [discriminate|]. simpl.
  intros H. now rewrite (IH H).
Qed.

Lemma split_append (sep : ascii) (a b : string) :
  occurrences sep a = 0 ->
  Engine.split sep (a ++ String sep b) = a :: Engine.split sep b.
Proof.
  induction a as [|c a IH]; simpl.
  - now rewrite Ascii.eqb_refl.
  - destruct (Ascii.eqb c sep); [discriminate|]. simpl.
    intros H. now rewrite (IH H).
Qed.

Lemma occurrences_append (sep : ascii) (a b : string) :
  occurrences sep (a ++ b) = occurrences sep a + occurrences sep b.
Proof. induction a as [|c a IH]; simpl; [reflexivity|]. rewrite IH. lia. Qed.

(** X18. A URI is parsed only if it holds exactly one question mark:
    otherwise [parse_uri] raises [ValueError], and so does the
    constructor of the connection manager when [uri] is set and the
    database starts with [file:], before it takes a lock or connects. *)
Theorem uri_needs_one_question_mark (env : Engine.os) (database : string)
    (ensure_folder : bool) :
  occurrences "?" database <> 1 ->
  Engine.parse_uri_file env database = inl Engine.ValueError /\
  (Engine.startswith "file:" database = true ->
   Engine.__init__ env database true ensure_folder = ([], inl Engine.ValueError)).
Proof.
  intros Hn.
  assert (Hp : Engine.parse_uri_file env database = inl Engine.ValueError).
  { unfold Engine.parse_uri_file.
    pose proof (split_length "?" database) as Hl.
    destruct (Engine.split "?" database) as [|f [|p [|q l]]]; try reflexivity.
    simpl in Hl. congruence. }
  split; [exact Hp|]. intros Hs.
  unfold Engine.__init__, Engine._get_file_path. rewrite Hs, Hp. reflexivity.
Qed.

Lemma uri_needs_one_question_mark_witness :
  Engine.__init__ sample_os "file:data.db" true false = ([], inl Engine.ValueError).
Proof.
  refine (proj2 (uri_needs_one_question_mark sample_os "file:data.db" false _) _).
  - vm_compute. lia.
  - reflexivity.
Defined.

(** X19. With [uri] set, the file path of [file:<path>?<parameters>] is the
    real path of [<path>] alone, when neither part holds a question
    mark, every parameter is one [key=value], and the keys are accepted
    as field names. *)
Theorem uri_file_path (env : Engine.os) (path params : string) (ks : list string) :
  occurrences "?" path = 0 ->
  occurrences "?" params = 0 ->
  Engine.param_keys (Engine.split "&" params) = Some ks ->
  List.NoDup ks ->
  Engine.make_dataclass env ("file" :: ks) = true ->
  Engine._get_file_path env ("file:" ++ path ++ String "?" params) true
  = inr (Engine.realpath env path).
Proof.
  intros Hpath Hparams Hks _ Hmk.
  unfold Engine._get_file_path, Engine.startswith.
  rewrite prefix_append. cbv [andb].
  unfold Engine.parse_uri_file.
  replace ("file:" ++ path ++ String "?" params)%string
    with (("file:" ++ path) ++ String "?" params)%string
    by reflexivity.
  rewrite split_append
    by (rewrite occurrences_append, Hpath; reflexivity).
  rewrite (split_absent _ _ Hparams), Hks, Hmk.
  now rewrite del_prefix_strips.
Qed.

Lemma uri_file_path_witness :
  Engine._get_file_path sample_os "file:data.db?mode=ro&cache=shared" true
  = inr "/srv/app/data.db".
Proof.
  apply (uri_file_path sample_os "data.db" "mode=ro&cache=shared" ["mode"; "cache"]);
    try reflexivity.
  apply List.NoDup_cons; [simpl; intros [H|[]]; discriminate|].
  apply List.NoDup_cons; [intros []|apply List.NoDup_nil].
Defined.

(** ** engines.py: the lock around every operation *)

Lemma held_app (d : nat) (a b : list Manager.event) :
  Manager.held d (a ++ b)
  = match Manager.held d a with
    | Some d' => Manager.held d' b
    | None => None
    end.
Proof.
  revert d. induction a as [|e a IH]; intros d; simpl; [reflexivity|].
  destruct e as [[]| | | | | |]; try apply IH.
  destruct d; [reflexivity|apply IH].
Qed.

(** [_check_path] fails exactly when it asks for a folder that is not
    there and cannot be made; it touches no lock. *)
Lemma check_path_outcome (env : Engine.os) (self : Engine.SQLite) (p : string) :
  let folder := Engine.dirname env (Engine.realpath env p) in
  let refused :=
    Engine._ensure_folder self && negb (String.eqb p ":memory:")
    && negb (Engine.path_exists env folder)
    && match Engine.makedirs env folder with Engine.Refused => true | _ => false end in
  snd (Engine._check_path env self p)
  = (if refused then inl Engine.OSError else inr tt) /\
  forall d, Manager.held d (map Manager.Sys (fst (Engine._check_path env self p))) = Some d.
Proof.
  unfold Engine._check_path, Engine.ensure_folder, Engine.make_dirs.
  destruct (Engine._ensure_folder self && negb (String.eqb p ":memory:"));
    [|split; reflexivity].
  destruct (Engine.path_exists env _); [split; reflexivity|].
  destruct (Engine.makedirs env _); split; reflexivity.
Qed.

Lemma acquire_outcome (env : Engine.os) (self : Engine.SQLite) (d : nat) :
  let folder := Engine.dirname env (Engine.realpath env (Engine._file_path self)) in
  let refused :=
    Engine._ensure_folder self
    && negb (String.eqb (Engine._file_path self) ":memory:")
    && negb (Engine.path_exists env folder)
    && match Engine.makedirs env folder with Engine.Refused => true | _ => false end in
  snd (Manager.acquire env self)
  = (if refused then inl Manager.OSError
     else if Engine.connect env (Engine._database self) then inr tt
     else inl Manager.SqliteError) /\
  Manager.held d (fst (Manager.acquire env self))
  = Some (if refused then S d else d).
Proof.
  cbn zeta.
  destruct (check_path_outcome env self (Engine._file_path self)) as [Hs Hh].
  cbn zeta in Hs. unfold Manager.acquire, Engine.acquire. cbn [fst snd].
  rewrite Hs.
  destruct (_ && _ && _ && _).
  - split; [reflexivity|].
    cbn [fst]. rewrite map_app, held_app. cbn [map Manager.held]. apply Hh.
  - destruct (Engine.connect env (Engine._database self)); (split; [reflexivity|]);
      cbn [fst]; rewrite !map_app, !held_app; cbn [map Manager.held];
      rewrite Hh; reflexivity.
Qed.

Lemma held_release (self : Engine.SQLite) (ok : bool) (d : nat) :
  Manager.held d (Manager.release self ok) = Some d.
Proof. destruct ok; reflexivity. Qed.

(** X20. Closing a connection, running a statement, asking for a cursor
    and closing the manager leave the reentrant lock at the depth they
    found it, however they end: with a result, with an error of
    [sqlite3], or with the [AttributeError] of a manager that has no
    connection any more. Connecting does so as well, but for one case:
    when the folder of the database is asked for, is not there and
    cannot be created, the error of [os.makedirs] leaves [acquire] with
    the lock held once more than before. *)
Theorem lock_released_unless_makedirs_fails (env : Engine.os) (self : Engine.SQLite)
    (attached ok : bool) (sql : string) (d : nat) :
  let folder := Engine.dirname env (Engine.realpath env (Engine._file_path self)) in
  let refused :=
    Engine._ensure_folder self
    && negb (String.eqb (Engine._file_path self) ":memory:")
    && negb (Engine.path_exists env folder)
    && match Engine.makedirs env folder with Engine.Refused => true | _ => false end in
  snd (Manager.acquire env self)
  = (if refused then inl Manager.OSError
     else if Engine.connect env (Engine._database self) then inr tt
     else inl Manager.SqliteError) /\
  Manager.held d (fst (Manager.acquire env self))
  = Some (if refused then S d else d) /\
  Manager.held d (Manager.release self ok) = Some d /\
  Manager.held d (fst (Manager.execute attached ok sql)) = Some d /\
  Manager.held d (fst (Manager._get_cursor attached ok)) = Some d /\
  Manager.held d (fst (Manager.close self attached ok)) = Some d.
Proof.
  cbn zeta. destruct (acquire_outcome env self d) as [Hs Hh].
  split; [exact Hs|]. split; [exact Hh|].
  split; [apply held_release|].
  split; [destruct attached, ok; reflexivity|].
  split; [destruct attached, ok; reflexivity|].
  unfold Manager.close. cbn [fst Manager.held Manager.acquire_lock].
  rewrite held_app.
  destruct attached; [rewrite held_release|]; reflexivity.
Qed.

(** X21. [query] releases the lock it took exactly when it got a cursor. If
    the cursor cannot be had, because the connection refuses or because
    the manager has none, the error leaves [query] with the lock held
    once more than before. *)
Theorem query_lock_depth (attached cursor_ok execute_ok : bool) (sql : string)
    (d : nat) :
  Manager.held d (fst (Manager.query attached cursor_ok execute_ok sql))
  = Some (if attached && cursor_ok then d else S d) /\
  (attached && cursor_ok = false ->
   exists e, snd (Manager.query attached cursor_ok execute_ok sql) = inl e).
Proof.
  destruct attached, cursor_ok, execute_ok; (split; [reflexivity|]);
    simpl; intros H; try discriminate; eauto.
Qed.

Lemma query_lock_depth_witness :
  Manager.held 0 (fst (Manager.query true false true "SELECT 1")) = Some 1 /\
  exists e, snd (Manager.query true false true "SELECT 1") = inl e.
Proof.
  destruct (query_lock_depth true false true "SELECT 1" 0) as [H1 H2].
  split; [exact H1|]. apply H2. reflexivity.
Defined.

(** X22. A [with] block on a manager: if entering succeeds, the manager
    has a connection inside the block, and after a body that leaves the
    lock as it found it, leaving the block gives the lock back and drops
    the connection. Entering fails only when it has to connect: on an
    error of [sqlite3] the lock is back where it was; on the error of
    [os.makedirs], which [__enter__] does not catch, the lock stays held
    twice, once by [__enter__] and once by [acquire]. No connection is
    kept either way. *)
Theorem scoped_use (env : Engine.os) (self : Engine.SQLite)
    (attached close_ok : bool) (body : list Manager.event) (d : nat) :
  Manager.held (S d) body = Some (S d) ->
  match Manager.__enter__ env self attached with
  | (evs, inside, inr _) =>
      inside = true /\
      Manager.held d evs = Some (S d) /\
      Manager.held d (evs ++ body ++ fst (Manager.__exit__ self inside close_ok))
      = Some d /\
      snd (Manager.__exit__ self inside close_ok) = false
  | (evs, inside, inl Manager.SqliteError) =>
      attached = false /\ inside = false /\ Manager.held d evs = Some d
  | (evs, inside, inl Manager.OSError) =>
      attached = false /\ inside = false /\ Manager.held d evs = Some (S (S d))
  | (evs, inside, inl Manager.AttributeError) => False
  end.
Proof.
  intros Hbody.
  assert (Hexit : Manager.held (S d) (fst (Manager.__exit__ self true close_ok))
                  = Some d).
  { unfold Manager.__exit__. cbn [fst]. rewrite held_app, held_release.
    reflexivity. }
  unfold Manager.__enter__. destruct attached.
  - split; [reflexivity|]. split; [reflexivity|]. split; [|reflexivity].
    cbn [Manager.held Manager.acquire_lock app].
    rewrite held_app, Hbody. exact Hexit.
  - destruct (acquire_outcome env self (S d)) as [Hs Hh]. cbn zeta in Hs, Hh.
    destruct (Manager.acquire env self) as [evs r] eqn:E. cbn [fst snd] in Hs, Hh.
    destruct (_ && _ && _ && _).
    + subst r. split; [reflexivity|]. split; [reflexivity|].
      cbn [Manager.held Manager.acquire_lock]. exact Hh.
    + destruct (Engine.connect env (Engine._database self)); subst r.
      * split; [reflexivity|].
        cbn [Manager.held Manager.acquire_lock app].
        split; [exact Hh|]. split; [|reflexivity].
        rewrite held_app, Hh, held_app, Hbody. exact Hexit.
      * split; [reflexivity|]. split; [reflexivity|].
        cbn [Manager.held Manager.acquire_lock app].
        rewrite held_app, Hh. reflexivity.
Qed.

Lemma scoped_use_witness :
  let self := Engine.mkSQLite "data.db" false false "/srv/app/data.db" in
  let body := fst (Manager.execute true true "SELECT 1") in
  exists evs,
    Manager.__enter__ sample_os self false = (evs, true, inr tt) /\
    Manager.held 0 (evs ++ body ++ fst (Manager.__exit__ self true true)) = Some 0.
Proof.
  intros self body.
  pose proof (scoped_use sample_os self false true body 0 eq_refl) as H.
  destruct (Manager.__enter__ sample_os self false) as [[evs inside] [e|[]]] eqn:E.
  - vm_compute in E. discriminate E.
  - destruct H as (-> & _ & H & _). exists evs. split; [reflexivity|exact H].
Defined.

(** A manager asked to ensure the folder [/srv/app/db], on a system
    where that folder is missing and cannot be created: [acquire] ends
    in the error of [os.makedirs] with the lock held, before any
    connection is tried; a [with] block entered then ends with the lock
    held twice. *)
Example makedirs_refused_keeps_lock :
  let self := Engine.mkSQLite "db/data.db" false true "/srv/app/db/data.db" in
  snd (Manager.acquire sealed_os self) = inl Manager.OSError /\
  Manager.held 0 (fst (Manager.acquire sealed_os self)) = Some 1 /\
  snd (Manager.__enter__ sealed_os self false) = inl Manager.OSError /\
  Manager.held 0 (fst (fst (Manager.__enter__ sealed_os self false))) = Some 2.
Proof. repeat split. Qed.


(** ** engines.py: one lock for each file path *)

Lemma string_dict_get_set_other {V} (d : list (string * V)) k k' v :
  k <> k' ->
  dict_get String.eqb (dict_set String.eqb d k v) k' = dict_get String.eqb d k'.
Proof.
  intros Hk. induction d as [|[a w] d IH]; simpl.
  - destruct (String.eqb_spec k' k); congruence.
  - destruct (String.eqb_spec k a) as [->|Ha]; simpl.
    + destruct (String.eqb_spec k' a); congruence.
    + destruct (String.eqb_spec k' a); [reflexivity|exact IH].
Qed.

Lemma get_lock_spec (key : string) (reg : Locks.registry) :
  Locks.well_formed reg ->
  exists l,
    snd (Locks._get_lock key reg) = Some l /\
    dict_get String.eqb (Locks.entries (fst (Locks._get_lock key reg))) key = Some l /\
    (forall k m, dict_get String.eqb (Locks.entries reg) k = Some m ->
       dict_get String.eqb (Locks.entries (fst (Locks._get_lock key reg))) k = Some m) /\
    Locks.well_formed (fst (Locks._get_lock key reg)).
Proof.
  intros [Hlt Hinj]. unfold Locks._get_lock. cbn [fst snd].
  destruct (dict_mem String.eqb (Locks.entries reg) key) eqn:Hm; cbn [negb].
  - apply dict_mem_true in Hm as [l Hl]. exists l.
    repeat split; auto.
  - apply dict_mem_false in Hm. exists (Locks.made reg). cbn [Locks.entries].
    assert (Hsame : dict_get String.eqb
                      (dict_set String.eqb (Locks.entries reg) key (Locks.made reg)) key
                    = Some (Locks.made reg))
      by (apply dict_get_set_same, String.eqb_refl).
    split; [exact Hsame|]. split; [exact Hsame|].
    assert (Hold : forall k m, dict_get String.eqb (Locks.entries reg) k = Some m ->
              dict_get String.eqb
                (dict_set String.eqb (Locks.entries reg) key (Locks.made reg)) k
              = Some m).
    { intros k m Hk. rewrite string_dict_get_set_other; [exact Hk|].
      intros ->. congruence. }
    split; [exact Hold|].
    assert (Hcases : forall k m,
              dict_get String.eqb
                (dict_set String.eqb (Locks.entries reg) key (Locks.made reg)) k
              = Some m ->
              (k = key /\ m = Locks.made reg) \/
              (k <> key /\ dict_get String.eqb (Locks.entries reg) k = Some m)).
    { intros k m Hk. destruct (String.eqb_spec k key) as [->|Hne].
      - left. split; [reflexivity|congruence].
      - right. split; [exact Hne|].
        rewrite string_dict_get_set_other in Hk by congruence. exact Hk. }
    split; cbn [Locks.entries Locks.made].
    + intros k m Hk. destruct (Hcases k m Hk) as [[_ ->]|[_ H]]; [lia|].
      specialize (Hlt k m H). lia.
    + intros k k' m Hk Hk'.
      destruct (Hcases k m Hk) as [[Ek Em]|[Hne H]];
        destruct (Hcases k' m Hk') as [[Ek' Em']|[Hne' H']].
      * congruence.
      * specialize (Hlt k' _ H'). lia.
      * specialize (Hlt k _ H). lia.
      * now apply (Hinj k k' m).
Qed.

(** X24. Asking the registry for a lock always gives one; asking twice gives
    the same lock exactly when the keys are the same, whatever was
    registered before and in between, and the locks handed out earlier
    stay with their keys. *)
Theorem one_lock_per_key (k1 k2 : string) (reg : Locks.registry) :
  Locks.well_formed reg ->
  let first := Locks._get_lock k1 reg in
  let second := Locks._get_lock k2 (fst first) in
  exists l1 l2,
    snd first = Some l1 /\ snd second = Some l2 /\
    (l1 = l2 <-> k1 = k2) /\
    dict_get String.eqb (Locks.entries (fst second)) k1 = Some l1 /\
    Locks.well_formed (fst second).
Proof.
  intros Hwf. cbn zeta.
  destruct (get_lock_spec k1 reg Hwf) as (l1 & H1 & G1 & _ & Hwf1).
  destruct (get_lock_spec k2 _ Hwf1) as (l2 & H2 & G2 & Hold & Hwf2).
  exists l1, l2. split; [exact H1|]. split; [exact H2|].
  split; [|split; [now apply Hold|exact Hwf2]].
  split.
  - intros <-. destruct Hwf2 as [_ Hinj].
    apply (Hinj k1 k2 l1); [now apply Hold|exact G2].
  - intros <-. apply Hold in G1. congruence.
Qed.

Lemma one_lock_per_key_witness :
  exists l1 l2,
    snd (Locks._get_lock "/srv/app/a.db" (Locks.mkRegistry [] 0)) = Some l1 /\
    snd (Locks._get_lock "/srv/app/b.db"
           (fst (Locks._get_lock "/srv/app/a.db" (Locks.mkRegistry [] 0)))) = Some l2 /\
    l1 <> l2.
Proof.
  assert (Hwf : Locks.well_formed (Locks.mkRegistry [] 0)).
  { split; simpl; intros; discriminate. }
  destruct (one_lock_per_key "/srv/app/a.db" "/srv/app/b.db" _ Hwf)
    as (l1 & l2 & H1 & H2 & [Hiff _] & _).
  exists l1, l2. split; [exact H1|]. split; [exact H2|].
  intros E. specialize (Hiff E). discriminate Hiff.
Defined.

(** ** engines.py: fetching from a cursor *)

Section CursorFacts.
Context {Row Out : Type}.

Lemma fetchmany_open (factory : Row -> Out) (size : positive)
    (c : @Cursor.cursor Row) :
  Cursor.closed c = false ->
  Cursor.fetchmany factory size c
  = (inr (map factory (firstn (Pos.to_nat size) (Cursor.pending c))),
     let c' := Cursor.mkCursor (skipn (Pos.to_nat size) (Cursor.pending c))
                 false (Cursor._is_closed c) in
     match Cursor.pending c with
     | [] => Cursor.close c'
     | _ :: _ => c'
     end).
Proof.
  intros Hc. unfold Cursor.fetchmany, Cursor.base_fetchmany. rewrite Hc.
  f_equal. cbn zeta.
  destruct (Pos.to_nat size) as [|n] eqn:En; [lia|].
  destruct (Cursor.pending c); reflexivity.
Qed.

Lemma drain_open (factory : Row -> Out) (size : positive) (fuel : nat) :
  forall c : @Cursor.cursor Row,
    Cursor.closed c = false ->
    length (Cursor.pending c) < fuel ->
    exists c',
      Cursor.drain fuel factory size c = Some (map factory (Cursor.pending c), c') /\
      Cursor.closed c' = true /\ Cursor._is_closed c' = true.
Proof.
  induction fuel as [|fuel IH]; intros c Hc Hlen; [lia|].
  cbn [Cursor.drain]. rewrite (fetchmany_open _ _ _ Hc). cbn zeta.
  destruct (Cursor.pending c) as [|row rest] eqn:Ep.
  - rewrite firstn_nil. cbn [map]. eexists. split; [reflexivity|]. split; reflexivity.
  - destruct (Pos.to_nat size) as [|n] eqn:En; [lia|].
    cbn [firstn skipn map].
    destruct (IH (Cursor.mkCursor (skipn n rest) false (Cursor._is_closed c)))
      as (c' & Hd & Hc1 & Hc2); [reflexivity| |].
    { cbn [Cursor.pending]. rewrite length_skipn. simpl in Hlen. lia. }
    rewrite Hd. cbn [Cursor.pending app]. exists c'. split; [|split; assumption].
    rewrite <- map_app, firstn_skipn. reflexivity.
Qed.

End CursorFacts.

(** X25. [fetchone] always leaves the cursor closed: of an open cursor it
    returns the first pending row (or what the factory makes of no row),
    and the rows after it cannot be fetched any more, every later fetch
    raising [ProgrammingError]. *)
Theorem fetchone_drops_the_rest {Row Out : Type} (factory : option Row -> Out)
    (c : @Cursor.cursor Row) :
  let c' := snd (Cursor.fetchone factory c) in
  Cursor.closed c' = true /\ Cursor._is_closed c' = true /\
  (Cursor.closed c = false ->
   fst (Cursor.fetchone factory c) = inr (factory (head (Cursor.pending c)))) /\
  (forall f : option Row -> Out,
     fst (Cursor.fetchone f c') = inl Cursor.ProgrammingError) /\
  (forall f : Row -> Out,
     fst (Cursor.fetchall f c') = inl Cursor.ProgrammingError) /\
  (forall (f : Row -> Out) size,
     fst (Cursor.fetchmany f size c') = inl Cursor.ProgrammingError).
Proof.
  cbn zeta.
  assert (Hc : Cursor.closed (snd (Cursor.fetchone factory c)) = true).
  { unfold Cursor.fetchone, Cursor.base_fetchone.
    destruct (Cursor.closed c); [reflexivity|].
    destruct (Cursor.pending c); reflexivity. }
  split; [exact Hc|]. split.
  { unfold Cursor.fetchone, Cursor.base_fetchone.
    destruct (Cursor.closed c); [reflexivity|].
    destruct (Cursor.pending c); reflexivity. }
  split.
  { intros Ho. unfold Cursor.fetchone, Cursor.base_fetchone. rewrite Ho.
    destruct (Cursor.pending c); reflexivity. }
  split; [|split]; intros.
  - unfold Cursor.fetchone at 1, Cursor.base_fetchone. now rewrite Hc.
  - unfold Cursor.fetchall, Cursor.base_fetchall. now rewrite Hc.
  - unfold Cursor.fetchmany, Cursor.base_fetchmany. now rewrite Hc.
Qed.

Lemma fetchone_drops_the_rest_witness :
  let c := Cursor.mkCursor [1; 2; 3]%Z false false in
  fst (Cursor.fetchone (fun r : option Z => r) c) = inr (Some 1%Z) /\
  fst (Cursor.fetchone (fun r : option Z => r)
         (snd (Cursor.fetchone (fun r : option Z => r) c)))
  = inl Cursor.ProgrammingError.
Proof.
  intros c.
  destruct (fetchone_drops_the_rest (fun r : option Z => r) c)
    as (_ & _ & H1 & H2 & _).
  split; [exact (H1 eq_refl)|apply H2].
Defined.

(** X26. Calling [fetchmany] on an open cursor until it returns an empty list
    yields, joined, every pending row in order, each through the
    factory, whatever the positive size: the same list [fetchall]
    returns. Both leave the cursor closed; [fetchmany] closes it at the
    empty list and not before. *)
Theorem fetchmany_drains {Row Out : Type} (factory : Row -> Out) (size : positive)
    (fuel : nat) (c : @Cursor.cursor Row) :
  Cursor.closed c = false ->
  length (Cursor.pending c) < fuel ->
  exists c',
    Cursor.drain fuel factory size c = Some (map factory (Cursor.pending c), c') /\
    Cursor.closed c' = true /\ Cursor._is_closed c' = true /\
    Cursor.fetchall factory c
    = (inr (map factory (Cursor.pending c)), Cursor.mkCursor [] true true) /\
    (Cursor.pending c <> [] ->
     Cursor.closed (snd (Cursor.fetchmany factory size c)) = false).
Proof.
  intros Hc Hlen.
  destruct (drain_open factory size fuel c Hc Hlen) as (c' & Hd & H1 & H2).
  exists c'. split; [exact Hd|]. split; [exact H1|]. split; [exact H2|].
  split.
  - unfold Cursor.fetchall, Cursor.base_fetchall. now rewrite Hc.
  - intros Hne. rewrite (fetchmany_open _ _ _ Hc). cbn [snd].
    destruct (Cursor.pending c); [congruence|reflexivity].
Qed.

Lemma fetchmany_drains_witness :
  exists c',
    Cursor.drain 4 Z.succ 2 (Cursor.mkCursor [1; 2; 3]%Z false false)
    = Some ([2; 3; 4]%Z, c') /\
    Cursor.closed c' = true.
Proof.
  destruct (fetchmany_drains Z.succ 2 4 (Cursor.mkCursor [1; 2; 3]%Z false false)
              eq_refl) as (c' & H & Hc & _).
  - simpl. lia.
  - exists c'. split; [exact H|exact Hc].
Defined.

Lemma dict_get_absent (d : attrs) (k : string) :
  ~ In k (map fst d) -> dict_get String.eqb d k = None.
Proof.
  induction d as [|[a v] d IH]; simpl; intros Hn; [reflexivity|].
  destruct (String.eqb_spec k a) as [->|_]; [tauto|]. apply IH. tauto.
Qed.

Lemma to_dict_fold (row acc : attrs) :
  List.NoDup (map fst (acc ++ row)) ->
  fold_left (fun d kv => attr_set d (fst kv) (snd kv)) row acc = acc ++ row.
Proof.
  revert acc. induction row as [|[k v] row IH]; intros acc Hn; simpl.
  - now rewrite app_nil_r.
  - assert (Hk : ~ In k (map fst acc)).
    { rewrite map_app in Hn. simpl in Hn.
      apply List.NoDup_remove_2 in Hn. rewrite in_app_iff in Hn. tauto. }
    unfold attr_set at 2. rewrite dict_set_fresh by now apply dict_get_absent.
    rewrite IH; rewrite <- app_assoc; [reflexivity|exact Hn].
Qed.

(** X27. The default row factory turns a row whose column names are all
    different into the dictionary of its columns, in order, and no row
    into [None]. *)
Theorem to_dict_unique_columns (row : list (string * val)) :
  List.NoDup (map fst row) ->
  Cursor._to_dict (Some row) = Some row /\ Cursor._to_dict None = None.
Proof.
  intros Hn. split; [|reflexivity].
  unfold Cursor._to_dict. now rewrite to_dict_fold.
Qed.

Lemma to_dict_unique_columns_witness :
  Cursor._to_dict (Some [("id", VInt 1); ("name", VStr "a")])
  = Some [("id", VInt 1); ("name", VStr "a")].
Proof.
  apply (to_dict_unique_columns [("id", VInt 1); ("name", VStr "a")]).
  apply List.NoDup_cons; [simpl; intros [H|[]]; discriminate H|].
  apply List.NoDup_cons; [simpl; tauto|apply List.NoDup_nil].
Defined.
